(** * Antigravity Manager: process lifecycle and account backup

    A shallow embedding of [gui/process_manager.py] and [gui/db_manager.py].

    Part I holds the definitions, one module per component:
    - [PyStr]   : the string operations the Python code relies on
                  ([str.lower], [in], [str.endswith]) on byte strings.
    - [Journal] : the journals of calls that the models keep.
    - [Locator] : the per-platform process predicate and the scan that
                  builds the list [target_processes].
    - [Closer]  : [close_antigravity], over an abstract operating system
                  (process polling, signals, clock), with a journal of the
                  calls that were made.
    - [Sim]     : a simulated operating system on which [close_antigravity]
                  can be run.
    - [Launcher]: [start_antigravity].
    - [Db]      : [backup_account], [restore_account], [_restore_single_db]
                  over a file system of key/value databases.
    - [AccountInfo] : [get_current_account_info], over the same file system
                  and an abstract [json.loads].
    Part II holds the lemmas and theorems, in the same order, followed by
    further facts about each component ([LocatorMore], [CloserMore],
    [LauncherMore], [DbMore], [AccountFacts]).

    Conventions of the model.
    - Strings are byte strings.  [PyStr.lower] lower-cases the letters A-Z
      and serves where the code compares a lower-cased string with an ASCII
      literal; the directory test of the scan, which compares two
      lower-cased paths, takes [str.lower] as a parameter.
    - The disk is one map from paths to files; a file is a database or a
      text, and each of [sqlite3] and [json.load] sees every file in its
      own way.
    - Time is rational.  [time.time()] reads the clock of the world and
      takes no time itself; time passes in [time.sleep] and in the calls of
      the process library.
    - The [while] loop of [close_antigravity] and the recursion of
      [start_antigravity] are bounded by a fuel argument; Part II shows how
      much fuel is enough.
    - Logging is left out, except for the [error(...)] messages of
      [close_antigravity], which are journal events. *)

From Stdlib Require Import Ascii String QArith Qround Lqa.
From stdpp Require Import base option list strings gmap.

(* ===================================================================== *)
(** * Part I: definitions *)
(* ===================================================================== *)

(* ===================================================================== *)
(** ** Python string operations *)
(* ===================================================================== *)

Module PyStr.

(** [c.lower()] on one byte: the letters A-Z move to a-z, every other byte
    is kept. *)
Definition lower_ascii (c : ascii) : ascii :=
  let n := Ascii.N_of_ascii c in
  if ((65 <=? n) && (n <=? 90))%N then Ascii.ascii_of_N (n + 32) else c.

(** [s.lower()] where the result is compared with an ASCII literal
    ([==], [in], [endswith]).  [str.lower] turns a character outside ASCII
    into characters outside ASCII, with two exceptions: the Kelvin sign
    becomes [k], and the dotted capital I becomes [i] followed by a
    combining dot; neither can take part in an occurrence of one of the
    literals of this program.  Where two lower-cased strings are compared
    with each other, the models take [str.lower] as a parameter instead
    ([Locator.str_lower]). *)
Fixpoint lower (s : string) : string :=
  match s with
  | EmptyString => EmptyString
  | String c t => String (lower_ascii c) (lower t)
  end.

(** [s.startswith(p)] *)
Fixpoint startswith (s p : string) : bool :=
  match p, s with
  | EmptyString, _ => true
  | String _ _, EmptyString => false
  | String a p', String b s' => if Ascii.eqb a b then startswith s' p' else false
  end.

(** [needle in hay] for two strings: some position of [hay] starts with
    [needle]. *)
Fixpoint contains (needle hay : string) : bool :=
  startswith hay needle ||
  match hay with
  | EmptyString => false
  | String _ t => contains needle t
  end.

(** [s.endswith(suffix)] *)
Fixpoint endswith (s suffix : string) : bool :=
  String.eqb s suffix ||
  match s with
  | EmptyString => false
  | String _ t => endswith t suffix
  end.

(** Truthiness of a string: the empty string is falsy. *)
Definition truthy (s : string) : bool :=
  match s with EmptyString => false | String _ _ => true end.

(** [x.lower() if x else ""], where [x] may be [None]. *)
Definition lower_or_empty (x : option string) : string :=
  match x with
  | Some s => if truthy s then lower s else ""
  | None => ""
  end.

End PyStr.

(* ===================================================================== *)
(** ** Journals *)
(* ===================================================================== *)

(** The models below keep a journal: the list of the calls that a run made
    to the outside world, oldest first. *)
Module Journal.

(** [j'] is [j] followed by events that all satisfy [P]. *)
Definition extends_with {E : Type} (P : E -> Prop) (j j' : list E) : Prop :=
  exists evs, j' = j ++ evs /\ Forall P evs.

End Journal.

(* ===================================================================== *)
(** ** Process locator *)
(* ===================================================================== *)

Module Locator.
Import PyStr.

(** The value of [platform.system()]. *)
Inductive Platform : Type :=
  | Darwin
  | Windows
  | Linux
  | OtherSystem (name : string).

(** One entry of [psutil.process_iter(['pid', 'name', 'exe'])]: the pid and
    the two fields of [proc.info], each of which may be [None]. *)
Record Proc : Type := mkProc {
  pid : Z;
  name : option string;
  exe : option string
}.

(** What the scan takes from the interpreter it runs in: [os.getpid()];
    [os.path.dirname(os.path.abspath(sys.executable))], which is [None] when
    computing it raises (the bare [except: pass]); and [str.lower] as the
    directory test applies it to the two paths.  Python lower-cases by the
    rules of Unicode, which this development does not define; wherever a
    lower-cased string is compared with one of the ASCII literals of the
    name/path tests, [PyStr.lower] decides the comparison as [str.lower]
    does, and the models use it there. *)
Record Caller : Type := mkCaller {
  own_pid : Z;
  install_dir : option string;
  str_lower : string -> string
}.

(** The name/path test of [is_process_running], on the lower-cased name and
    executable path. *)
Definition running_match (system : Platform) (process_name_lower exe_path : string) : bool :=
  match system with
  | Darwin => contains "antigravity.app" exe_path
  | Windows =>
      (String.eqb process_name_lower "antigravity.exe"
       || String.eqb process_name_lower "antigravity")
      || contains "antigravity" exe_path
  | _ =>
      String.eqb process_name_lower "antigravity"
      || contains "/antigravity/" exe_path
      || endswith exe_path "/antigravity"
  end.

(** The name/path test of [close_antigravity]; it differs from
    [running_match] on Windows only. *)
Definition close_match (system : Platform) (process_name_lower exe_path : string) : bool :=
  match system with
  | Darwin => contains "antigravity.app" exe_path
  | Windows =>
      let is_target_name :=
        String.eqb process_name_lower "antigravity.exe"
        || String.eqb process_name_lower "antigravity" in
      let is_in_path := contains "antigravity" exe_path in
      let is_manager := contains "manager" process_name_lower in
      is_target_name || (is_in_path && negb is_manager)
  | _ =>
      String.eqb process_name_lower "antigravity"
      || contains "/antigravity/" exe_path
      || endswith exe_path "/antigravity"
  end.

Definition is_antigravity_running (system : Platform) (proc : Proc) : bool :=
  running_match system (lower_or_empty (name proc)) (lower_or_empty (exe proc)).

(** [is_process_running()]: true at the first matching process. *)
Definition is_process_running (system : Platform) (procs : list Proc) : bool :=
  existsb (is_antigravity_running system) procs.

(** [current_dir = os.path.dirname(...).lower()] and
    [if exe_path and current_dir in exe_path: continue], on the value of
    [proc.info.get('exe')]. *)
Definition in_current_dir (caller : Caller) (exe : option string) : bool :=
  match install_dir caller with
  | Some d =>
      let current_dir := str_lower caller d in
      let exe_path :=
        match exe with
        | Some e => if truthy e then str_lower caller e else ""
        | None => ""
        end in
      truthy exe_path && contains current_dir exe_path
  | None => false
  end.

(** The body of the scanning loop for one process: [true] when the process
    is appended to [target_processes]. *)
Definition is_target (system : Platform) (caller : Caller) (proc : Proc) : bool :=
  let process_name_lower := lower_or_empty (name proc) in
  let exe_path := lower_or_empty (exe proc) in
  if (pid proc =? own_pid caller)%Z then false
  else if in_current_dir caller (exe proc) then false
  else close_match system process_name_lower exe_path.

(** [target_processes] after the scanning loop. *)
Definition scan_targets (system : Platform) (caller : Caller) (procs : list Proc)
  : list Proc :=
  List.filter (is_target system caller) procs.

(** The path separators of the platforms. *)
Definition is_separator (c : ascii) : bool :=
  Ascii.eqb c "/" || Ascii.eqb c "\".

Definition starts_with_separator (s : string) : Prop :=
  exists c t, s = String c t /\ is_separator c = true.

Definition ends_with_separator (s : string) : Prop :=
  exists t c, s = t +:+ String c "" /\ is_separator c = true.

(** An executable path lies under a directory when it is the directory
    followed by a path inside it: the two are joined at a separator. *)
Definition lies_under (dir path : string) : Prop :=
  exists rest,
    rest <> "" /\ path = dir +:+ rest
    /\ (starts_with_separator rest \/ ends_with_separator dir).

(** What the statements about the directory test need of [str.lower]: a
    string that is not empty stays so, and the characters on the two sides
    of a path separator are lower-cased independently of each other.
    Python's [str.lower] maps every character by itself except the capital
    sigma, whose image depends on the cased letters around it, and a
    separator is neither cased nor ignored in that rule. *)
Record LowerLaws (f : string -> string) : Prop := mkLowerLaws {
  lower_keeps_nonempty : forall s, f s = "" -> s = "";
  lower_before_separator :
    forall a b, starts_with_separator b -> f (a +:+ b) = f a +:+ f b;
  lower_after_separator :
    forall a b, ends_with_separator a -> f (a +:+ b) = f a +:+ f b
}.

(** The three Linux alternatives, as propositions. *)
Definition linux_rule (process_name_lower exe_path : string) : Prop :=
  process_name_lower = "antigravity"
  \/ (exists before after, exe_path = before +:+ "/antigravity/" +:+ after)
  \/ (exists before, exe_path = before +:+ "/antigravity").

(** A process that is named like the application without being it. *)
Definition decoy : Proc :=
  {| pid := 31; name := Some "antigravity-helper";
     exe := Some "/usr/bin/antigravity-helper" |}.

Definition genuine : Proc :=
  {| pid := 32; name := Some "Antigravity"; exe := None |}.

End Locator.

(* ===================================================================== *)
(** ** Process terminator: [close_antigravity] *)
(* ===================================================================== *)

Module Closer.
Import Locator.

(** Exceptions that reach the handlers of [close_antigravity]. *)
Inductive Exn : Type :=
  | NoSuchProcess
  | AccessDenied
  | UnboundLocalError
  | OtherException.

(** A call either returns or raises. *)
Inductive Exc (A : Type) : Type :=
  | Ok (a : A)
  | Raise (e : Exn).
Arguments Ok {A} a.
Arguments Raise {A} e.

(** [except (psutil.NoSuchProcess, psutil.AccessDenied)] *)
Definition caught_by_process_handler (e : Exn) : bool :=
  match e with
  | NoSuchProcess | AccessDenied => true
  | _ => false
  end.

(** [subprocess.run(...)] of the platform-specific exit request: the return
    code, or an exception (caught on the spot and logged as a warning). *)
Inductive RunResult : Type :=
  | Run_returned (returncode : Z)
  | Run_raised.

(** The operating system as [close_antigravity] uses it, over a state [W]
    of the outside world.  [clock] is [time.time()], in time units. *)
Record OS (W : Type) : Type := mkOS {
  clock : W -> Q;
  sleep : Q -> W -> W;
  quit_request : Platform -> W -> RunResult * W;
  process_iter : W -> list Proc * W;
  is_running : Proc -> W -> Exc bool * W;
  terminate : Proc -> W -> Exc unit * W;
  kill : Proc -> W -> Exc unit * W
}.
Arguments clock {W} _ _.
Arguments sleep {W} _ _ _.
Arguments quit_request {W} _ _ _.
Arguments process_iter {W} _ _.
Arguments is_running {W} _ _ _.
Arguments terminate {W} _ _ _.
Arguments kill {W} _ _ _.

(** The [error(...)] messages of [close_antigravity]; the one that lists
    processes carries the [(name, pid)] pairs it prints. *)
Inductive ErrorMsg : Type :=
  | Cannot_terminate (final_list : list (option string * Z))
  | Close_manually
  | Close_exception (e : Exn).

(** What [close_antigravity] did to the outside world, in order, with what
    each call to the process library answered. *)
Inductive Event : Type :=
  | Ev_quit_request (system : Platform)
  | Ev_sleep (seconds : Q)
  | Ev_is_running (p : Proc) (result : Exc bool)
  | Ev_terminate (p : Proc) (result : Exc unit)
  | Ev_kill (p : Proc) (result : Exc unit)
  | Ev_error (msg : ErrorMsg).

Definition is_kill (e : Event) : bool :=
  match e with Ev_kill _ _ => true | _ => false end.

Definition is_signal (e : Event) : bool :=
  match e with Ev_terminate _ _ | Ev_kill _ _ => true | _ => false end.

(** [timeout=10], the default of [close_antigravity]. *)
Definition default_timeout : Q := 10.

(** How the [while] loop is left: by a [return] inside it, or by its
    condition turning false, with the variable [still_running] as the last
    iteration left it ([None]: never assigned). *)
Inductive LoopExit : Type :=
  | Returned (b : bool)
  | Fell_through (still_running : option (list Proc)).

Definition names_of (procs : list Proc) : list (option string * Z) :=
  map (fun p => (name p, pid p)) procs.

Section WithOS.

Context {W : Type}.
Variable os : OS W.
Variable system : Platform.
Variable caller : Caller.

(** The outside world and the journal of calls made so far. *)
Record St : Type := mkSt {
  world : W;
  journal : list Event
}.

Definition record (e : Event) (w : W) (st : St) : St :=
  {| world := w; journal := journal st ++ [e] |}.

Definition do_sleep (seconds : Q) (st : St) : St :=
  record (Ev_sleep seconds) (sleep os seconds (world st)) st.

Definition do_is_running (p : Proc) (st : St) : Exc bool * St :=
  let '(r, w) := is_running os p (world st) in (r, record (Ev_is_running p r) w st).

Definition do_terminate (p : Proc) (st : St) : Exc unit * St :=
  let '(r, w) := terminate os p (world st) in (r, record (Ev_terminate p r) w st).

Definition do_kill (p : Proc) (st : St) : Exc unit * St :=
  let '(r, w) := kill os p (world st) in (r, record (Ev_kill p r) w st).

(** Stage 1: the platform-specific exit request (AppleScript on macOS,
    [taskkill /IM] on Windows, nothing elsewhere), followed by
    [time.sleep(2)] when the return code is 0. *)
Definition graceful_request (st : St) : St :=
  match system with
  | Darwin | Windows =>
      let '(r, w) := quit_request os system (world st) in
      let st1 := record (Ev_quit_request system) w st in
      match r with
      | Run_returned 0 => do_sleep 2 st1
      | _ => st1
      end
  | _ => st
  end.

(** Stage 2: [proc.terminate()] for every target that is running; both
    handlers of that loop continue with the next process. *)
Fixpoint send_terminate (procs : list Proc) (st : St) : St :=
  match procs with
  | [] => st
  | p :: rest =>
      match do_is_running p st with
      | (Ok true, st1) => send_terminate rest (snd (do_terminate p st1))
      | (_, st1) => send_terminate rest st1
      end
  end.

(** One pass over a list of processes that collects those for which
    [is_running()] is true.  NoSuchProcess and AccessDenied skip the
    process; any other exception leaves the loop. *)
Fixpoint poll_running (procs : list Proc) (st : St) : Exc (list Proc) * St :=
  match procs with
  | [] => (Ok [], st)
  | p :: rest =>
      match do_is_running p st with
      | (Ok true, st1) =>
          match poll_running rest st1 with
          | (Ok alive, st2) => (Ok (p :: alive), st2)
          | (Raise e, st2) => (Raise e, st2)
          end
      | (Ok false, st1) => poll_running rest st1
      | (Raise e, st1) =>
          if caught_by_process_handler e then poll_running rest st1
          else (Raise e, st1)
      end
  end.

(** The [while time.time() - start_time < timeout] loop.  [still_running]
    is the variable as the previous iteration left it. *)
Fixpoint wait_loop (fuel : nat) (start_time timeout : Q) (target_processes : list Proc)
    (still_running : option (list Proc)) (st : St) : option (Exc LoopExit * St) :=
  match fuel with
  | O => None
  | S fuel' =>
      if Qlt_le_dec (clock os (world st) - start_time) timeout then
        match poll_running target_processes st with
        | (Raise e, st1) => Some (Raise e, st1)
        | (Ok [], st1) => Some (Ok (Returned true), st1)
        | (Ok alive, st1) =>
            wait_loop fuel' start_time timeout target_processes (Some alive)
              (do_sleep (1 # 2) st1)
        end
      else Some (Ok (Fell_through still_running), st)
  end.

(** The loop of stage 3: [proc.kill()] for every listed process that is
    running. *)
Fixpoint send_kill (procs : list Proc) (st : St) : Exc unit * St :=
  match procs with
  | [] => (Ok tt, st)
  | p :: rest =>
      match do_is_running p st with
      | (Ok true, st1) =>
          match do_kill p st1 with
          | (Ok _, st2) => send_kill rest st2
          | (Raise e, st2) =>
              if caught_by_process_handler e then send_kill rest st2
              else (Raise e, st2)
          end
      | (Ok false, st1) => send_kill rest st1
      | (Raise e, st1) =>
          if caught_by_process_handler e then send_kill rest st1
          else (Raise e, st1)
      end
  end.

(** Everything after the [while] loop: the read of [still_running], the
    forced kill, the final check. *)
Definition after_wait (force_kill : bool) (still_running : option (list Proc)) (st : St)
  : Exc bool * St :=
  match still_running with
  | None => (Raise UnboundLocalError, st)
  | Some [] => (Ok true, st)
  | Some alive =>
      if force_kill then
        match send_kill alive st with
        | (Raise e, st1) => (Raise e, st1)
        | (Ok _, st1) =>
            match poll_running alive (do_sleep 1 st1) with
            | (Raise e, st2) => (Raise e, st2)
            | (Ok [], st2) => (Ok true, st2)
            | (Ok final_check, st2) =>
                (Ok false,
                 record (Ev_error (Cannot_terminate (names_of final_check))) (world st2) st2)
            end
        end
      else (Ok false, record (Ev_error Close_manually) (world st) st)
  end.

(** Stage 1 and the scanning loop: [target_processes] and the state in
    which the scan leaves the world. *)
Definition scan (st : St) : list Proc * St :=
  let st1 := graceful_request st in
  let '(procs, w) := process_iter os (world st1) in
  (scan_targets system caller procs, {| world := w; journal := journal st1 |}).

(** The body of the outer [try]. *)
Definition close_body (fuel : nat) (timeout : Q) (force_kill : bool) (st : St)
  : option (Exc bool * St) :=
  let '(target_processes, st2) := scan st in
  match target_processes with
  | [] => Some (Ok true, st2)
  | _ :: _ =>
      let st3 := send_terminate target_processes st2 in
      let start_time := clock os (world st3) in
      match wait_loop fuel start_time timeout target_processes None st3 with
      | None => None
      | Some (Raise e, st4) => Some (Raise e, st4)
      | Some (Ok (Returned b), st4) => Some (Ok b, st4)
      | Some (Ok (Fell_through still_running), st4) =>
          Some (after_wait force_kill still_running st4)
      end
  end.

(** [close_antigravity(timeout, force_kill)]: the body, with the outer
    [except Exception] turning any exception into an error message and
    [False].  [fuel] bounds the iterations of the [while] loop. *)
Definition close_antigravity (fuel : nat) (timeout : Q) (force_kill : bool) (w : W)
  : option (bool * St) :=
  match close_body fuel timeout force_kill {| world := w; journal := [] |} with
  | None => None
  | Some (Ok b, st) => Some (b, st)
  | Some (Raise e, st) =>
      Some (false, record (Ev_error (Close_exception e)) (world st) st)
  end.

(** The termination set of a call: what the scan finds in the process
    table that [close_antigravity] reads. *)
Definition termination_set (w : W) : list Proc :=
  fst (scan {| world := w; journal := [] |}).

(** The state in which the [while] loop is entered. *)
Definition before_wait (w : W) : St :=
  let '(target_processes, st2) := scan {| world := w; journal := [] |} in
  send_terminate target_processes st2.

(** *** Vocabulary of the statements about [close_antigravity] *)

(** [st'] is [st] after more calls, all of which satisfy [P]. *)
Definition adds (P : Event -> Prop) (st st' : St) : Prop :=
  Journal.extends_with P (journal st) (journal st').

(** The clock never runs backwards during a call of the process library,
    and a sleep lasts at least as long as asked. *)
Record ClockLaws : Prop := mkClockLaws {
  is_running_clock : forall p w, (clock os w <= clock os (snd (is_running os p w)))%Q;
  kill_clock : forall p w, (clock os w <= clock os (snd (kill os p w)))%Q;
  sleep_clock : forall d w, (clock os w + d <= clock os (sleep os d w))%Q
}.

(** The process library raises nothing but NoSuchProcess and AccessDenied. *)
Definition raises_only_process_errors : Prop :=
  (forall p w e, fst (is_running os p w) = Raise e -> caught_by_process_handler e = true)
  /\ (forall p w e, fst (kill os p w) = Raise e -> caught_by_process_handler e = true).

(** From time [t] on, no process of the list is running. *)
Definition all_exited_by (t : Q) (procs : list Proc) : Prop :=
  forall p w, In p procs -> (t <= clock os w)%Q -> fst (is_running os p w) <> Ok true.

End WithOS.

(** Events of stage 1: the exit request and the sleep that follows it. *)
Definition stage1_event (e : Event) : Prop :=
  match e with Ev_quit_request _ | Ev_sleep _ => True | _ => False end.

(** Events of stage 2: liveness checks and termination signals. *)
Definition stage2_event (e : Event) : Prop :=
  match e with Ev_is_running _ _ | Ev_terminate _ _ => True | _ => False end.

Definition poll_event (e : Event) : Prop :=
  match e with Ev_is_running _ _ => True | _ => False end.

Definition poll_or_sleep (e : Event) : Prop :=
  match e with Ev_is_running _ _ | Ev_sleep _ => True | _ => False end.

Definition poll_or_kill (e : Event) : Prop :=
  match e with Ev_is_running _ _ | Ev_kill _ _ => True | _ => False end.

Definition not_kill (e : Event) : Prop := is_kill e = false.

Definition not_signal (e : Event) : Prop := is_signal e = false.

(** The processes that a stretch of the journal saw running, in order. *)
Definition polled_alive (evs : list Event) : list Proc :=
  flat_map (fun e => match e with Ev_is_running p (Ok true) => [p] | _ => [] end) evs.

(** The processes whose liveness a stretch of the journal checked, and
    those it sent the kill signal to, in order. *)
Definition polled (evs : list Event) : list Proc :=
  flat_map (fun e => match e with Ev_is_running p _ => [p] | _ => [] end) evs.

Definition killed (evs : list Event) : list Proc :=
  flat_map (fun e => match e with Ev_kill p _ => [p] | _ => [] end) evs.

Arguments world {W} _.
Arguments journal {W} _.

(** The result of a run and its journal, without the final world. *)
Definition verdict {W : Type} (r : option (bool * @St W)) : option (bool * list Event) :=
  match r with
  | Some (b, st) => Some (b, journal st)
  | None => None
  end.

End Closer.

(* ===================================================================== *)
(** ** A simulated operating system *)
(* ===================================================================== *)

(** A small concrete instance of [Closer.OS], used to run
    [close_antigravity] on explicit process tables.  Every process of the
    table either exits when it is sent the termination signal or ignores
    it, and likewise for the kill signal; a process may also exit on its
    own at a given time.  Only [sleep] moves the clock. *)
Module Sim.
Import Locator Closer.

Record World : Type := mkWorld {
  now : Q;
  gone : list Z
}.

Record Config : Type := mkConfig {
  table : list Proc;
  exits_on_terminate : Z -> bool;
  exits_on_kill : Z -> bool;
  exits_at : Z -> option Q
}.

Definition is_gone (cfg : Config) (w : World) (p : Proc) : bool :=
  existsb (Z.eqb (pid p)) (gone w)
  || match exits_at cfg (pid p) with
     | Some t => Qle_bool t (now w)
     | None => false
     end.

Definition remove (p : Proc) (w : World) : World :=
  {| now := now w; gone := pid p :: gone w |}.

Definition signal (cfg : Config) (obeyed : Z -> bool) (p : Proc) (w : World)
  : Exc unit * World :=
  if is_gone cfg w p then (Raise NoSuchProcess, w)
  else (Ok tt, if obeyed (pid p) then remove p w else w).

Definition os (cfg : Config) : OS World :=
  {| clock := now;
     sleep := fun d w => {| now := now w + d; gone := gone w |};
     quit_request := fun _ w => (Run_returned 1, w);
     process_iter := fun w => (List.filter (fun p => negb (is_gone cfg w p)) (table cfg), w);
     is_running := fun p w => (Ok (negb (is_gone cfg w p)), w);
     terminate := signal cfg (exits_on_terminate cfg);
     kill := signal cfg (exits_on_kill cfg) |}.

Definition boot : World := {| now := 0; gone := [] |}.

(** The manager itself, installed under /opt/manager. *)
Definition manager : Caller :=
  {| own_pid := 100; install_dir := Some "/opt/manager"; str_lower := PyStr.lower |}.

Definition app : Proc :=
  {| pid := 4242; name := Some "antigravity";
     exe := Some "/usr/share/antigravity/antigravity" |}.

Definition shell : Proc :=
  {| pid := 7; name := Some "bash"; exe := Some "/usr/bin/bash" |}.

(** The application ignores the termination signal and exits on kill. *)
Definition stubborn : Config :=
  {| table := [shell; app];
     exits_on_terminate := fun _ => false;
     exits_on_kill := fun _ => true;
     exits_at := fun _ => None |}.

(** The application exits as soon as it is sent the termination signal. *)
Definition obedient : Config :=
  {| table := [shell; app];
     exits_on_terminate := fun _ => true;
     exits_on_kill := fun _ => true;
     exits_at := fun _ => None |}.

(** The application survives both signals. *)
Definition unkillable : Config :=
  {| table := [shell; app];
     exits_on_terminate := fun _ => false;
     exits_on_kill := fun _ => false;
     exits_at := fun _ => None |}.

(** The application takes three quarters of a time unit to shut down. *)
Definition slow : Config :=
  {| table := [shell; app];
     exits_on_terminate := fun _ => false;
     exits_on_kill := fun _ => true;
     exits_at := fun _ => Some (3 # 4) |}.

(** No process of the application is running. *)
Definition idle : Config :=
  {| table := [shell];
     exits_on_terminate := fun _ => true;
     exits_on_kill := fun _ => true;
     exits_at := fun _ => None |}.

End Sim.

(* ===================================================================== *)
(** ** Process launcher: [start_antigravity] *)
(* ===================================================================== *)

Module Launcher.
Import Locator.

(** [open_uri(uri)] returns a boolean or raises. *)
Inductive UriResult : Type :=
  | Uri_returned (ok : bool)
  | Uri_raised.

(** [get_antigravity_executable_path()]: [None], a path together with the
    answer of [path.exists()], or an exception. *)
Inductive PathLookup : Type :=
  | Lookup_none
  | Lookup_path (path : string) (path_exists : bool)
  | Lookup_raised.

(** [subprocess.Popen(argv)] *)
Inductive PopenResult : Type :=
  | Spawned
  | File_not_found
  | Popen_raised.

Record OS (W : Type) : Type := mkOS {
  open_uri : string -> W -> UriResult * W;
  get_antigravity_executable_path : W -> PathLookup * W;
  popen : list string -> W -> PopenResult * W
}.
Arguments open_uri {W} _ _ _.
Arguments get_antigravity_executable_path {W} _ _.
Arguments popen {W} _ _ _.

(** The calls of one run, in order.  [Ev_enter use_uri] marks an entry into
    [start_antigravity], the first call as well as a recursive one. *)
Inductive Event : Type :=
  | Ev_enter (use_uri : bool)
  | Ev_open_uri (uri : string) (result : UriResult)
  | Ev_lookup (result : PathLookup)
  | Ev_popen (argv : list string) (result : PopenResult).

Definition entries (j : list Event) : list bool :=
  flat_map (fun e => match e with Ev_enter u => [u] | _ => [] end) j.

Definition is_open_uri (e : Event) : bool :=
  match e with Ev_open_uri _ _ => true | _ => false end.

(** Events other than an entry, and other than an entry or a call of
    [open_uri]. *)
Definition not_enter (e : Event) : Prop :=
  match e with Ev_enter _ => False | _ => True end.

Definition not_enter_nor_uri (e : Event) : Prop :=
  match e with Ev_enter _ | Ev_open_uri _ _ => False | _ => True end.

(** Outcome of the body of the [try]: a returned boolean, or an exception
    for the handler. *)
Inductive Attempt : Type :=
  | Return (b : bool)
  | Raised.

Section WithOS.

Context {W : Type}.
Variable os : OS W.
Variable system : Platform.

Record St : Type := mkSt {
  world : W;
  journal : list Event
}.

Definition record (e : Event) (w : W) (st : St) : St :=
  {| world := w; journal := journal st ++ [e] |}.

(** [st'] is [st] after more calls, all of which satisfy [P]. *)
Definition adds (P : Event -> Prop) (st st' : St) : Prop :=
  Journal.extends_with P (journal st) (journal st').

Definition do_open_uri (uri : string) (st : St) : UriResult * St :=
  let '(r, w) := open_uri os uri (world st) in (r, record (Ev_open_uri uri r) w st).

Definition do_lookup (st : St) : PathLookup * St :=
  let '(r, w) := get_antigravity_executable_path os (world st) in
  (r, record (Ev_lookup r) w st).

Definition do_popen (argv : list string) (st : St) : PopenResult * St :=
  let '(r, w) := popen os argv (world st) in (r, record (Ev_popen argv r) w st).

(** A [Popen] outside any inner [try]: every exception goes to the outer
    handler; otherwise the function reaches its final [return True]. *)
Definition launch (argv : list string) (st : St) : Attempt * St :=
  match do_popen argv st with
  | (Spawned, st1) => (Return true, st1)
  | (_, st1) => (Raised, st1)
  end.

(** The fallback: start through the executable path. *)
Definition executable_path_fallback (st : St) : Attempt * St :=
  match system with
  | Darwin => launch ["open"; "-a"; "Antigravity"] st
  | Windows =>
      match do_lookup st with
      | (Lookup_path path true, st1) => launch [path] st1
      | (Lookup_raised, st1) => (Raised, st1)
      | (_, st1) => (Return false, st1)
      end
  | Linux =>
      match do_lookup st with
      | (Lookup_path path true, st1) => launch [path] st1
      | (Lookup_raised, st1) => (Raised, st1)
      | (_, st1) =>
          match do_popen ["antigravity"] st1 with
          | (Spawned, st2) => (Return true, st2)
          | (File_not_found, st2) => (Return false, st2)
          | (Popen_raised, st2) => (Raised, st2)
          end
      end
  | OtherSystem _ => (Return true, st)
  end.

(** The body of the [try] of [start_antigravity]. *)
Definition start_body (use_uri : bool) (st : St) : Attempt * St :=
  if use_uri then
    match do_open_uri "antigravity://oauth-success" st with
    | (Uri_returned true, st1) => (Return true, st1)
    | (Uri_returned false, st1) => executable_path_fallback st1
    | (Uri_raised, st1) => (Raised, st1)
    end
  else executable_path_fallback st.

(** [start_antigravity(use_uri)], with [depth] bounding the nesting of the
    recursive calls. *)
Fixpoint start_rec (depth : nat) (use_uri : bool) (st : St) : option (bool * St) :=
  match depth with
  | O => None
  | S depth' =>
      match start_body use_uri (record (Ev_enter use_uri) (world st) st) with
      | (Return b, st1) => Some (b, st1)
      | (Raised, st1) =>
          if use_uri then start_rec depth' false st1 else Some (false, st1)
      end
  end.

Definition start_antigravity (depth : nat) (use_uri : bool) (w : W) : option (bool * St) :=
  start_rec depth use_uri {| world := w; journal := [] |}.

End WithOS.

Arguments world {W} _.
Arguments journal {W} _.

(** A scripted instance: every call answers the same way each time. *)
Definition scripted (uri : UriResult) (lookup : PathLookup) (spawn : PopenResult)
  : OS unit :=
  {| open_uri := fun _ w => (uri, w);
     get_antigravity_executable_path := fun w => (lookup, w);
     popen := fun _ w => (spawn, w) |}.

End Launcher.

(* ===================================================================== *)
(** ** Account backup and restore: [db_manager.py] *)
(* ===================================================================== *)

Module Db.
Import PyStr.

(** [KEYS_TO_BACKUP] *)
Definition KEYS_TO_BACKUP : list string :=
  ["antigravityAuthStatus"; "jetskiStateSync.agentManagerInitState"].

(** A value as [json.load] returns it.  An object is the list of its
    members in insertion order, as in a Python [dict]; a member that occurs
    again later in the list is shadowed by the first one. *)
#[warnings="-register-all"]
Inductive Json : Type :=
  | J_null
  | J_bool (b : bool)
  | J_number (n : Q)
  | J_string (s : string)
  | J_array (items : list Json)
  | J_object (members : list (string * Json)).

(** [d[key]] on the members of a [dict] *)
Fixpoint dict_get (key : string) (members : list (string * Json)) : option Json :=
  match members with
  | [] => None
  | (k, v) :: rest => if String.eqb k key then Some v else dict_get key rest
  end.

(** [d[key] = value]: replace in place when the key is there, append
    otherwise. *)
Fixpoint dict_set (key : string) (value : Json) (members : list (string * Json))
  : list (string * Json) :=
  match members with
  | [] => [(key, value)]
  | (k, v) :: rest =>
      if String.eqb k key then (k, value) :: rest
      else (k, v) :: dict_set key value rest
  end.

Definition dict_keys (members : list (string * Json)) : list string :=
  map fst members.

Definition is_string (v : Json) (s : string) : bool :=
  match v with J_string s' => String.eqb s' s | _ => false end.

(** [key in backup_data]: key membership on a dict, element membership on
    a list, substring on a string, [TypeError] ([None]) on anything else. *)
Definition py_in (key : string) (backup_data : Json) : option bool :=
  match backup_data with
  | J_object members => Some (bool_decide (is_Some (dict_get key members)))
  | J_array items => Some (existsb (fun v => is_string v key) items)
  | J_string s => Some (contains key s)
  | _ => None
  end.

(** [backup_data[key]] for a string key: the member of a dict, [KeyError]
    or [TypeError] ([None]) otherwise. *)
Definition py_getitem (backup_data : Json) (key : string) : option Json :=
  match backup_data with
  | J_object members => dict_get key members
  | _ => None
  end.

(** One SQLite database file.  [opens]: [sqlite3.connect] succeeds;
    [item_table]: the rows of [ItemTable], [None] when a statement on that
    table raises; [locked]: an [INSERT] raises. *)
Record DbFile : Type := mkDbFile {
  opens : bool;
  item_table : option (gmap string string);
  locked : bool
}.

(** What [open] and [json.load] find at a path. *)
Inductive Document : Type :=
  | Doc_unparseable
  | Doc_json (content : Json).

(** What a path holds.  The code has one file system: the same path can be
    given to [sqlite3.connect] and to [open]. *)
Inductive File : Type :=
  | F_database (db : DbFile)
  | F_document (doc : Document).

(** The files on disk, by path.  A path that is not bound does not
    exist. *)
Record Disk : Type := mkDisk {
  files : gmap string File
}.

(** What [sqlite3] finds in a file.  [sqlite3.connect] on a file that is not
    a database succeeds, and every statement on it raises. *)
Definition as_database (f : File) : DbFile :=
  match f with
  | F_database db => db
  | F_document _ => {| opens := true; item_table := None; locked := false |}
  end.

(** What [open] and [json.load] find in a file: a database does not
    parse. *)
Definition as_document (f : File) : Document :=
  match f with
  | F_database _ => Doc_unparseable
  | F_document doc => doc
  end.

(** The disk as [sqlite3] sees it, and as [json.load] sees it. *)
Definition databases (disk : Disk) : gmap string DbFile :=
  as_database <$> files disk.

Definition documents (disk : Disk) : gmap string Document :=
  as_document <$> files disk.

(** [open(path, 'w')] followed by a complete write. *)
Definition write_file (path : string) (f : File) (disk : Disk) : Disk :=
  {| files := <[path := f]> (files disk) |}.

(** [conn.commit()]: the rows of the transaction reach the file.  On a file
    that is not a database no statement can have been executed, and the
    commit leaves it as it is. *)
Definition commit (rows : option (gmap string string)) (f : File) : File :=
  match f with
  | F_database db =>
      F_database {| opens := opens db; item_table := rows; locked := locked db |}
  | F_document doc => F_document doc
  end.

(** What the module takes from its environment: the paths returned by
    [get_antigravity_db_paths()], [Path.with_suffix], [json.dumps],
    [datetime.now().isoformat()], and what becomes of
    [with open(path, 'w') as f: json.dump(data_map, f)]: [writable] when
    both succeed, [creatable] when [open] succeeds, so that a path that is
    creatable and not writable is left with the beginning of the text. *)
Record Env : Type := mkEnv {
  db_paths : list string;
  with_suffix : string -> string -> string;
  dumps : Json -> string;
  timestamp : string;
  writable : string -> bool;
  creatable : string -> bool
}.

Section WithEnv.

Variable env : Env.

(** [get_db_connection(db_path)] on an existing file: the database, or
    [None] when connecting fails. *)
Definition get_db_connection (db : DbFile) : option DbFile :=
  if opens db then Some db else None.

(** [SELECT value FROM ItemTable WHERE key = ?] and [fetchone()]: the outer
    [None] is [sqlite3.Error]. *)
Definition select_value (db : DbFile) (key : string) : option (option string) :=
  match item_table db with
  | Some rows => Some (rows !! key)
  | None => None
  end.

(** The loop over [KEYS_TO_BACKUP] of [backup_account]; [None] when a query
    raises. *)
Fixpoint collect_keys (keys : list string) (db : DbFile)
    (data_map : list (string * Json)) : option (list (string * Json)) :=
  match keys with
  | [] => Some data_map
  | key :: rest =>
      match select_value db key with
      | None => None
      | Some (Some value) => collect_keys rest db (dict_set key (J_string value) data_map)
      | Some None => collect_keys rest db data_map
      end
  end.

(** [backup_account(email, backup_file_path)] *)
Definition backup_account (email backup_file_path : string) (disk : Disk) : bool * Disk :=
  match db_paths env with
  | [] => (false, disk)
  | db_path :: _ =>
      match databases disk !! db_path with
      | None => (false, disk)
      | Some file =>
          match get_db_connection file with
          | None => (false, disk)
          | Some conn =>
              match collect_keys KEYS_TO_BACKUP conn [] with
              | None => (false, disk)
              | Some data_map =>
                  let data_map := dict_set "account_email" (J_string email) data_map in
                  let data_map := dict_set "backup_time" (J_string (timestamp env)) data_map in
                  if writable env backup_file_path then
                    (true,
                     write_file backup_file_path
                       (F_document (Doc_json (J_object data_map))) disk)
                  else if creatable env backup_file_path then
                    (false,
                     write_file backup_file_path (F_document Doc_unparseable) disk)
                  else (false, disk)
              end
          end
      end
  end.

(** [INSERT OR REPLACE INTO ItemTable (key, value) VALUES (?, ?)] inside
    the open transaction: the new rows, or [None] for [sqlite3.Error]. *)
Definition insert_or_replace (db : DbFile) (key value : string)
    (rows : option (gmap string string)) : option (option (gmap string string)) :=
  match rows with
  | Some r => if locked db then None else Some (Some (<[key := value]> r))
  | None => None
  end.

(** [value if isinstance(value, str) else json.dumps(value)] *)
Definition value_text (value : Json) : string :=
  match value with
  | J_string s => s
  | other => dumps env other
  end.

(** The loop over [KEYS_TO_BACKUP] of [_restore_single_db]: the rows of the
    transaction and [restored_keys], or [None] when an exception leaves the
    loop. *)
Fixpoint restore_keys (keys : list string) (backup_data : Json) (db : DbFile)
    (rows : option (gmap string string)) (restored_keys : list string)
  : option (option (gmap string string) * list string) :=
  match keys with
  | [] => Some (rows, restored_keys)
  | key :: rest =>
      match py_in key backup_data with
      | None => None
      | Some false => restore_keys rest backup_data db rows restored_keys
      | Some true =>
          match py_getitem backup_data key with
          | None => None
          | Some value =>
              let value := value_text value in
              match insert_or_replace db key value rows with
              | None => None
              | Some rows' =>
                  restore_keys rest backup_data db rows' (restored_keys ++ [key])
              end
          end
      end
  end.

(** [_restore_single_db(db_path, backup_data)].  The rows reach the file at
    [conn.commit()]; when an exception leaves the loop the connection is
    closed without a commit and the file keeps its rows. *)
Definition _restore_single_db (db_path : string) (backup_data : Json) (disk : Disk)
  : bool * Disk :=
  match files disk !! db_path with
  | None => (false, disk)
  | Some f =>
      match get_db_connection (as_database f) with
      | None => (false, disk)
      | Some conn =>
          match restore_keys KEYS_TO_BACKUP backup_data conn (item_table conn) [] with
          | None => (false, disk)
          | Some (rows, _) => (true, write_file db_path (commit rows f) disk)
          end
      end
  end.

(** One call of [_restore_single_db], as the loop of [restore_account]
    makes it: the path it was given and what it returned. *)
Definition Attempt : Type := (string * bool)%type.

(** The loop of [restore_account] over [db_paths]. *)
Fixpoint restore_loop (paths : list string) (backup_data : Json) (disk : Disk)
    (success_count : nat) (attempts : list Attempt) : nat * list Attempt * Disk :=
  match paths with
  | [] => (success_count, attempts, disk)
  | db_path :: rest =>
      let '(ok, disk1) := _restore_single_db db_path backup_data disk in
      let success_count := if ok then S success_count else success_count in
      let attempts := attempts ++ [(db_path, ok)] in
      let backup_db_path := with_suffix env db_path ".vscdb.backup" in
      match databases disk1 !! backup_db_path with
      | Some _ =>
          let '(ok', disk2) := _restore_single_db backup_db_path backup_data disk1 in
          let success_count := if ok' then S success_count else success_count in
          restore_loop rest backup_data disk2 success_count
            (attempts ++ [(backup_db_path, ok')])
      | None => restore_loop rest backup_data disk1 success_count attempts
      end
  end.

(** [restore_account(backup_file_path)], together with the calls of
    [_restore_single_db] it made. *)
Definition restore_account (backup_file_path : string) (disk : Disk)
  : bool * list Attempt * Disk :=
  match documents disk !! backup_file_path with
  | None => (false, [], disk)
  | Some Doc_unparseable => (false, [], disk)
  | Some (Doc_json backup_data) =>
      match db_paths env with
      | [] => (false, [], disk)
      | paths =>
          let '(success_count, attempts, disk') :=
            restore_loop paths backup_data disk 0 [] in
          (0 <? success_count, attempts, disk')
      end
  end.

(** *** Vocabulary of the statements about restore *)

(** Two disks have the same shape when they hold the same database files
    up to the rows of their tables. *)
Definition same_file (a b : DbFile) : Prop :=
  opens a = opens b /\ locked a = locked b
  /\ (is_Some (item_table a) <-> is_Some (item_table b)).

Definition same_shape (d1 d2 : Disk) : Prop :=
  forall p,
    match databases d1 !! p, databases d2 !! p with
    | None, None => True
    | Some a, Some b => same_file a b
    | _, _ => False
    end.

(** The candidates among a list of primary paths: every primary path, each
    followed by its backup-suffixed sibling when that file exists. *)
Definition candidates_of (disk : Disk) (paths : list string) : list string :=
  flat_map
    (fun db_path =>
       let backup_db_path := with_suffix env db_path ".vscdb.backup" in
       db_path ::
       (if bool_decide (is_Some (databases disk !! backup_db_path))
        then [backup_db_path] else []))
    paths.

(** The candidate databases of a restore. *)
Definition candidates (disk : Disk) : list string :=
  candidates_of disk (db_paths env).

(** The value of a key in a database file, if there is one. *)
Definition rows_of (file : DbFile) (k : string) : option string :=
  match item_table file with
  | Some rows => rows !! k
  | None => None
  end.

(** A database file accepts a document when the connection opens and the
    loop over [KEYS_TO_BACKUP] can run to its end on it: for no canonical
    key does [key in backup_data] or [backup_data[key]] raise, and when the
    document holds a canonical key the file has its table and takes an
    [INSERT]. *)
Definition accepts (doc : Json) (file : DbFile) : Prop :=
  opens file = true
  /\ forall k, k ∈ KEYS_TO_BACKUP ->
       py_in k doc = Some false
       \/ (py_in k doc = Some true /\ is_Some (py_getitem doc k)
           /\ is_Some (item_table file) /\ locked file = false).

(** The file [after] is the file [before] with the canonical keys of the
    document written into it. *)
Definition holds_document (doc : Json) (before after : DbFile) : Prop :=
  opens after = opens before /\ locked after = locked before
  /\ (is_Some (item_table after) <-> is_Some (item_table before))
  /\ forall k,
       rows_of after k =
         if bool_decide (k ∈ KEYS_TO_BACKUP /\ py_in k doc = Some true)
         then value_text <$> py_getitem doc k
         else rows_of before k.

(** The database at a path was successfully updated from a document
    between two disks. *)
Definition updated (doc : Json) (disk disk' : Disk) (p : string) : Prop :=
  exists before after,
    databases disk !! p = Some before /\ databases disk' !! p = Some after
    /\ accepts doc before /\ holds_document doc before after.

(** What a restore of one path returns on a given disk. *)
Definition outcome_on (disk : Disk) (doc : Json) (p : string) : Attempt :=
  (p, fst (_restore_single_db p doc disk)).

Definition successes (attempts : list Attempt) : nat :=
  List.length (List.filter snd attempts).

(** The document that [backup_account] writes for given rows. *)
Definition metadata_keys : list string := ["account_email"; "backup_time"].

Definition present_keys (rows : gmap string string) : list string :=
  List.filter (fun key => bool_decide (is_Some (rows !! key))) KEYS_TO_BACKUP.

End WithEnv.

End Db.

(** Example disks for [Db]. *)
Module DbSim.
Import Db.

Definition state_db : string :=
  "/home/user/.config/Antigravity/User/globalStorage/state.vscdb".

(** On a path that ends in [.vscdb], [with_suffix('.vscdb.backup')] appends
    [.backup]; the documents below hold strings only, so that [dumps] is
    not called. *)
Definition env : Env :=
  {| db_paths := [state_db];
     with_suffix := fun p _ => p +:+ ".backup";
     dumps := fun _ => "null";
     timestamp := "2025-01-01T00:00:00";
     writable := fun _ => true;
     creatable := fun _ => true |}.

(** A database in which one of the two canonical keys is present. *)
Definition logged_in : DbFile :=
  {| opens := true;
     item_table :=
       Some (<["antigravityAuthStatus" := "token-123"]>
               (<["workbench.theme" := "dark"]> ∅));
     locked := false |}.

(** A document without any canonical key. *)
Definition foreign_doc : Json :=
  J_object [("account_email", J_string "a@b.com");
            ("backup_time", J_string "2024-12-31T23:59:59")].

Definition disk : Disk :=
  {| files := <[state_db := F_database logged_in]>
                (<["/tmp/foreign.json" := F_document (Doc_json foreign_doc)]> ∅) |}.

(** A document as [backup_account] writes it. *)
Definition own_doc : Json :=
  J_object [("antigravityAuthStatus", J_string "token-456");
            ("account_email", J_string "c@d.com");
            ("backup_time", J_string "2025-02-02T10:00:00")].

(** A database file that cannot be opened. *)
Definition broken : DbFile :=
  {| opens := false; item_table := None; locked := false |}.

(** The primary database is broken, its backup sibling is in order. *)
Definition half_broken_disk : Disk :=
  {| files := <[state_db := F_database broken]>
                (<[state_db +:+ ".backup" := F_database logged_in]>
                   (<["/tmp/own.json" := F_document (Doc_json own_doc)]> ∅)) |}.

End DbSim.

(* ===================================================================== *)
(** ** src/gui/db_manager.py: [get_current_account_info] *)
(* ===================================================================== *)

Module AccountInfo.
Import PyStr Db.

(** [isinstance(v, str)] *)
Definition is_str (v : Json) : bool :=
  match v with J_string _ => true | _ => false end.

(** [data.items()]: a [dict] holds one value per key, so a member that an
    earlier member of the same key shadows for [dict_get] is not
    visited. *)
Fixpoint dict_items (members : list (string * Json)) : list (string * Json) :=
  match members with
  | [] => []
  | (k, v) :: rest =>
      (k, v) :: filter (fun kv => negb (String.eqb (fst kv) k)) (dict_items rest)
  end.

(** The loop
    [for k, v in data.items():
         if k.lower() == "email" and isinstance(v, str): return {"email": v}].
    The only characters that [str.lower] maps to a letter of ["email"] are
    the ASCII capitals, so [lower] decides the comparison as Python does. *)
Fixpoint find_email (items : list (string * Json)) : option Json :=
  match items with
  | [] => None
  | (k, v) :: rest =>
      if String.eqb (lower k) "email" && is_str v then Some v else find_email rest
  end.

Section WithEnv.

Variable env : Env.

(** [json.loads]: [None] when it raises. *)
Variable loads : string -> option Json.

(** The [try] block on the row of [antigravityAuthStatus]; [None] when it
    falls through to the next query.  The value returned stands for the
    dict [{"email": value}]. *)
Definition auth_status_email (raw : string) : option Json :=
  match loads raw with
  | Some (J_object members) =>
      match dict_get "email" members with
      | Some value => Some value
      | None => find_email (dict_items members)
      end
  | _ => None
  end.

(** The [try] block on the rows of [google.antigravity] and of
    [antigravityUserSettings.allUserSettings]. *)
Definition settings_email (raw : string) : option Json :=
  match loads raw with
  | Some (J_object members) => dict_get "email" members
  | _ => None
  end.

(** [if row: ...] after [fetchone()]: a row is a non-empty tuple, so it is
    truthy whatever its value. *)
Definition on_row (row : option string) (block : string -> option Json) : option Json :=
  match row with
  | Some raw => block raw
  | None => None
  end.

(** [get_current_account_info()]: [Some value] for the dict
    [{"email": value}], [None] for [None].  A query that raises is caught
    by the outer handler, which returns [None]. *)
Definition get_current_account_info (disk : Disk) : option Json :=
  match db_paths env with
  | [] => None
  | db_path :: _ =>
      match databases disk !! db_path with
      | None => None
      | Some file =>
          match get_db_connection file with
          | None => None
          | Some conn =>
              match select_value conn "antigravityAuthStatus" with
              | None => None
              | Some row =>
                  match on_row row auth_status_email with
                  | Some email => Some email
                  | None =>
                      match select_value conn "google.antigravity" with
                      | None => None
                      | Some row =>
                          match on_row row settings_email with
                          | Some email => Some email
                          | None =>
                              match select_value conn
                                      "antigravityUserSettings.allUserSettings" with
                              | None => None
                              | Some row => on_row row settings_email
                              end
                          end
                      end
                  end
              end
          end
      end
  end.

(** *** Vocabulary of the statements about the account information *)

(** The keys that [get_current_account_info] queries, in its order. *)
Definition account_keys : list string :=
  ["antigravityAuthStatus"; "google.antigravity";
   "antigravityUserSettings.allUserSettings"].

(** The rows of the first database, when it exists, opens and has its
    table. *)
Definition first_rows (disk : Disk) : option (gmap string string) :=
  match db_paths env with
  | [] => None
  | db_path :: _ =>
      file ← databases disk !! db_path;
      if opens file then item_table file else None
  end.

(** The row of a key parses to an object with these members. *)
Definition parses_to (rows : gmap string string) (key : string)
    (members : list (string * Json)) : Prop :=
  exists raw, rows !! key = Some raw /\ loads raw = Some (J_object members).

(** The members hold a string under a key that is ["email"] up to case. *)
Definition has_email_like (members : list (string * Json)) (value : Json) : Prop :=
  exists k s, lower k = "email" /\ value = J_string s /\ dict_get k members = Some value.

(** What one key contributes: the member ["email"] of its object, and for
    [antigravityAuthStatus] without such a member the first string under a
    key that is ["email"] up to case. *)
Definition email_from (rows : gmap string string) (key : string) (value : Json) : Prop :=
  exists members,
    parses_to rows key members
    /\ (dict_get "email" members = Some value
        \/ (key = "antigravityAuthStatus" /\ dict_get "email" members = None
            /\ has_email_like members value)).

End WithEnv.

(** The text of a JSON string. *)
Definition quoted (s : string) : string :=
  String (Ascii.ascii_of_nat 34) s +:+ String (Ascii.ascii_of_nat 34) EmptyString.

Definition capital_text : string :=
  Eval vm_compute in
    "{" +:+ quoted "Email" +:+ ": " +:+ quoted "c@d.com" +:+ ", "
        +:+ quoted "token" +:+ ": 7}".

Definition null_text : string :=
  Eval vm_compute in "{" +:+ quoted "email" +:+ ": null}".

Definition plain_text : string :=
  Eval vm_compute in "{" +:+ quoted "email" +:+ ": " +:+ quoted "e@f.com" +:+ "}".

(** A [json.loads] for the scenarios: it knows three texts. *)
Definition sample_loads (raw : string) : option Json :=
  if String.eqb raw capital_text
  then Some (J_object [("Email", J_string "c@d.com"); ("token", J_number 7)])
  else if String.eqb raw null_text
  then Some (J_object [("email", J_null)])
  else if String.eqb raw plain_text
  then Some (J_object [("email", J_string "e@f.com")])
  else None.

(** A database whose [antigravityAuthStatus] spells its key [Email]. *)
Definition capital_db : DbFile :=
  {| opens := true;
     item_table :=
       Some (<["antigravityAuthStatus" := capital_text]>
               (<["google.antigravity" := null_text]> ∅));
     locked := false |}.

Definition capital_disk : Disk :=
  {| files := <[DbSim.state_db := F_database capital_db]> ∅ |}.

(** A database without a row for [antigravityAuthStatus]. *)
Definition settings_db : DbFile :=
  {| opens := true;
     item_table := Some (<["google.antigravity" := null_text]> ∅);
     locked := false |}.

Definition settings_disk : Disk :=
  {| files :=
       <[DbSim.state_db := F_database settings_db]>
         (<["/tmp/plain.json" :=
             F_document
               (Doc_json (J_object [("antigravityAuthStatus", J_string plain_text)]))]>
            ∅) |}.

End AccountInfo.

(* ===================================================================== *)
(** ** Further vocabulary for the statements of Part II *)
(* ===================================================================== *)

Module CloserVocab.
Import Locator Closer.

(** A signal, if the event is one, goes to a process of the list. *)
Definition signals_within (procs : list Proc) (e : Event) : Prop :=
  match e with
  | Ev_terminate p _ | Ev_kill p _ => In p procs
  | _ => True
  end.

(** The processes that a stretch of the journal sent the termination
    signal to, in order. *)
Definition terminated (evs : list Event) : list Proc :=
  flat_map (fun e => match e with Ev_terminate p _ => [p] | _ => [] end) evs.

(** The time that a stretch of the journal asked [time.sleep] for. *)
Fixpoint slept (evs : list Event) : Q :=
  match evs with
  | [] => 0
  | Ev_sleep d :: rest => d + slept rest
  | _ :: rest => slept rest
  end.

(** The fuel that is enough for a timeout: one evaluation of the loop
    condition per half time unit, and one more. *)
Definition enough_fuel (timeout : Q) : nat :=
  S (Z.to_nat (Qceiling (timeout * 2))).

(** Between [st] and [st'] the run asked [time.sleep] for at most [q]. *)
Definition sleeps_at_most {W : Type} (q : Q) (st st' : @St W) : Prop :=
  exists evs,
    journal st' = journal st ++ evs /\ (0 <= slept evs)%Q /\ (slept evs <= q)%Q.

Definition not_error (e : Event) : Prop :=
  match e with Ev_error _ => False | _ => True end.

Definition not_sleep (e : Event) : Prop :=
  match e with Ev_sleep _ => False | _ => True end.

End CloserVocab.

Module LauncherVocab.
Import Locator Launcher.

(** A call that dispatched a launch: [open_uri] returned true, or [Popen]
    started a process. *)
Definition is_dispatch (e : Event) : bool :=
  match e with
  | Ev_open_uri _ (Uri_returned true) => true
  | Ev_popen _ Spawned => true
  | _ => false
  end.

(** The platforms that [start_antigravity] has a branch for. *)
Definition is_known (system : Platform) : bool :=
  match system with
  | OtherSystem _ => false
  | _ => true
  end.

Definition attempt_ok (a : Attempt) : bool :=
  match a with
  | Return true => true
  | _ => false
  end.

(** The number of calls of [open_uri] in a journal. *)
Definition uri_calls (j : list Event) : nat :=
  List.length (List.filter is_open_uri j).

(** [st'] is [st] with at least one more call, and its last call tells
    whether the attempt [a] returned true. *)
Definition ends_on {W : Type} (a : Attempt) (st st' : @St W) : Prop :=
  exists evs e,
    journal st' = journal st ++ evs ++ [e] /\ is_dispatch e = attempt_ok a.

Definition not_launch (e : Event) : Prop :=
  match e with Ev_lookup _ | Ev_popen _ _ => False | _ => True end.

End LauncherVocab.

Module DbVocab.
Import Db.

Section WithEnv.

Variable env : Env.

(** A database file after [_restore_single_db] has committed the canonical
    keys of a document to it; the file itself when the loop raises. *)
Definition restored_file (doc : Json) (file : DbFile) : DbFile :=
  match restore_keys env KEYS_TO_BACKUP doc file (item_table file) [] with
  | Some (rows, _) =>
      {| opens := opens file; item_table := rows; locked := locked file |}
  | None => file
  end.

(** Whether [_restore_single_db] succeeds on a file. *)
Definition restorable (doc : Json) (file : DbFile) : bool :=
  opens file
  && match restore_keys env KEYS_TO_BACKUP doc file (item_table file) [] with
     | Some _ => true
     | None => false
     end.

(** What a restore over the paths [done] makes of the file at path [q]. *)
Definition restored_at (doc : Json) (done : list string) (q : string) (file : DbFile)
  : DbFile :=
  if bool_decide (q ∈ done) && restorable doc file then restored_file doc file
  else file.

(** The disk during the loop of [restore_account]: the files of the paths
    done so far are restored, the others are as they were. *)
Definition restore_inv (doc : Json) (disk0 : Disk) (done : list string) (disk : Disk)
  : Prop :=
  documents disk = documents disk0
  /\ forall q, databases disk !! q = restored_at doc done q <$> databases disk0 !! q.

(** The same on the files themselves. *)
Definition restored (doc : Json) (f : File) : File :=
  match restore_keys env KEYS_TO_BACKUP doc (as_database f)
          (item_table (as_database f)) [] with
  | Some (rows, _) => commit rows f
  | None => f
  end.

Definition restored_file_at (doc : Json) (done : list string) (q : string) (f : File)
  : File :=
  if bool_decide (q ∈ done) && restorable doc (as_database f) then restored doc f
  else f.

Definition restore_inv_files (doc : Json) (disk0 : Disk) (done : list string)
    (disk : Disk) : Prop :=
  forall q, files disk !! q = restored_file_at doc done q <$> files disk0 !! q.

(** The paths that [restore_account] may open as databases. *)
Definition candidate_paths : list string :=
  flat_map (fun db_path => [db_path; with_suffix env db_path ".vscdb.backup"])
    (db_paths env).

(** The value of a key in the database at a path, if there is one. *)
Definition row_at (disk : Disk) (q key : string) : option string :=
  match databases disk !! q with
  | Some file =>
      match item_table file with
      | Some rows => rows !! key
      | None => None
      end
  | None => None
  end.

(** The members of the document that [backup_account] writes for the rows
    of a database. *)
Definition backup_members (rows : gmap string string) (email : string)
  : list (string * Json) :=
  flat_map
    (fun key => match rows !! key with
                | Some value => [(key, J_string value)]
                | None => []
                end)
    KEYS_TO_BACKUP
  ++ [("account_email", J_string email); ("backup_time", J_string (timestamp env))].

End WithEnv.

End DbVocab.

(** Final states of runs on the simulated operating system. *)
Module SimRuns.
Import Locator Closer.

Definition final_state (r : option (bool * @St Sim.World)) : @St Sim.World :=
  match r with
  | Some (_, st) => st
  | None => {| world := Sim.boot; journal := [] |}
  end.

(** The application ignores the termination signal; timeout 1, kill on. *)
Definition stubborn_final : @St Sim.World :=
  Eval vm_compute in
    final_state (close_antigravity (Sim.os Sim.stubborn) Linux Sim.manager 3 1 true Sim.boot).

(** The same with the kill switched off. *)
Definition stubborn_unforced_final : @St Sim.World :=
  Eval vm_compute in
    final_state (close_antigravity (Sim.os Sim.stubborn) Linux Sim.manager 3 1 false Sim.boot).

(** The application exits on the termination signal; default timeout. *)
Definition obedient_final : @St Sim.World :=
  Eval vm_compute in
    final_state (close_antigravity (Sim.os Sim.obedient) Linux Sim.manager 21
                   default_timeout true Sim.boot).

End SimRuns.
(* ===================================================================== *)
(** * Part II: lemmas and theorems *)
(* ===================================================================== *)

(** ** Facts about the string operations *)

Module PyStrFacts.
Import PyStr.

Lemma cons_app (c : ascii) (s t : string) : String c s +:+ t = String c (s +:+ t).
Proof. reflexivity. Qed.

Lemma nil_app (t : string) : "" +:+ t = t.
Proof. reflexivity. Qed.

Lemma app_nil (s : string) : s +:+ "" = s.
Proof. induction s as [|c s IH]; [reflexivity|]. rewrite cons_app, IH. reflexivity. Qed.

Lemma app_assoc (a b c : string) : (a +:+ b) +:+ c = a +:+ (b +:+ c).
Proof.
  induction a as [|x a IH]; [reflexivity|].
  rewrite !cons_app, IH. reflexivity.
Qed.

Lemma length_app (a b : string) :
  String.length (a +:+ b) = String.length a + String.length b.
Proof.
  induction a as [|x a IH]; [reflexivity|].
  rewrite cons_app. simpl. rewrite IH. reflexivity.
Qed.

Lemma lower_app (a b : string) : lower (a +:+ b) = lower a +:+ lower b.
Proof.
  induction a as [|x a IH]; [reflexivity|].
  rewrite cons_app. simpl. rewrite IH, cons_app. reflexivity.
Qed.

Lemma startswith_spec (s p : string) :
  startswith s p = true <-> exists rest, s = p +:+ rest.
Proof.
  revert s. induction p as [|a p IH]; intros s.
  - destruct s; simpl; (split; [intros _; eexists; reflexivity | reflexivity]).
  - destruct s as [|b s]; simpl.
    + split; [discriminate|]. intros [rest H]. rewrite cons_app in H. discriminate.
    + destruct (Ascii.eqb_spec a b) as [->|Hne].
      * rewrite IH. split; intros [rest H]; exists rest.
        -- rewrite cons_app. congruence.
        -- rewrite cons_app in H. congruence.
      * split; [discriminate|]. intros [rest H].
        rewrite cons_app in H. congruence.
Qed.

Lemma contains_spec (needle hay : string) :
  contains needle hay = true <->
  exists before after, hay = before +:+ needle +:+ after.
Proof.
  induction hay as [|c hay IH].
  - cbn [contains]. rewrite orb_false_r, startswith_spec. split.
    + intros [rest H]. exists "", rest. rewrite nil_app. exact H.
    + intros [before [after H]]. destruct before as [|x before].
      * exists after. rewrite nil_app in H. exact H.
      * rewrite cons_app in H. discriminate.
  - cbn [contains]. rewrite orb_true_iff, startswith_spec, IH. split.
    + intros [[rest H]|[before [after H]]].
      * exists "", rest. rewrite nil_app. exact H.
      * exists (String c before), after. rewrite cons_app. congruence.
    + intros [before [after H]]. destruct before as [|x before].
      * left. exists after. rewrite nil_app in H. exact H.
      * right. rewrite cons_app in H. exists before, after. congruence.
Qed.

Lemma endswith_spec (s suffix : string) :
  endswith s suffix = true <-> exists before, s = before +:+ suffix.
Proof.
  induction s as [|c s IH].
  - cbn [endswith]. rewrite orb_false_r. split.
    + intros H. destruct suffix; [|discriminate]. exists "". reflexivity.
    + intros [before H]. destruct before as [|x before].
      * rewrite nil_app in H. subst suffix. reflexivity.
      * rewrite cons_app in H. discriminate.
  - cbn [endswith]. rewrite orb_true_iff, IH. split.
    + intros [H|[before H]].
      * apply String.eqb_eq in H. exists "". rewrite nil_app. exact H.
      * exists (String c before). rewrite cons_app. congruence.
    + intros [before H]. destruct before as [|x before].
      * left. rewrite nil_app in H. subst suffix. apply String.eqb_refl.
      * right. rewrite cons_app in H. exists before. congruence.
Qed.

Lemma truthy_lower (s : string) : truthy (lower s) = truthy s.
Proof. destruct s; reflexivity. Qed.

Lemma lower_or_empty_some (s : string) : lower_or_empty (Some s) = lower s.
Proof. destruct s; reflexivity. Qed.

End PyStrFacts.

(** ** Facts about journals *)

Module JournalFacts.
Import Journal.

Lemma extends_refl {E : Type} (P : E -> Prop) (j : list E) : extends_with P j j.
Proof. exists []. split; [symmetry; apply List.app_nil_r | constructor]. Qed.

Lemma extends_trans {E : Type} (P : E -> Prop) (a b c : list E) :
  extends_with P a b -> extends_with P b c -> extends_with P a c.
Proof.
  intros [e1 [H1 F1]] [e2 [H2 F2]]. exists (e1 ++ e2). split.
  - rewrite H2, H1, List.app_assoc. reflexivity.
  - apply Forall_app. split; assumption.
Qed.

Lemma extends_snoc {E : Type} (P : E -> Prop) (j : list E) (e : E) :
  P e -> extends_with P j (j ++ [e]).
Proof. intros H. exists [e]. split; [reflexivity | constructor; [exact H | constructor]]. Qed.

Lemma extends_weaken {E : Type} (P Q : E -> Prop) (j j' : list E) :
  (forall e, P e -> Q e) -> extends_with P j j' -> extends_with Q j j'.
Proof.
  intros HPQ [evs [H F]]. exists evs. split; [exact H|].
  eapply List.Forall_impl; [exact HPQ | exact F].
Qed.

Lemma extends_from_nil {E : Type} (P : E -> Prop) (j : list E) :
  extends_with P [] j -> Forall P j.
Proof. intros [evs [-> F]]. exact F. Qed.

End JournalFacts.

(** ** Facts about the locator *)

Module LocatorFacts.
Import PyStr PyStrFacts Locator.

Lemma linux_match_spec (n e : string) :
  (String.eqb n "antigravity" || contains "/antigravity/" e
   || endswith e "/antigravity") = true <-> linux_rule n e.
Proof.
  unfold linux_rule.
  rewrite !orb_true_iff, String.eqb_eq, contains_spec, endswith_spec.
  tauto.
Qed.

Lemma is_process_running_spec (system : Platform) (procs : list Proc) :
  is_process_running system procs = true <->
  exists p, In p procs /\ is_antigravity_running system p = true.
Proof. unfold is_process_running. apply List.existsb_exists. Qed.

Lemma scan_targets_In (system : Platform) (caller : Caller) (procs : list Proc) (p : Proc) :
  In p (scan_targets system caller procs) <->
  In p procs /\ is_target system caller p = true.
Proof. unfold scan_targets. apply filter_In. Qed.

Lemma is_target_inv (system : Platform) (caller : Caller) (p : Proc) :
  is_target system caller p = true ->
  pid p <> own_pid caller
  /\ in_current_dir caller (exe p) = false
  /\ close_match system (lower_or_empty (name p)) (lower_or_empty (exe p)) = true.
Proof.
  unfold is_target. intros H.
  destruct (Z.eqb_spec (pid p) (own_pid caller)) as [|Hne]; [discriminate|].
  destruct (in_current_dir caller _); [discriminate|].
  auto.
Qed.

(** The ASCII lower-casing meets the laws. *)
Lemma ascii_lower_laws : LowerLaws lower.
Proof.
  split.
  - intros [|c t] H; [reflexivity | discriminate].
  - intros a b _. apply lower_app.
  - intros a b _. apply lower_app.
Qed.

(** What a negative directory test says of the two lower-cased paths. *)
Lemma not_in_current_dir (caller : Caller) (d e : string) :
  LowerLaws (str_lower caller) ->
  install_dir caller = Some d -> e <> "" ->
  in_current_dir caller (Some e) = false ->
  contains (str_lower caller d) (str_lower caller e) = false.
Proof.
  intros Hlaws Hd He. unfold in_current_dir. rewrite Hd.
  assert (Ht : truthy e = true) by (destruct e; [congruence | reflexivity]).
  rewrite Ht.
  assert (Hl : truthy (str_lower caller e) = true).
  { destruct (str_lower caller e) eqn:E; [|reflexivity].
    apply (lower_keeps_nonempty _ Hlaws) in E. congruence. }
  rewrite Hl. intros H. exact H.
Qed.

Lemma lies_under_contains (caller : Caller) (d e : string) :
  LowerLaws (str_lower caller) -> lies_under d e ->
  e <> "" /\ contains (str_lower caller d) (str_lower caller e) = true.
Proof.
  intros Hlaws [rest [Hrest [-> Hsep]]]. split.
  - intros H. apply (f_equal String.length) in H. rewrite length_app in H.
    destruct rest; [congruence | simpl in H; lia].
  - assert (Happ : str_lower caller (d +:+ rest)
                   = str_lower caller d +:+ str_lower caller rest).
    { destruct Hsep as [Hs|Hs];
        [apply (lower_before_separator _ Hlaws) | apply (lower_after_separator _ Hlaws)];
        exact Hs. }
    rewrite Happ. apply contains_spec. exists "", (str_lower caller rest). reflexivity.
Qed.

Lemma proper_superstring_neq (a b s : string) :
  a +:+ b <> "" -> a +:+ s +:+ b <> s.
Proof.
  intros Hne Heq. apply (f_equal String.length) in Heq.
  rewrite !length_app in Heq.
  destruct a as [|x a]; [|simpl in Heq; lia].
  destruct b as [|y b]; [|simpl in Heq; lia].
  apply Hne. reflexivity.
Qed.

(** C5.  On Linux both copies of the predicate (the one of
    [is_process_running] and the one of [close_antigravity]) accept a
    process exactly when its lower-cased name is "antigravity", or its
    lower-cased executable path contains "/antigravity/", or that path ends
    with "/antigravity".  A process whose name only contains the
    application name as a proper substring, and whose path meets neither
    path condition, is rejected; a process with the exact name is accepted
    whatever its path. *)
Theorem linux_locator_rule (p : Proc) :
  let n := lower_or_empty (name p) in
  let e := lower_or_empty (exe p) in
  (is_antigravity_running Linux p = true <-> linux_rule n e)
  /\ (close_match Linux n e = true <-> linux_rule n e)
  /\ (forall a b : string,
        a +:+ b <> "" -> n = a +:+ "antigravity" +:+ b ->
        contains "/antigravity/" e = false -> endswith e "/antigravity" = false ->
        is_antigravity_running Linux p = false /\ close_match Linux n e = false)
  /\ (n = "antigravity" ->
        is_antigravity_running Linux p = true /\ close_match Linux n e = true)
  /\ is_antigravity_running Linux decoy = false
  /\ is_antigravity_running Linux genuine = true.
Proof.
  intros n e. unfold is_antigravity_running. fold n e.
  assert (Hrun : running_match Linux n e = true <-> linux_rule n e)
    by apply linux_match_spec.
  assert (Hclose : close_match Linux n e = true <-> linux_rule n e)
    by apply linux_match_spec.
  split; [exact Hrun|]. split; [exact Hclose|].
  split; [|split; [|split; reflexivity]].
  - intros a b Hab Hn Hseg Hend.
    assert (Hname : String.eqb n "antigravity" = false).
    { apply String.eqb_neq. rewrite Hn. apply proper_superstring_neq, Hab. }
    simpl. rewrite Hname, Hseg, Hend. split; reflexivity.
  - intros Hn. split; [apply Hrun | apply Hclose]; left; exact Hn.
Qed.

(** What the scan guarantees of a process it keeps. *)
Lemma is_target_excludes_caller (system : Platform) (caller : Caller) (p : Proc) :
  LowerLaws (str_lower caller) ->
  is_target system caller p = true ->
  pid p <> own_pid caller
  /\ (forall d e, install_dir caller = Some d -> exe p = Some e -> e <> "" ->
                  contains (str_lower caller d) (str_lower caller e) = false)
  /\ (forall d e, install_dir caller = Some d -> exe p = Some e -> ~ lies_under d e).
Proof.
  intros Hlaws Ht. apply is_target_inv in Ht. destruct Ht as [Hpid [Hdir _]].
  split; [exact Hpid|].
  assert (Hcode : forall d e, install_dir caller = Some d -> exe p = Some e -> e <> "" ->
                    contains (str_lower caller d) (str_lower caller e) = false).
  { intros d e Hd He Hne. rewrite He in Hdir.
    apply not_in_current_dir; assumption. }
  split; [exact Hcode|].
  intros d e Hd He Hunder.
  destruct (lies_under_contains caller d e Hlaws Hunder) as [Hne Hc].
  rewrite (Hcode d e Hd He Hne) in Hc. discriminate.
Qed.

(** C3.  No process of the termination set has the caller's own pid, and
    none has an executable path that lies under the caller's installation
    directory, whatever the platform and whether or not the process meets
    the name/path predicate.  The code tests that the lower-cased directory
    does not occur in the lower-cased path; given that [str.lower] treats
    the two sides of a path separator independently, no path made of the
    directory, a separator and a path inside it passes that test.  This
    holds of the scan of any process list, and so of the termination set of
    [close_antigravity] on any operating system. *)
Theorem scan_excludes_caller (system : Platform) (caller : Caller) :
  LowerLaws (str_lower caller) ->
  (forall procs : list Proc,
      Forall
        (fun p =>
           pid p <> own_pid caller
           /\ (forall d e, install_dir caller = Some d -> exe p = Some e -> e <> "" ->
                           contains (str_lower caller d) (str_lower caller e) = false)
           /\ (forall d e, install_dir caller = Some d -> exe p = Some e ->
                           ~ lies_under d e))
        (scan_targets system caller procs))
  /\ (forall (W : Type) (os : Closer.OS W) (w : W),
        Forall
          (fun p =>
             pid p <> own_pid caller
             /\ (forall d e, install_dir caller = Some d -> exe p = Some e -> e <> "" ->
                             contains (str_lower caller d) (str_lower caller e) = false)
             /\ (forall d e, install_dir caller = Some d -> exe p = Some e ->
                             ~ lies_under d e))
          (Closer.termination_set os system caller w)).
Proof.
  intros Hlaws.
  assert (H : forall procs : list Proc,
             Forall
               (fun p =>
                  pid p <> own_pid caller
                  /\ (forall d e, install_dir caller = Some d -> exe p = Some e ->
                                  e <> "" ->
                                  contains (str_lower caller d) (str_lower caller e) = false)
                  /\ (forall d e, install_dir caller = Some d -> exe p = Some e ->
                                  ~ lies_under d e))
               (scan_targets system caller procs)).
  { intros procs. apply List.Forall_forall. intros p Hin.
    apply scan_targets_In in Hin. destruct Hin as [_ Ht].
    apply is_target_excludes_caller with (system := system); assumption. }
  split; [exact H|].
  intros W os w. unfold Closer.termination_set, Closer.scan.
  destruct (Closer.process_iter os _) as [procs w']. apply H.
Qed.

(** A caller installed in a directory whose name has capitals. *)
Lemma scan_excludes_caller_witness :
  (forall procs : list Proc,
      Forall
        (fun p =>
           pid p <> 5%Z
           /\ (forall d e, Some "/opt/Antigravity/tools" = Some d -> exe p = Some e ->
                           e <> "" -> contains (lower d) (lower e) = false)
           /\ (forall d e, Some "/opt/Antigravity/tools" = Some d -> exe p = Some e ->
                           ~ lies_under d e))
        (scan_targets Linux
           {| own_pid := 5; install_dir := Some "/opt/Antigravity/tools";
              str_lower := lower |} procs))
  /\ (forall (W : Type) (os : Closer.OS W) (w : W),
        Forall
          (fun p =>
             pid p <> 5%Z
             /\ (forall d e, Some "/opt/Antigravity/tools" = Some d -> exe p = Some e ->
                             e <> "" -> contains (lower d) (lower e) = false)
             /\ (forall d e, Some "/opt/Antigravity/tools" = Some d -> exe p = Some e ->
                             ~ lies_under d e))
          (Closer.termination_set os Linux
             {| own_pid := 5; install_dir := Some "/opt/Antigravity/tools";
                str_lower := lower |} w)).
Proof.
  apply (scan_excludes_caller Linux
           {| own_pid := 5; install_dir := Some "/opt/Antigravity/tools";
              str_lower := lower |}).
  exact ascii_lower_laws.
Defined.

(** The exclusions bite: a process that meets the predicate is dropped when
    it has the caller's pid or sits in the caller's directory, and kept
    otherwise. *)
Example scan_example :
  scan_targets Linux
    {| own_pid := 5; install_dir := Some "/opt/Antigravity/tools"; str_lower := lower |}
    [ {| pid := 5; name := Some "antigravity"; exe := Some "/usr/bin/antigravity" |};
      {| pid := 6; name := Some "antigravity";
         exe := Some "/opt/antigravity/tools/antigravity" |};
      {| pid := 7; name := Some "antigravity"; exe := Some "/usr/bin/antigravity" |} ]
  = [ {| pid := 7; name := Some "antigravity"; exe := Some "/usr/bin/antigravity" |} ].
Proof. reflexivity. Qed.

End LocatorFacts.

(** ** Facts about the terminator *)

Module CloserFacts.
Import Locator Closer Journal JournalFacts.

Section WithOS.

Context {W : Type}.
Variable os : OS W.
Variable system : Platform.
Variable caller : Caller.

Local Abbreviation State := (@St W).

Lemma adds_refl (P : Event -> Prop) (st : State) : adds P st st.
Proof. apply extends_refl. Qed.

Lemma adds_trans (P : Event -> Prop) (a b c : State) :
  adds P a b -> adds P b c -> adds P a c.
Proof. apply extends_trans. Qed.

Lemma adds_weaken (P Q : Event -> Prop) (a b : State) :
  (forall e, P e -> Q e) -> adds P a b -> adds Q a b.
Proof. apply extends_weaken. Qed.

Lemma adds_record (P : Event -> Prop) (e : Event) (w : W) (st : State) :
  P e -> adds P st (record e w st).
Proof. apply extends_snoc. Qed.

Lemma do_sleep_adds (P : Event -> Prop) (d : Q) (st : State) :
  P (Ev_sleep d) -> adds P st (do_sleep os d st).
Proof. apply adds_record. Qed.

Lemma do_is_running_adds (P : Event -> Prop) (p : Proc) (st : State) :
  (forall r, P (Ev_is_running p r)) -> adds P st (snd (do_is_running os p st)).
Proof.
  intros H. unfold do_is_running. destruct (is_running os p (world st)).
  apply adds_record, H.
Qed.

Lemma do_terminate_adds (P : Event -> Prop) (p : Proc) (st : State) :
  (forall r, P (Ev_terminate p r)) -> adds P st (snd (do_terminate os p st)).
Proof.
  intros H. unfold do_terminate. destruct (terminate os p (world st)).
  apply adds_record, H.
Qed.

Lemma do_kill_adds (P : Event -> Prop) (p : Proc) (st : State) :
  (forall r, P (Ev_kill p r)) -> adds P st (snd (do_kill os p st)).
Proof.
  intros H. unfold do_kill. destruct (kill os p (world st)).
  apply adds_record, H.
Qed.

Lemma graceful_request_adds (st : State) :
  adds stage1_event st (graceful_request os system st).
Proof.
  unfold graceful_request.
  destruct system; try apply adds_refl;
    destruct (quit_request os _ (world st)) as [[[| |]|] w];
    try (apply adds_record; exact I);
    (eapply adds_trans; [apply adds_record | apply do_sleep_adds]; exact I).
Qed.

Lemma scan_adds (st : State) : adds stage1_event st (snd (scan os system caller st)).
Proof.
  unfold scan. pose proof (graceful_request_adds st) as H.
  destruct (process_iter os (world (graceful_request os system st))). exact H.
Qed.

Lemma send_terminate_adds (procs : list Proc) (st : State) :
  adds stage2_event st (send_terminate os procs st).
Proof.
  revert st. induction procs as [|p procs IH]; intros st; simpl.
  - apply adds_refl.
  - pose proof (do_is_running_adds stage2_event p st (fun _ => I)) as H.
    destruct (do_is_running os p st) as [[[|]|e] st1]; simpl in H;
      try (eapply adds_trans; [exact H | apply IH]).
    eapply adds_trans; [exact H|].
    eapply adds_trans; [apply (do_terminate_adds stage2_event p st1 (fun _ => I)) | apply IH].
Qed.

Lemma before_wait_adds (w : W) :
  Forall (fun e => stage1_event e \/ stage2_event e)
    (journal (before_wait os system caller w)).
Proof.
  apply extends_from_nil. unfold before_wait.
  pose proof (scan_adds {| world := w; journal := [] |}) as H.
  destruct (scan os system caller _) as [targets st2]. simpl in H.
  eapply extends_trans.
  - eapply extends_weaken; [|exact H]. tauto.
  - eapply extends_weaken; [|apply send_terminate_adds]. tauto.
Qed.

Lemma polled_app (a b : list Event) : polled (a ++ b) = polled a ++ polled b.
Proof. apply List.flat_map_app. Qed.

Lemma polled_alive_app (a b : list Event) :
  polled_alive (a ++ b) = polled_alive a ++ polled_alive b.
Proof. apply List.flat_map_app. Qed.

Lemma killed_app (a b : list Event) : killed (a ++ b) = killed a ++ killed b.
Proof. apply List.flat_map_app. Qed.

Lemma do_is_running_journal (p : Proc) (st : State) :
  journal (snd (do_is_running os p st))
  = journal st ++ [Ev_is_running p (fst (do_is_running os p st))].
Proof. unfold do_is_running. destruct (is_running os p (world st)). reflexivity. Qed.

Lemma do_kill_journal (p : Proc) (st : State) :
  journal (snd (do_kill os p st)) = journal st ++ [Ev_kill p (fst (do_kill os p st))].
Proof. unfold do_kill. destruct (kill os p (world st)). reflexivity. Qed.

(** One pass of liveness checks: the journal grows by one check per process
    up to the point where the pass ends; a pass that completes has checked
    every process of the list and returns those it saw running. *)
Lemma poll_running_spec (procs : list Proc) (st : State) :
  exists evs,
    journal (snd (poll_running os procs st)) = journal st ++ evs
    /\ Forall poll_event evs
    /\ match fst (poll_running os procs st) with
       | Ok alive => polled evs = procs /\ alive = polled_alive evs
       | Raise e => caught_by_process_handler e = false
       end.
Proof.
  revert st. induction procs as [|p procs IH]; intros st; simpl.
  - exists []. rewrite List.app_nil_r. repeat split; constructor.
  - pose proof (do_is_running_journal p st) as Hj.
    destruct (do_is_running os p st) as [r st1]. simpl in Hj.
    assert (Hgo : forall b,
               (r = Ok b \/ exists e, r = Raise e /\ caught_by_process_handler e = true) ->
               exists evs,
                 journal (snd (poll_running os procs st1)) = journal st ++ evs
                 /\ Forall poll_event evs
                 /\ match fst (poll_running os procs st1) with
                    | Ok alive =>
                        polled evs = p :: procs
                        /\ (if match r with Ok true => true | _ => false end
                            then p :: alive else alive) = polled_alive evs
                    | Raise e => caught_by_process_handler e = false
                    end).
    { intros b Hr. destruct (IH st1) as [evs [H1 [H2 H3]]].
      exists (Ev_is_running p r :: evs). split; [|split].
      - rewrite H1, Hj, <- List.app_assoc. reflexivity.
      - constructor; [exact I | exact H2].
      - destruct (fst (poll_running os procs st1)) as [alive|e]; [|exact H3].
        destruct H3 as [H3 H4]. split.
        + unfold polled in *. simpl. rewrite H3. reflexivity.
        + unfold polled_alive in *. simpl. rewrite <- H4.
          destruct r as [[|]|]; reflexivity. }
    destruct r as [[|]|e].
    + destruct (Hgo true (or_introl eq_refl)) as [evs [H1 [H2 H3]]].
      exists evs. destruct (poll_running os procs st1) as [[alive|e] st2]; simpl in *.
      * repeat split; try assumption; destruct H3; assumption || (symmetry; assumption) || auto.
      * repeat split; assumption.
    + destruct (Hgo false (or_introl eq_refl)) as [evs [H1 [H2 H3]]].
      exists evs. destruct (poll_running os procs st1) as [[alive|e] st2]; simpl in *.
      * repeat split; try assumption; destruct H3; auto.
      * repeat split; assumption.
    + destruct (caught_by_process_handler e) eqn:Hc.
      * destruct (Hgo true (or_intror (ex_intro _ e (conj eq_refl Hc)))) as [evs [H1 [H2 H3]]].
        exists evs. destruct (poll_running os procs st1) as [[alive|e'] st2]; simpl in *.
        -- repeat split; try assumption; destruct H3; auto.
        -- repeat split; assumption.
      * exists [Ev_is_running p (Raise e)]. simpl. repeat split; try assumption.
        repeat constructor.
Qed.

(** The kill loop: the journal grows by liveness checks and kills only, and
    a kill goes to exactly the processes that the loop saw running; a loop
    that completes has checked every process of the list. *)
Lemma send_kill_spec (procs : list Proc) (st : State) :
  exists evs,
    journal (snd (send_kill os procs st)) = journal st ++ evs
    /\ Forall poll_or_kill evs
    /\ killed evs = polled_alive evs
    /\ match fst (send_kill os procs st) with
       | Ok _ => polled evs = procs
       | Raise e => caught_by_process_handler e = false
       end.
Proof.
  revert st. induction procs as [|p procs IH]; intros st; simpl.
  - exists []. rewrite List.app_nil_r. repeat split; constructor.
  - assert (Hgo : forall (pre : list Event) (st2 : State),
               journal st2 = journal st ++ pre -> Forall poll_or_kill pre ->
               killed pre = polled_alive pre -> polled pre = [p] ->
               exists evs,
                 journal (snd (send_kill os procs st2)) = journal st ++ evs
                 /\ Forall poll_or_kill evs
                 /\ killed evs = polled_alive evs
                 /\ match fst (send_kill os procs st2) with
                    | Ok _ => polled evs = p :: procs
                    | Raise e => caught_by_process_handler e = false
                    end).
    { intros pre st2 Hj Hf Hk Hp. destruct (IH st2) as [evs [H1 [H2 [H3 H4]]]].
      exists (pre ++ evs). split; [|split; [|split]].
      - rewrite H1, Hj, <- List.app_assoc. reflexivity.
      - apply Forall_app. split; assumption.
      - rewrite killed_app, polled_alive_app, Hk, H3. reflexivity.
      - destruct (fst (send_kill os procs st2)); [|exact H4].
        rewrite polled_app, Hp, H4. reflexivity. }
    pose proof (do_is_running_journal p st) as Hj.
    destruct (do_is_running os p st) as [r st1]. simpl in Hj.
    destruct r as [[|]|e].
    + pose proof (do_kill_journal p st1) as Hk.
      destruct (do_kill os p st1) as [r2 st2]. simpl in Hk.
      assert (Hj2 : journal st2 = journal st ++ [Ev_is_running p (Ok true); Ev_kill p r2])
        by (rewrite Hk, Hj, <- List.app_assoc; reflexivity).
      destruct r2 as [u|e].
      * apply (Hgo _ st2 Hj2); [repeat constructor | reflexivity | reflexivity].
      * destruct (caught_by_process_handler e) eqn:Hc.
        -- apply (Hgo _ st2 Hj2); [repeat constructor | reflexivity | reflexivity].
        -- exists [Ev_is_running p (Ok true); Ev_kill p (Raise e)]. simpl.
           repeat split; try assumption. repeat constructor.
    + apply (Hgo _ st1 Hj); [repeat constructor | reflexivity | reflexivity].
    + destruct (caught_by_process_handler e) eqn:Hc.
      * apply (Hgo _ st1 Hj); [repeat constructor | reflexivity | reflexivity].
      * exists [Ev_is_running p (Raise e)]. simpl.
        repeat split; try assumption. repeat constructor.
Qed.

(** What follows the loop when it was left with processes still running
    and [force_kill] is on: one kill loop over those processes, a sleep of
    1, one more pass of liveness checks over the same processes; true when
    that pass saw none of them running, false with an error message that
    names those it saw running otherwise.  An exception that is not caught
    per process ends the sequence early. *)
Lemma after_wait_force_kill (alive : list Proc) (st : State) :
  alive <> [] ->
  match after_wait os true (Some alive) st with
  | (Ok b, st') =>
      exists kills polls,
        journal st' =
          journal st ++ kills ++ [Ev_sleep 1] ++ polls
            ++ (if b then []
                else [Ev_error (Cannot_terminate (names_of (polled_alive polls)))])
        /\ Forall poll_or_kill kills /\ polled kills = alive
        /\ killed kills = polled_alive kills
        /\ Forall poll_event polls /\ polled polls = alive
        /\ (b = true <-> polled_alive polls = [])
  | (Raise e, _) => caught_by_process_handler e = false
  end.
Proof.
  intros Hne. unfold after_wait. destruct alive as [|p alive]; [congruence|].
  destruct (send_kill_spec (p :: alive) st) as [kills [K1 [K2 [K3 K4]]]].
  destruct (send_kill os (p :: alive) st) as [[u|e] st1]; cbn [fst snd] in *;
    [|exact K4].
  destruct (poll_running_spec (p :: alive) (do_sleep os 1 st1)) as [polls [P1 [P2 P3]]].
  destruct (poll_running os (p :: alive) (do_sleep os 1 st1)) as [[final|e] st2];
    cbn [fst snd] in *; [|exact P3].
  destruct P3 as [P3 P4].
  assert (Hj : journal st2 = journal st ++ kills ++ [Ev_sleep 1] ++ polls).
  { rewrite P1. unfold do_sleep, record. cbn [journal]. rewrite K1.
    rewrite <- !List.app_assoc. reflexivity. }
  destruct final as [|q final].
  - exists kills, polls. rewrite List.app_nil_r.
    repeat split; try assumption; auto.
  - exists kills, polls. unfold record. cbn [journal]. rewrite Hj, <- P4.
    rewrite <- !List.app_assoc.
    repeat split; try assumption; try discriminate.
Qed.

Lemma polled_alive_incl (evs : list Event) : incl (polled_alive evs) (polled evs).
Proof.
  induction evs as [|e evs IH]; [intros x []|].
  unfold polled_alive, polled in *. simpl.
  destruct e as [| |p [[|]|]| | |]; simpl; try exact IH.
  - intros x [<-|Hx]; [left; reflexivity | right; apply IH, Hx].
  - apply incl_tl, IH.
  - apply incl_tl, IH.
Qed.

Lemma poll_running_incl (procs alive : list Proc) (st : State) :
  fst (poll_running os procs st) = Ok alive -> incl alive procs.
Proof.
  intros H. destruct (poll_running_spec procs st) as [evs [_ [_ H3]]].
  rewrite H in H3. destruct H3 as [<- ->]. apply polled_alive_incl.
Qed.

Lemma wait_loop_adds (fuel : nat) (start timeout : Q) (targets : list Proc)
    (still : option (list Proc)) (st : State) (r : Exc LoopExit) (st' : State) :
  wait_loop os fuel start timeout targets still st = Some (r, st') ->
  adds poll_or_sleep st st'.
Proof.
  revert still st. induction fuel as [|fuel IH]; intros still st H; [discriminate|].
  simpl in H. destruct (Qlt_le_dec _ _).
  - destruct (poll_running_spec targets st) as [evs [H1 [H2 _]]].
    assert (Hp : adds poll_or_sleep st (snd (poll_running os targets st))).
    { exists evs. split; [exact H1|].
      eapply List.Forall_impl; [|exact H2]. intros []; simpl; tauto. }
    destruct (poll_running os targets st) as [[[|p alive]|e] st1]; simpl in Hp.
    + injection H as <- <-. exact Hp.
    + apply IH in H. eapply adds_trans; [exact Hp|].
      eapply adds_trans; [apply (do_sleep_adds poll_or_sleep); exact I | exact H].
    + injection H as <- <-. exact Hp.
  - injection H as <- <-. apply adds_refl.
Qed.

(** The loop is left through its condition either without having run, with
    [still_running] as it was, or with a list that is not empty. *)
Lemma wait_loop_fell_through (fuel : nat) (start timeout : Q) (targets : list Proc)
    (still : option (list Proc)) (st : State) (s : option (list Proc)) (st' : State) :
  wait_loop os fuel start timeout targets still st = Some (Ok (Fell_through s), st') ->
  (timeout <= clock os (world st') - start)%Q
  /\ (s = still \/ exists alive, s = Some alive /\ alive <> [] /\ incl alive targets).
Proof.
  revert still st. induction fuel as [|fuel IH]; intros still st H; [discriminate|].
  simpl in H. destruct (Qlt_le_dec _ _) as [Hlt|Hle].
  - pose proof (fun alive => poll_running_incl targets alive st) as Hincl.
    destruct (poll_running os targets st) as [[[|p alive]|e] st1]; try discriminate.
    apply IH in H. destruct H as [Hc [->|H]]; (split; [exact Hc|]); right.
    + exists (p :: alive). split; [reflexivity|]. split; [discriminate|].
      apply Hincl. reflexivity.
    + exact H.
  - injection H as <- <-. split; [exact Hle | left; reflexivity].
Qed.

(** With a positive timeout the loop runs at least once, so that it is left
    through its condition with a list that is assigned and not empty. *)
Lemma wait_loop_positive_timeout (fuel : nat) (timeout : Q) (targets : list Proc)
    (st : State) (s : option (list Proc)) (st' : State) :
  (0 < timeout)%Q ->
  wait_loop os fuel (clock os (world st)) timeout targets None st
    = Some (Ok (Fell_through s), st') ->
  exists alive, s = Some alive /\ alive <> [] /\ incl alive targets.
Proof.
  intros Hpos H. destruct fuel as [|fuel]; [discriminate|].
  simpl in H. destruct (Qlt_le_dec _ _) as [Hlt|Hle]; [|exfalso; lra].
  pose proof (fun alive => poll_running_incl targets alive st) as Hincl.
  destruct (poll_running os targets st) as [[[|p alive]|e] st1]; try discriminate.
  apply wait_loop_fell_through in H. destruct H as [_ [->|H]]; [|exact H].
  exists (p :: alive). split; [reflexivity|]. split; [discriminate|].
  apply Hincl. reflexivity.
Qed.

Lemma wait_loop_returned (fuel : nat) (start timeout : Q) (targets : list Proc)
    (still : option (list Proc)) (st : State) (b : bool) (st' : State) :
  wait_loop os fuel start timeout targets still st = Some (Ok (Returned b), st') ->
  b = true.
Proof.
  revert still st. induction fuel as [|fuel IH]; intros still st H; [discriminate|].
  simpl in H. destruct (Qlt_le_dec _ _); [|discriminate].
  destruct (poll_running os targets st) as [[[|p alive]|e] st1]; try discriminate.
  - injection H as <- <-. reflexivity.
  - eapply IH, H.
Qed.

(** An exception leaves the loop only if no handler of the pass catches
    it. *)
Lemma wait_loop_raise (fuel : nat) (start timeout : Q) (targets : list Proc)
    (still : option (list Proc)) (st : State) (e : Exn) (st' : State) :
  wait_loop os fuel start timeout targets still st = Some (Raise e, st') ->
  caught_by_process_handler e = false.
Proof.
  revert still st. induction fuel as [|fuel IH]; intros still st H; [discriminate|].
  cbn [wait_loop] in H. destruct (Qlt_le_dec _ _) as [Hlt|Hle]; [|discriminate].
  destruct (poll_running_spec targets st) as [evs [_ [_ H3]]].
  destruct (poll_running os targets st) as [[[|p alive]|e'] st1];
    cbn [fst] in H3; try discriminate.
  - eapply IH, H.
  - injection H as <- <-. exact H3.
Qed.

(** More fuel does not change the result of a loop that ends. *)
Lemma wait_loop_fuel_mono (fuel fuel' : nat) (start timeout : Q) (targets : list Proc)
    (still : option (list Proc)) (st : State) (r : Exc LoopExit * State) :
  fuel <= fuel' ->
  wait_loop os fuel start timeout targets still st = Some r ->
  wait_loop os fuel' start timeout targets still st = Some r.
Proof.
  revert fuel' still st. induction fuel as [|fuel IH]; intros fuel' still st Hle H;
    [discriminate|].
  destruct fuel' as [|fuel']; [lia|]. simpl in H |- *.
  destruct (Qlt_le_dec _ _); [|exact H].
  destruct (poll_running os targets st) as [[[|p alive]|e] st1]; try exact H.
  apply IH; [lia | exact H].
Qed.

(** *** The loop ends *)

Section Clock.

Hypothesis laws : ClockLaws os.

Lemma do_is_running_clock (p : Proc) (st : State) :
  (clock os (world st) <= clock os (world (snd (do_is_running os p st))))%Q.
Proof.
  unfold do_is_running. pose proof (is_running_clock os laws p (world st)) as H.
  destruct (is_running os p (world st)). exact H.
Qed.

Lemma do_sleep_clock (d : Q) (st : State) :
  (clock os (world st) + d <= clock os (world (do_sleep os d st)))%Q.
Proof. apply (sleep_clock os laws). Qed.

Lemma poll_running_clock (procs : list Proc) (st : State) :
  (clock os (world st) <= clock os (world (snd (poll_running os procs st))))%Q.
Proof.
  revert st. induction procs as [|p procs IH]; intros st; simpl; [lra|].
  pose proof (do_is_running_clock p st) as H1.
  destruct (do_is_running os p st) as [[[|]|e] st1]; simpl in H1.
  - specialize (IH st1). destruct (poll_running os procs st1) as [[|] st2];
      simpl in *; lra.
  - specialize (IH st1). lra.
  - destruct (caught_by_process_handler e); [specialize (IH st1)|]; simpl; lra.
Qed.

(** A loop with [f + 1] units of fuel ends when at most [f] half units of
    time are left before the timeout. *)
Lemma wait_loop_terminates (f : nat) (start timeout : Q) (targets : list Proc)
    (still : option (list Proc)) (st : State) :
  ((timeout - (clock os (world st) - start)) * 2 <= inject_Z (Z.of_nat f))%Q ->
  exists r, wait_loop os (S f) start timeout targets still st = Some r.
Proof.
  revert still st. induction f as [|f IH]; intros still st Hf.
  - simpl in *. destruct (Qlt_le_dec _ _) as [Hlt|Hle]; [|eauto].
    exfalso. change (inject_Z (Z.of_nat 0)) with 0%Q in Hf. lra.
  - cbn [wait_loop]. destruct (Qlt_le_dec _ _) as [Hlt|Hle]; [|eauto].
    pose proof (poll_running_clock targets st) as Hc.
    destruct (poll_running os targets st) as [[[|p alive]|e] st1]; eauto.
    apply IH. simpl in Hc.
    pose proof (do_sleep_clock (1 # 2) st1) as Hs.
    assert (Hk : (inject_Z (Z.of_nat (S f)) == inject_Z (Z.of_nat f) + 1)%Q).
    { rewrite Nat2Z.inj_succ. unfold Z.succ. rewrite inject_Z_plus. reflexivity. }
    rewrite Hk in Hf. lra.
Qed.

(** The fuel that is enough for a given timeout. *)
Lemma close_terminates (timeout : Q) (force_kill : bool) (w : W) (fuel : nat) :
  S (Z.to_nat (Qceiling (timeout * 2))) <= fuel ->
  exists r, close_antigravity os system caller fuel timeout force_kill w = Some r.
Proof.
  intros Hfuel. unfold close_antigravity, close_body.
  destruct (scan os system caller _) as [[|p targets] st2]; [eauto|].
  set (st3 := send_terminate os (p :: targets) st2).
  destruct (wait_loop_terminates (Z.to_nat (Qceiling (timeout * 2)))
              (clock os (world st3)) timeout (p :: targets) None st3) as [r Hr].
  { pose proof (Qle_ceiling (timeout * 2)) as Hc.
    assert (Hz : (Qceiling (timeout * 2) <= Z.of_nat (Z.to_nat (Qceiling (timeout * 2))))%Z)
      by lia.
    rewrite Zle_Qle in Hz. lra. }
  rewrite (wait_loop_fuel_mono _ fuel _ _ _ _ _ r Hfuel Hr).
  destruct r as [[[b|s]|e] st4]; eauto.
  destruct (after_wait os force_kill s st4) as [[b|e] st5]; eauto.
Qed.

(** *** Processes that exit in time *)

Section Exited.

Hypothesis only : raises_only_process_errors os.
Variable t : Q.
Variable targets : list Proc.
Hypothesis exited : all_exited_by os t targets.

Lemma do_is_running_exited (p : Proc) (st : State) :
  In p targets -> (t <= clock os (world st))%Q ->
  fst (do_is_running os p st) = Ok false
  \/ exists e, fst (do_is_running os p st) = Raise e
               /\ caught_by_process_handler e = true.
Proof.
  intros Hin Ht. unfold do_is_running.
  pose proof (exited p (world st) Hin Ht) as H.
  pose proof (proj1 only p (world st)) as Ho.
  destruct (is_running os p (world st)) as [[[|]|e] w']; simpl in *.
  - congruence.
  - left. reflexivity.
  - right. exists e. split; [reflexivity | apply Ho; reflexivity].
Qed.

Lemma poll_running_ok (procs : list Proc) (st : State) :
  exists alive, fst (poll_running os procs st) = Ok alive.
Proof.
  revert st. induction procs as [|p procs IH]; intros st; simpl; [eauto|].
  unfold do_is_running. pose proof (proj1 only p (world st)) as Ho.
  destruct (is_running os p (world st)) as [[[|]|e] w']; simpl in *.
  - destruct (IH (record (Ev_is_running p (Ok true)) w' st)) as [alive Ha].
    destruct (poll_running os procs _) as [[|] st2]; simpl in *; [eauto | discriminate].
  - apply IH.
  - rewrite (Ho e eq_refl). apply IH.
Qed.

Lemma poll_running_exited (procs : list Proc) (st : State) :
  incl procs targets -> (t <= clock os (world st))%Q ->
  fst (poll_running os procs st) = Ok [].
Proof.
  revert st. induction procs as [|p procs IH]; intros st Hincl Ht; simpl; [reflexivity|].
  pose proof (do_is_running_clock p st) as Hc.
  destruct (do_is_running_exited p st (Hincl p (or_introl eq_refl)) Ht) as [H|[e [H He]]];
    destruct (do_is_running os p st) as [r st1]; simpl in H, Hc; subst r.
  - apply IH; [intros x Hx; apply Hincl; right; exact Hx | lra].
  - rewrite He. apply IH; [intros x Hx; apply Hincl; right; exact Hx | lra].
Qed.

Lemma send_kill_exited (procs : list Proc) (st : State) :
  incl procs targets -> (t <= clock os (world st))%Q ->
  exists u st',
    send_kill os procs st = (Ok u, st') /\ adds poll_event st st'
    /\ (t <= clock os (world st'))%Q.
Proof.
  revert st. induction procs as [|p procs IH]; intros st Hincl Ht; simpl.
  - exists tt, st. split; [reflexivity|]. split; [apply adds_refl | exact Ht].
  - pose proof (do_is_running_clock p st) as Hc.
    pose proof (do_is_running_adds poll_event p st (fun _ => I)) as Ha.
    assert (Hrest : incl procs targets) by (intros x Hx; apply Hincl; right; exact Hx).
    destruct (do_is_running_exited p st (Hincl p (or_introl eq_refl)) Ht) as [H|[e [H He]]];
      destruct (do_is_running os p st) as [r st1]; simpl in H, Hc, Ha; subst r;
      try rewrite He;
      (destruct (IH st1 Hrest) as [u [st' [E [A C]]]]; [lra|]);
      exists u, st'; (split; [exact E|]); (split; [|exact C]);
      eapply adds_trans; eassumption.
Qed.

(** Once every process has exited, what follows the loop sends no kill and
    returns the value of [force_kill]: true after the final check, false
    with the request to close the application manually. *)
Lemma after_wait_exited (force_kill : bool) (alive : list Proc) (st : State) :
  alive <> [] -> incl alive targets -> (t <= clock os (world st))%Q ->
  exists st',
    after_wait os force_kill (Some alive) st = (Ok force_kill, st')
    /\ adds not_kill st st'.
Proof.
  intros Hne Hincl Ht. unfold after_wait.
  destruct alive as [|p alive]; [congruence|].
  destruct force_kill.
  - destruct (send_kill_exited (p :: alive) st Hincl Ht) as [u [st1 [E [A C]]]].
    rewrite E.
    pose proof (do_sleep_clock 1 st1) as Hs.
    assert (Ht2 : (t <= clock os (world (do_sleep os 1 st1)))%Q) by lra.
    pose proof (poll_running_exited (p :: alive) _ Hincl Ht2) as Hp.
    destruct (poll_running_spec (p :: alive) (do_sleep os 1 st1)) as [evs [P1 [P2 _]]].
    destruct (poll_running os (p :: alive) (do_sleep os 1 st1)) as [r st2].
    simpl in Hp, P1. subst r. exists st2. split; [reflexivity|].
    eapply adds_trans.
    { eapply adds_weaken; [|exact A]. intros []; simpl; intros; first [reflexivity|tauto]. }
    eapply adds_trans.
    { apply (do_sleep_adds not_kill). reflexivity. }
    exists evs. split; [exact P1|].
    eapply List.Forall_impl; [|exact P2].
    intros []; simpl; intros; first [reflexivity|tauto].
  - eexists. split; [reflexivity|]. apply adds_record. reflexivity.
Qed.

(** The loop itself, when every process has exited by a time that lies
    before the timeout. *)
Lemma wait_loop_exited (fuel : nat) (start timeout : Q) (still : option (list Proc))
    (st : State) (r : Exc LoopExit) (st' : State) :
  (t < start + timeout)%Q ->
  (still = None -> (clock os (world st) - start < timeout)%Q) ->
  (forall alive, still = Some alive -> alive <> [] /\ incl alive targets) ->
  wait_loop os fuel start timeout targets still st = Some (r, st') ->
  adds not_kill st st'
  /\ (r = Ok (Returned true)
      \/ exists alive, r = Ok (Fell_through (Some alive)) /\ alive <> []
                       /\ incl alive targets /\ (t <= clock os (world st'))%Q).
Proof.
  intros Ht Hnone Hsome H. split.
  - eapply adds_weaken; [|eapply wait_loop_adds; exact H].
    intros []; simpl; intros; first [reflexivity|tauto].
  - destruct r as [[b|s]|e].
    + left. rewrite (wait_loop_returned _ _ _ _ _ _ _ _ H). reflexivity.
    + right. destruct (wait_loop_fell_through _ _ _ _ _ _ _ _ H) as [Hc [->|Hs]].
      * destruct still as [alive|].
        -- destruct (Hsome alive eq_refl) as [Hne Hincl].
           exists alive. repeat split; try assumption. lra.
        -- exfalso. clear Hsome.
           revert st Hnone H. destruct fuel as [|fuel]; intros st Hnone H; [discriminate|].
           simpl in H. specialize (Hnone eq_refl).
           destruct (Qlt_le_dec _ _) as [Hlt|Hle]; [|lra].
           destruct (poll_running os targets st) as [[[|p alive]|e] st1];
             try discriminate.
           apply wait_loop_fell_through in H. destruct H as [_ [H|[a [H _]]]];
             discriminate.
      * destruct Hs as [alive [-> [Hne Hincl]]].
        exists alive. repeat split; try assumption. lra.
    + exfalso. revert still st Hnone Hsome H.
      induction fuel as [|fuel IH]; intros still st Hnone Hsome H; [discriminate|].
      simpl in H. destruct (Qlt_le_dec _ _); [|discriminate].
      destruct (poll_running_ok targets st) as [alive Ha].
      pose proof (fun a => poll_running_incl targets a st) as Hincl.
      destruct (poll_running os targets st) as [[[|p alive']|e'] st1];
        simpl in Ha; try discriminate.
      eapply (IH (Some (p :: alive'))); [discriminate | | exact H].
      intros a Ha'. injection Ha' as <-. split; [discriminate|].
      apply Hincl. reflexivity.
Qed.

End Exited.


End Clock.

(** X13.  Escalation, for a positive timeout: a run with [force_kill] on ends in
    one of three ways.  A pass of the loop saw no process running: true,
    and no kill.  Or the loop was left at the timeout with a list [alive]
    of processes of the termination set that is not empty: one liveness
    check per process of [alive], a kill for exactly those seen running, a
    sleep of 1, one more liveness check per process of [alive]; true when
    none was seen running, false with an error that names those seen
    running otherwise.  Or a call raised an exception that no handler of a
    process loop catches: false. *)
Theorem close_escalates_positive_timeout (fuel : nat) (timeout : Q) (w : W)
    (b : bool) (st : State) :
  (0 < timeout)%Q ->
  termination_set os system caller w <> [] ->
  close_antigravity os system caller fuel timeout true w = Some (b, st) ->
  (b = true /\ adds poll_or_sleep (before_wait os system caller w) st)
  \/ (exists (st4 : State) alive kills polls,
        adds poll_or_sleep (before_wait os system caller w) st4
        /\ alive <> [] /\ incl alive (termination_set os system caller w)
        /\ journal st =
             journal st4 ++ kills ++ [Ev_sleep 1] ++ polls
               ++ (if b then []
                   else [Ev_error (Cannot_terminate (names_of (polled_alive polls)))])
        /\ polled kills = alive /\ killed kills = polled_alive kills
        /\ Forall poll_or_kill kills
        /\ polled polls = alive /\ Forall poll_event polls
        /\ (b = true <-> polled_alive polls = []))
  \/ (exists (e : Exn) (st5 : State),
        caught_by_process_handler e = false /\ b = false
        /\ journal st = journal st5 ++ [Ev_error (Close_exception e)]).
Proof.
  intros Hpos Hne Hr.
  unfold close_antigravity, close_body, termination_set, before_wait in *.
  destruct (scan os system caller _) as [[|p targets] st2]; cbn [fst snd] in *;
    [congruence|].
  set (st3 := send_terminate os (p :: targets) st2) in *.
  destruct (wait_loop os fuel (clock os (world st3)) timeout (p :: targets) None st3)
    as [[r st4]|] eqn:Hloop; [|discriminate].
  pose proof (wait_loop_adds _ _ _ _ _ _ _ _ Hloop) as Hadd.
  destruct r as [[b'|s]|e].
  - injection Hr as <- <-. left.
    rewrite (wait_loop_returned _ _ _ _ _ _ _ _ Hloop). split; [reflexivity | exact Hadd].
  - destruct (wait_loop_positive_timeout _ _ _ _ _ _ Hpos Hloop)
      as [alive [-> [Hal Hincl]]].
    pose proof (after_wait_force_kill alive st4 Hal) as Haw.
    destruct (after_wait os true (Some alive) st4) as [[b'|e] st5].
    + injection Hr as <- <-. right. left.
      destruct Haw as [kills [polls [H1 [H2 [H3 [H4 [H5 [H6 H7]]]]]]]].
      exists st4, alive, kills, polls. repeat split; try assumption; apply H7.
    + injection Hr as <- <-. right. right. exists e, st5.
      split; [exact Haw|]. split; reflexivity.
  - injection Hr as <- <-. right. right. exists e, st4.
    split; [|split; reflexivity].
    eapply wait_loop_raise, Hloop.
Qed.

(** C4.  When the scan finds nothing, [close_antigravity] returns true in
    the state in which the scan left the world, whatever the fuel, the
    timeout and [force_kill]: the journal holds the exit request of stage 1
    at most, no liveness check, no termination signal and no kill. *)
Theorem close_noop_on_empty_set (fuel : nat) (timeout : Q) (force_kill : bool) (w : W) :
  termination_set os system caller w = [] ->
  exists st,
    close_antigravity os system caller fuel timeout force_kill w = Some (true, st)
    /\ st = snd (scan os system caller {| world := w; journal := [] |})
    /\ Forall stage1_event (journal st)
    /\ Forall not_signal (journal st).
Proof.
  unfold termination_set, close_antigravity, close_body. intros H.
  pose proof (scan_adds {| world := w; journal := [] |}) as Hj.
  destruct (scan os system caller _) as [targets st2]. simpl in H, Hj. subst targets.
  exists st2. split; [reflexivity|]. split; [reflexivity|].
  apply extends_from_nil in Hj. split; [exact Hj|].
  eapply List.Forall_impl; [|exact Hj].
  intros e He. destruct e; unfold not_signal; simpl in *;
    first [reflexivity | tauto].
Qed.

(** C9.  With a timeout that is not positive and a termination set that is
    not empty, the loop condition is false at once: no liveness check and
    no sleep follow stage 2, the read of [still_running] raises
    [UnboundLocalError], the outer handler reports it, and
    [close_antigravity] returns false.  No kill is ever sent, whatever
    [force_kill]. *)
Theorem close_nonpositive_timeout (fuel : nat) (timeout : Q) (force_kill : bool) (w : W) :
  (timeout <= 0)%Q ->
  termination_set os system caller w <> [] ->
  exists st,
    close_antigravity os system caller (S fuel) timeout force_kill w = Some (false, st)
    /\ world st = world (before_wait os system caller w)
    /\ journal st = journal (before_wait os system caller w)
                      ++ [Ev_error (Close_exception UnboundLocalError)]
    /\ Forall not_kill (journal st).
Proof.
  intros Ht Hne.
  pose proof (before_wait_adds w) as Hj.
  unfold termination_set, close_antigravity, close_body, before_wait in *.
  destruct (scan os system caller _) as [targets st2]. simpl in Hne.
  destruct targets as [|p targets]; [congruence|].
  set (st3 := send_terminate os (p :: targets) st2) in *.
  cbn [wait_loop].
  destruct (Qlt_le_dec (clock os (world st3) - clock os (world st3)) timeout) as [Hlt|_].
  - exfalso. lra.
  - eexists. split; [reflexivity|]. split; [reflexivity|]. split; [reflexivity|].
    cbn [journal record]. apply Forall_app. split.
    + eapply List.Forall_impl; [|exact Hj].
      intros e He. destruct e; unfold not_kill; simpl in *;
        first [reflexivity | tauto].
    + repeat constructor.
Qed.

End WithOS.

(** A run of C4: nothing of the application is in the process table. *)
Lemma close_noop_on_empty_set_witness :
  exists st,
    close_antigravity (Sim.os Sim.idle) Linux Sim.manager 0 10 true Sim.boot
      = Some (true, st)
    /\ st = snd (scan (Sim.os Sim.idle) Linux Sim.manager
                   {| world := Sim.boot; journal := [] |})
    /\ Forall stage1_event (journal st)
    /\ Forall not_signal (journal st).
Proof.
  apply (close_noop_on_empty_set (Sim.os Sim.idle) Linux Sim.manager 0 10 true Sim.boot).
  reflexivity.
Defined.

(** A run of C9: the application ignores the termination signal, the
    timeout is 0 and [force_kill] is on. *)
Lemma close_nonpositive_timeout_witness :
  exists st,
    close_antigravity (Sim.os Sim.stubborn) Linux Sim.manager 1 0 true Sim.boot
      = Some (false, st)
    /\ world st = world (before_wait (Sim.os Sim.stubborn) Linux Sim.manager Sim.boot)
    /\ journal st = journal (before_wait (Sim.os Sim.stubborn) Linux Sim.manager Sim.boot)
                      ++ [Ev_error (Close_exception UnboundLocalError)]
    /\ Forall not_kill (journal st).
Proof.
  apply (close_nonpositive_timeout (Sim.os Sim.stubborn) Linux Sim.manager 0 0 true Sim.boot).
  - discriminate.
  - discriminate.
Defined.

(** *** Runs on the simulated operating system *)

Lemma sim_clock_laws (cfg : Sim.Config) : ClockLaws (Sim.os cfg).
Proof.
  split.
  - intros p w. simpl. lra.
  - intros p w. simpl. unfold Sim.signal.
    destruct (Sim.is_gone cfg w p); simpl; [lra|].
    destruct (Sim.exits_on_kill cfg (pid p)); simpl; lra.
  - intros d w. simpl. lra.
Qed.

Lemma sim_raises_only (cfg : Sim.Config) : raises_only_process_errors (Sim.os cfg).
Proof.
  split.
  - intros p w e H. discriminate.
  - intros p w e. simpl. unfold Sim.signal.
    destruct (Sim.is_gone cfg w p); simpl; [|discriminate].
    intros H. injection H as <-. reflexivity.
Qed.

Lemma sim_slow_exited : all_exited_by (Sim.os Sim.slow) (3 # 4) [Sim.app].
Proof.
  intros p w [<-|[]] Ht. apply Qle_bool_iff in Ht.
  cbn [is_running clock Sim.os fst] in *. unfold Sim.is_gone.
  cbn [Sim.exits_at Sim.slow]. rewrite Ht, orb_true_r. discriminate.
Qed.

(** C1, the run on which the code departs from the claim.  One process of
    the application ignores the termination signal; the timeout is 0 and
    [force_kill] is on.  The loop does not run, the read of
    [still_running] raises, and [close_antigravity] returns false without a
    kill, a sleep or a final check, for any fuel; the process is still
    running afterwards. *)
Theorem close_zero_timeout_skips_kill (fuel : nat) :
  verdict (close_antigravity (Sim.os Sim.stubborn) Linux Sim.manager (S fuel) 0 true
             Sim.boot)
  = Some (false,
          [Ev_is_running Sim.app (Ok true); Ev_terminate Sim.app (Ok tt);
           Ev_error (Close_exception UnboundLocalError)])
  /\ termination_set (Sim.os Sim.stubborn) Linux Sim.manager Sim.boot = [Sim.app]
  /\ fst (is_running (Sim.os Sim.stubborn) Sim.app
            (world (before_wait (Sim.os Sim.stubborn) Linux Sim.manager Sim.boot)))
     = Ok true.
Proof. repeat split. Qed.

(** The same process under a timeout of 1: the loop runs twice, the kill is
    sent, and the final check finds the process gone. *)
Example close_escalates_example :
  verdict (close_antigravity (Sim.os Sim.stubborn) Linux Sim.manager 3 1 true Sim.boot)
  = Some (true,
          [Ev_is_running Sim.app (Ok true); Ev_terminate Sim.app (Ok tt);
           Ev_is_running Sim.app (Ok true); Ev_sleep (1 # 2);
           Ev_is_running Sim.app (Ok true); Ev_sleep (1 # 2);
           Ev_is_running Sim.app (Ok true); Ev_kill Sim.app (Ok tt);
           Ev_sleep 1; Ev_is_running Sim.app (Ok false)]).
Proof. reflexivity. Qed.

(** A process that survives the kill is named in the error message. *)
Example close_unkillable_example :
  verdict (close_antigravity (Sim.os Sim.unkillable) Linux Sim.manager 3 1 true Sim.boot)
  = Some (false,
          [Ev_is_running Sim.app (Ok true); Ev_terminate Sim.app (Ok tt);
           Ev_is_running Sim.app (Ok true); Ev_sleep (1 # 2);
           Ev_is_running Sim.app (Ok true); Ev_sleep (1 # 2);
           Ev_is_running Sim.app (Ok true); Ev_kill Sim.app (Ok tt);
           Ev_sleep 1; Ev_is_running Sim.app (Ok true);
           Ev_error (Cannot_terminate [(Some "antigravity", 4242%Z)])]).
Proof. reflexivity. Qed.

(** C2, the runs on which the code departs from the claim.  First run: the
    process exits as soon as it is sent the termination signal, and the
    timeout is 0; the loop does not run, the read of [still_running]
    raises, and [close_antigravity] returns false, whatever [force_kill].
    Second run: the process exits on its own at time 3/4, the timeout is 1
    and [force_kill] is off; the loop checks at times 0 and 1/2, is left at
    time 1 with the list of the second check, and [close_antigravity]
    returns false although the process exited before the timeout.  Neither
    run sends a kill. *)
Theorem close_fails_after_exit_in_time (fuel : nat) (force_kill : bool) :
  (verdict (close_antigravity (Sim.os Sim.obedient) Linux Sim.manager (S fuel) 0
              force_kill Sim.boot)
   = Some (false,
           [Ev_is_running Sim.app (Ok true); Ev_terminate Sim.app (Ok tt);
            Ev_error (Close_exception UnboundLocalError)])
   /\ fst (is_running (Sim.os Sim.obedient) Sim.app
             (world (before_wait (Sim.os Sim.obedient) Linux Sim.manager Sim.boot)))
      = Ok false)
  /\ (verdict (close_antigravity (Sim.os Sim.slow) Linux Sim.manager (S (S (S fuel))) 1
                 false Sim.boot)
      = Some (false,
              [Ev_is_running Sim.app (Ok true); Ev_terminate Sim.app (Ok tt);
               Ev_is_running Sim.app (Ok true); Ev_sleep (1 # 2);
               Ev_is_running Sim.app (Ok true); Ev_sleep (1 # 2);
               Ev_error Close_manually])
      /\ all_exited_by (Sim.os Sim.slow) (3 # 4) [Sim.app]).
Proof.
  split; [split; reflexivity|]. split; [reflexivity | apply sim_slow_exited].
Qed.

(** With the default timeout the process that exits on the termination
    signal is seen gone by the first pass of the loop. *)
Example close_converges_example :
  verdict (close_antigravity (Sim.os Sim.obedient) Linux Sim.manager 1 default_timeout
             true Sim.boot)
  = Some (true,
          [Ev_is_running Sim.app (Ok true); Ev_terminate Sim.app (Ok tt);
           Ev_is_running Sim.app (Ok false)]).
Proof. reflexivity. Qed.


(** Escalation on the simulated system: the run is of the second kind, with
    the application as the only process left at the timeout. *)
Example close_escalates_run :
  exists st,
    close_antigravity (Sim.os Sim.stubborn) Linux Sim.manager 3 1 true Sim.boot
      = Some (true, st)
    /\ polled (journal st) = [Sim.app; Sim.app; Sim.app; Sim.app; Sim.app]
    /\ killed (journal st) = [Sim.app].
Proof.
  eexists. repeat split.
Qed.

End CloserFacts.

(** ** Facts about the launcher *)

Module LauncherFacts.
Import Locator Launcher Journal JournalFacts.

Section WithOS.

Context {W : Type}.
Variable os : OS W.
Variable system : Platform.

Lemma lau_adds_refl (P : Event -> Prop) (st : @St W) : adds P st st.
Proof. apply extends_refl. Qed.

Lemma lau_adds_trans (P : Event -> Prop) (a b c : @St W) :
  adds P a b -> adds P b c -> adds P a c.
Proof. apply extends_trans. Qed.

Lemma lau_adds_record (P : Event -> Prop) (e : Event) (w : W) (st : @St W) :
  P e -> adds P st (record e w st).
Proof. apply extends_snoc. Qed.

Lemma not_enter_nor_uri_weaken (st st' : @St W) :
  adds not_enter_nor_uri st st' -> adds not_enter st st'.
Proof.
  apply extends_weaken. intros []; simpl; tauto.
Qed.

Lemma do_lookup_adds (st : @St W) : adds not_enter_nor_uri st (snd (do_lookup os st)).
Proof.
  unfold do_lookup. destruct (get_antigravity_executable_path os (world st)).
  apply lau_adds_record. exact I.
Qed.

Lemma do_popen_adds (argv : list string) (st : @St W) :
  adds not_enter_nor_uri st (snd (do_popen os argv st)).
Proof.
  unfold do_popen. destruct (popen os argv (world st)).
  apply lau_adds_record. exact I.
Qed.

Lemma do_open_uri_adds (uri : string) (st : @St W) :
  adds not_enter st (snd (do_open_uri os uri st)).
Proof.
  unfold do_open_uri. destruct (open_uri os uri (world st)).
  apply lau_adds_record. exact I.
Qed.

Lemma launch_adds (argv : list string) (st : @St W) :
  adds not_enter_nor_uri st (snd (launch os argv st)).
Proof.
  unfold launch. pose proof (do_popen_adds argv st) as H.
  destruct (do_popen os argv st) as [[| |] st1]; exact H.
Qed.

Lemma fallback_adds (st : @St W) :
  adds not_enter_nor_uri st (snd (executable_path_fallback os system st)).
Proof.
  unfold executable_path_fallback. destruct system.
  - apply launch_adds.
  - pose proof (do_lookup_adds st) as H.
    destruct (do_lookup os st) as [[|path [|]|] st1]; simpl in H |- *; try exact H.
    eapply lau_adds_trans; [exact H | apply launch_adds].
  - pose proof (do_lookup_adds st) as H.
    destruct (do_lookup os st) as [[|path [|]|] st1]; simpl in H |- *; try exact H.
    + pose proof (do_popen_adds ["antigravity"] st1) as H'.
      destruct (do_popen os ["antigravity"] st1) as [[| |] st2];
        simpl in H' |- *; eapply lau_adds_trans; eassumption.
    + eapply lau_adds_trans; [exact H | apply launch_adds].
    + pose proof (do_popen_adds ["antigravity"] st1) as H'.
      destruct (do_popen os ["antigravity"] st1) as [[| |] st2];
        simpl in H' |- *; eapply lau_adds_trans; eassumption.
  - apply lau_adds_refl.
Qed.

Lemma start_body_adds (use_uri : bool) (st : @St W) :
  adds not_enter st (snd (start_body os system use_uri st))
  /\ (use_uri = false -> adds not_enter_nor_uri st (snd (start_body os system use_uri st))).
Proof.
  unfold start_body. destruct use_uri.
  - split; [|discriminate].
    pose proof (do_open_uri_adds "antigravity://oauth-success" st) as H.
    destruct (do_open_uri os "antigravity://oauth-success" st) as [[[|]|] st1];
      simpl in H |- *; try exact H.
    eapply lau_adds_trans; [exact H|].
    apply not_enter_nor_uri_weaken, fallback_adds.
  - split; [apply not_enter_nor_uri_weaken|intros _]; apply fallback_adds.
Qed.

Lemma entries_app (a b : list Event) : entries (a ++ b) = entries a ++ entries b.
Proof. unfold entries. apply List.flat_map_app. Qed.

Lemma entries_not_enter (evs : list Event) : Forall not_enter evs -> entries evs = [].
Proof.
  induction 1 as [|e evs He _ IH]; [reflexivity|].
  unfold entries in *. simpl. rewrite IH. destruct e; simpl in *; tauto.
Qed.

Lemma no_uri_of_adds (evs : list Event) :
  Forall not_enter_nor_uri evs -> Forall (fun e => is_open_uri e = false) evs.
Proof. apply List.Forall_impl. intros []; simpl; tauto. Qed.

(** C6, as the code has it.  [start_antigravity] always returns, and it
    re-enters itself at most once.  Called with [use_uri = False] it never
    re-enters itself and never calls [open_uri]; when the executable-path
    fallback does not succeed it returns false.  Called with
    [use_uri = True] it re-enters itself exactly when the first attempt
    raised, and that second entry has [use_uri = False]. *)
Theorem start_retry_policy (depth : nat) (use_uri : bool) (w : W) :
  let st0 := {| world := w; journal := [Ev_enter use_uri] |} in
  exists b st,
    start_antigravity os system (S (S depth)) use_uri w = Some (b, st)
    /\ (use_uri = false ->
          entries (journal st) = [false]
          /\ Forall (fun e => is_open_uri e = false) (journal st)
          /\ (fst (executable_path_fallback os system st0) <> Return true -> b = false))
    /\ (use_uri = true ->
          (fst (start_body os system true st0) = Raised
           /\ entries (journal st) = [true; false])
          \/ (fst (start_body os system true st0) <> Raised
              /\ entries (journal st) = [true])).
Proof.
  intros st0. unfold start_antigravity. cbn [start_rec]. unfold record. cbn [world journal app].
  fold st0.
  destruct use_uri.
  - destruct (start_body_adds true st0) as [[evs [Hj He]] _].
    destruct (start_body os system true st0) as [[b|] st1] eqn:E1; cbn [snd] in Hj.
    + exists b, st1. split; [reflexivity|]. split; [discriminate|]. intros _.
      right. split; [discriminate|].
      rewrite Hj, entries_app, (entries_not_enter evs He). reflexivity.
    + set (st1' := {| world := world st1; journal := journal st1 ++ [Ev_enter false] |}).
      destruct (start_body_adds false st1') as [[evs' [Hj' He']] _].
      assert (Hent : forall st2 : @St W, journal st2 = journal st1' ++ evs' ->
                                 entries (journal st2) = [true; false]).
      { intros st2 H2. rewrite H2. unfold st1'. cbn [journal]. rewrite Hj.
        rewrite !entries_app, (entries_not_enter evs He), (entries_not_enter evs' He').
        reflexivity. }
      destruct (start_body os system false st1') as [[b|] st2] eqn:E2; cbn [snd] in Hj'.
      * exists b, st2. split; [reflexivity|]. split; [discriminate|]. intros _.
        left. split; [reflexivity | apply Hent, Hj'].
      * exists false, st2. split; [reflexivity|]. split; [discriminate|]. intros _.
        left. split; [reflexivity | apply Hent, Hj'].
  - destruct (start_body_adds false st0) as [_ Hadds].
    destruct (Hadds eq_refl) as [evs [Hj He]].
    assert (Hbody : start_body os system false st0 = executable_path_fallback os system st0)
      by reflexivity.
    assert (Hgen : forall st1 : @St W, journal st1 = journal st0 ++ evs ->
              entries (journal st1) = [false]
              /\ Forall (fun e => is_open_uri e = false) (journal st1)).
    { intros st1 H1. rewrite H1. split.
      - rewrite entries_app, (entries_not_enter evs). reflexivity.
        eapply List.Forall_impl; [|exact He]. intros []; simpl; tauto.
      - apply Forall_app. split; [repeat constructor | apply no_uri_of_adds, He]. }
    destruct (start_body os system false st0) as [[b|] st1] eqn:E1; cbn [snd] in Hj.
    + exists b, st1. split; [reflexivity|]. split; [|discriminate]. intros _.
      destruct (Hgen st1 Hj) as [H1 H2]. split; [exact H1|]. split; [exact H2|].
      rewrite <- Hbody. simpl. destruct b; [intros H; exfalso; apply H; reflexivity|reflexivity].
    + exists false, st1. split; [reflexivity|]. split; [|discriminate]. intros _.
      destruct (Hgen st1 Hj) as [H1 H2]. split; [exact H1|]. split; [exact H2|].
      reflexivity.
Qed.

End WithOS.

(** The claim of C6 as the specification words it fails: on Linux, with
    [use_uri = False], no executable path and no [antigravity] command, the
    fallback fails, and [start_antigravity] returns false after a single
    entry, without calling [open_uri], though the URI opener would have
    succeeded. *)
Lemma start_without_uri_does_not_retry :
  start_antigravity (scripted (Uri_returned true) Lookup_none File_not_found)
    Linux 2 false tt
  = Some (false,
          {| world := tt;
             journal := [Ev_enter false; Ev_lookup Lookup_none;
                         Ev_popen ["antigravity"] File_not_found] |})
  /\ ~ In (Ev_enter true)
        [Ev_enter false; Ev_lookup Lookup_none;
         Ev_popen ["antigravity"] File_not_found].
Proof.
  split; [reflexivity|]. intros [H|[H|[H|[]]]]; discriminate.
Qed.

(** A retry as the code makes it: the URI opener raises, and the second
    entry runs with [use_uri = False]. *)
Example start_retry_example :
  start_antigravity (scripted Uri_raised Lookup_none Spawned) Linux 2 true tt
  = Some (true,
          {| world := tt;
             journal := [Ev_enter true;
                         Ev_open_uri "antigravity://oauth-success" Uri_raised;
                         Ev_enter false; Ev_lookup Lookup_none;
                         Ev_popen ["antigravity"] Spawned] |}).
Proof. reflexivity. Qed.

End LauncherFacts.

(** ** Facts about backup and restore *)

Module DbFacts.
Import PyStr Db DbVocab.

(** *** The two views of the disk *)

Lemma databases_lookup (disk : Disk) (p : string) :
  databases disk !! p = as_database <$> files disk !! p.
Proof. unfold databases. apply lookup_fmap. Qed.

Lemma documents_lookup (disk : Disk) (p : string) :
  documents disk !! p = as_document <$> files disk !! p.
Proof. unfold documents. apply lookup_fmap. Qed.

Lemma databases_write_file (disk : Disk) (p q : string) (f : File) :
  databases (write_file p f disk) !! q =
    if decide (q = p) then Some (as_database f) else databases disk !! q.
Proof.
  rewrite !databases_lookup. unfold write_file. cbn [files].
  destruct (decide (q = p)) as [->|Hne].
  - rewrite lookup_insert_eq. reflexivity.
  - rewrite lookup_insert_ne by congruence. reflexivity.
Qed.

Lemma documents_write_file (disk : Disk) (p q : string) (f : File) :
  documents (write_file p f disk) !! q =
    if decide (q = p) then Some (as_document f) else documents disk !! q.
Proof.
  rewrite !documents_lookup. unfold write_file. cbn [files].
  destruct (decide (q = p)) as [->|Hne].
  - rewrite lookup_insert_eq. reflexivity.
  - rewrite lookup_insert_ne by congruence. reflexivity.
Qed.

Lemma disk_ext (d1 d2 : Disk) :
  (forall q, files d1 !! q = files d2 !! q) -> d1 = d2.
Proof.
  destruct d1 as [f1], d2 as [f2]. cbn. intros H. f_equal. apply map_eq, H.
Qed.

Section WithEnv.

Variable env : Env.

Lemma same_file_refl (a : DbFile) : same_file a a.
Proof. unfold same_file. tauto. Qed.

Lemma same_shape_refl (d : Disk) : same_shape d d.
Proof. intros p. destruct (databases d !! p); [apply same_file_refl | exact I]. Qed.

Lemma same_shape_trans (d1 d2 d3 : Disk) :
  same_shape d1 d2 -> same_shape d2 d3 -> same_shape d1 d3.
Proof.
  intros H12 H23 p. specialize (H12 p). specialize (H23 p).
  destruct (databases d1 !! p), (databases d2 !! p), (databases d3 !! p);
    try tauto.
  unfold same_file in *. intuition congruence.
Qed.

(** Whether the loop of [_restore_single_db] raises depends on the
    document, on [locked] and on the table being usable, not on the rows;
    and a loop that ends leaves the table as usable as it was. *)
Lemma restore_keys_shape (keys : list string) (doc : Json) (a b : DbFile)
    (ra rb : option (gmap string string)) (ka kb : list string) :
  locked a = locked b -> (is_Some ra <-> is_Some rb) ->
  match restore_keys env keys doc a ra ka, restore_keys env keys doc b rb kb with
  | None, None => True
  | Some (ra', _), Some (rb', _) =>
      (is_Some ra' <-> is_Some rb') /\ (is_Some ra' <-> is_Some ra)
  | _, _ => False
  end.
Proof.
  intros Hl. revert ra rb ka kb.
  induction keys as [|k keys IH]; intros ra rb ka kb Hr; simpl.
  - tauto.
  - destruct (py_in k doc) as [[|]|]; [| apply IH; exact Hr | exact I].
    destruct (py_getitem doc k) as [v|]; [|exact I].
    unfold insert_or_replace. rewrite <- Hl.
    destruct ra as [ra|], rb as [rb|].
    + destruct (locked a); [exact I|].
      assert (HP : is_Some (Some (<[k:=value_text env v]> ra))
                   <-> is_Some (Some (<[k:=value_text env v]> rb)))
        by (split; intros _; eauto).
      specialize (IH _ _ (ka ++ [k]) (kb ++ [k]) HP).
      destruct (restore_keys env keys doc a _ _) as [[ra' ?]|],
               (restore_keys env keys doc b _ _) as [[rb' ?]|]; try tauto.
      destruct IH as [IH1 IH2]. split; [exact IH1|].
      rewrite IH2. split; intros _; eauto.
    + exfalso. apply (@is_Some_None (gmap string string)). apply Hr. eauto.
    + exfalso. apply (@is_Some_None (gmap string string)). apply Hr. eauto.
    + exact I.
Qed.

(** The rows after a loop of [_restore_single_db] that ends: a key of the
    list that the document contains holds the document's value, every
    other key holds what it held. *)
Lemma restore_keys_rows (keys : list string) (doc : Json) (db : DbFile)
    (r : gmap string string) (rk : list string)
    (rows' : option (gmap string string)) (rk' : list string) :
  restore_keys env keys doc db (Some r) rk = Some (rows', rk') ->
  exists r', rows' = Some r' /\
    forall k,
      r' !! k =
        if bool_decide (k ∈ keys /\ py_in k doc = Some true)
        then value_text env <$> py_getitem doc k
        else r !! k.
Proof.
  revert r rk. induction keys as [|k0 keys IH]; intros r rk H; simpl in H.
  - injection H as <- <-. exists r. split; [reflexivity|]. intros k.
    rewrite bool_decide_eq_false_2 by (rewrite elem_of_nil; tauto). reflexivity.
  - destruct (py_in k0 doc) as [[|]|] eqn:Hin; [| |discriminate].
    + destruct (py_getitem doc k0) as [v|] eqn:Hget; [|discriminate].
      unfold insert_or_replace in H. destruct (locked db); [discriminate|].
      apply IH in H. destruct H as [r' [-> Hr']]. exists r'. split; [reflexivity|].
      intros k. rewrite Hr'.
      destruct (decide (k = k0)) as [->|Hne].
      * rewrite (bool_decide_eq_true_2 (k0 ∈ k0 :: keys /\ _))
          by (split; [apply elem_of_cons; left; reflexivity | exact Hin]).
        case_bool_decide; [reflexivity|].
        rewrite lookup_insert_eq, Hget. reflexivity.
      * rewrite lookup_insert_ne by congruence.
        apply (f_equal (fun b : bool => if b then _ else _)).
        apply bool_decide_ext. rewrite elem_of_cons. intuition congruence.
    + apply IH in H. destruct H as [r' [-> Hr']]. exists r'. split; [reflexivity|].
      intros k. rewrite Hr'.
      apply (f_equal (fun b : bool => if b then _ else _)).
      apply bool_decide_ext. rewrite elem_of_cons. intuition congruence.
Qed.

Lemma restore_keys_on_no_table (keys : list string) (doc : Json) (db : DbFile)
    (rk : list string) (rows' : option (gmap string string)) (rk' : list string) :
  restore_keys env keys doc db None rk = Some (rows', rk') ->
  rows' = None /\ forall k, k ∈ keys -> py_in k doc = Some false.
Proof.
  revert rk. induction keys as [|k0 keys IH]; intros rk H; simpl in H.
  - injection H as <- <-. split; [reflexivity|]. intros k Hk.
    apply elem_of_nil in Hk. destruct Hk.
  - destruct (py_in k0 doc) as [[|]|] eqn:Hin; [| |discriminate].
    + destruct (py_getitem doc k0); discriminate.
    + apply IH in H. destruct H as [-> H]. split; [reflexivity|].
      intros k Hk. apply elem_of_cons in Hk. destruct Hk as [->|Hk]; auto.
Qed.

(** With a document that contains none of the keys, the loop of
    [_restore_single_db] executes no statement. *)
Lemma restore_keys_none (keys : list string) (doc : Json) (db : DbFile)
    (rows : option (gmap string string)) (rk : list string) :
  (forall k, In k keys -> py_in k doc = Some false) ->
  restore_keys env keys doc db rows rk = Some (rows, rk).
Proof.
  induction keys as [|k keys IH]; intros H; simpl; [reflexivity|].
  rewrite (H k) by (left; reflexivity).
  apply IH. intros k' Hk'. apply H. right. exact Hk'.
Qed.


(** *** One call of [_restore_single_db] *)

Lemma restored_file_shape (doc : Json) (file : DbFile) :
  same_file file (restored_file env doc file).
Proof.
  unfold restored_file.
  pose proof (restore_keys_shape KEYS_TO_BACKUP doc file file
                (item_table file) (item_table file) [] [] eq_refl (iff_refl _)) as H.
  destruct (restore_keys env KEYS_TO_BACKUP doc file (item_table file) [])
    as [[rows rk]|]; [|apply same_file_refl].
  destruct H as [_ H]. unfold same_file. simpl. tauto.
Qed.

Lemma restorable_same_file (doc : Json) (a b : DbFile) :
  same_file a b -> restorable env doc a = restorable env doc b.
Proof.
  intros [Ho [Hl Hr]]. unfold restorable. rewrite Ho. f_equal.
  pose proof (restore_keys_shape KEYS_TO_BACKUP doc a b
                (item_table a) (item_table b) [] [] Hl Hr) as H.
  destruct (restore_keys env KEYS_TO_BACKUP doc a (item_table a) []) as [[? ?]|],
           (restore_keys env KEYS_TO_BACKUP doc b (item_table b) []) as [[? ?]|];
    tauto.
Qed.

(** Restoring a file a second time changes nothing. *)
Lemma restored_file_idem (doc : Json) (file : DbFile) :
  restored_file env doc (restored_file env doc file) = restored_file env doc file.
Proof.
  unfold restored_file at 2 3.
  destruct (restore_keys env KEYS_TO_BACKUP doc file (item_table file) [])
    as [[rows rk]|] eqn:E.
  2:{ unfold restored_file. rewrite E. reflexivity. }
  unfold restored_file. cbn [item_table opens locked].
  pose proof (restore_keys_shape KEYS_TO_BACKUP doc
                {| opens := opens file; item_table := rows; locked := locked file |} file
                rows (item_table file) [] [] eq_refl) as Hs.
  pose proof (restore_keys_shape KEYS_TO_BACKUP doc file file
                (item_table file) (item_table file) [] [] eq_refl (iff_refl _)) as Hs0.
  rewrite E in Hs, Hs0. destruct Hs0 as [_ Hs0]. specialize (Hs Hs0).
  destruct (restore_keys env KEYS_TO_BACKUP doc
              {| opens := opens file; item_table := rows; locked := locked file |} rows [])
    as [[rows2 rk2]|] eqn:E2; [|destruct Hs].
  f_equal. destruct (item_table file) as [r|] eqn:Hr.
  - destruct (restore_keys_rows _ _ _ _ _ _ _ E) as [r' [-> Hr']].
    destruct (restore_keys_rows _ _ _ _ _ _ _ E2) as [r'' [-> Hr'']].
    f_equal. apply map_eq. intros k. rewrite Hr'', Hr'.
    case_bool_decide; reflexivity.
  - destruct Hs as [Hs1 Hs2].
    destruct rows as [r|]; [exfalso; apply (@is_Some_None (gmap string string));
                            apply Hs0; eauto|].
    destruct rows2 as [r|]; [exfalso; apply (@is_Some_None (gmap string string));
                             apply Hs2; eauto|].
    reflexivity.
Qed.


Lemma restored_database (doc : Json) (db : DbFile) :
  restored env doc (F_database db) = F_database (restored_file env doc db).
Proof.
  unfold restored, restored_file. cbn [as_database].
  destruct (restore_keys env KEYS_TO_BACKUP doc db (item_table db) []) as [[rows rk]|];
    reflexivity.
Qed.

Lemma restored_document (doc : Json) (d : Document) :
  restored env doc (F_document d) = F_document d.
Proof.
  unfold restored. cbn [as_database item_table].
  destruct (restore_keys env KEYS_TO_BACKUP doc _ None []) as [[rows rk]|]; reflexivity.
Qed.

Lemma as_database_restored (doc : Json) (f : File) :
  as_database (restored env doc f) = restored_file env doc (as_database f).
Proof.
  destruct f as [db|d].
  - rewrite restored_database. reflexivity.
  - rewrite restored_document. unfold restored_file. cbn [as_database item_table].
    destruct (restore_keys env KEYS_TO_BACKUP doc _ None []) as [[rows rk]|] eqn:E;
      [|reflexivity].
    destruct (restore_keys_on_no_table _ _ _ _ _ _ E) as [-> _]. reflexivity.
Qed.

Lemma as_document_restored (doc : Json) (f : File) :
  as_document (restored env doc f) = as_document f.
Proof.
  destruct f as [db|d]; [rewrite restored_database | rewrite restored_document];
    reflexivity.
Qed.

Lemma restored_idem (doc : Json) (f : File) :
  restored env doc (restored env doc f) = restored env doc f.
Proof.
  destruct f as [db|d].
  - rewrite !restored_database, restored_file_idem. reflexivity.
  - rewrite !restored_document. reflexivity.
Qed.

Lemma restorable_restored (doc : Json) (f : File) :
  restorable env doc (as_database (restored env doc f))
  = restorable env doc (as_database f).
Proof.
  rewrite as_database_restored. symmetry.
  apply restorable_same_file, restored_file_shape.
Qed.

Lemma restore_single_db_eq (p : string) (doc : Json) (disk : Disk) :
  _restore_single_db env p doc disk =
    match files disk !! p with
    | Some f =>
        if restorable env doc (as_database f)
        then (true, write_file p (restored env doc f) disk)
        else (false, disk)
    | None => (false, disk)
    end.
Proof.
  unfold _restore_single_db, restorable, restored, get_db_connection.
  destruct (files disk !! p) as [f|]; [|reflexivity].
  destruct (opens (as_database f)) eqn:Ho; [|reflexivity]. cbn [andb].
  destruct (restore_keys env KEYS_TO_BACKUP doc (as_database f)
              (item_table (as_database f)) []) as [[rows rk]|]; reflexivity.
Qed.

Lemma restore_single_db_shape (p : string) (doc : Json) (disk : Disk) :
  same_shape disk (snd (_restore_single_db env p doc disk)).
Proof.
  rewrite restore_single_db_eq.
  destruct (files disk !! p) as [f|] eqn:Hp; [|apply same_shape_refl].
  destruct (restorable env doc (as_database f)); [|apply same_shape_refl].
  cbn [snd]. intros q. rewrite databases_write_file.
  destruct (decide (q = p)) as [->|Hne].
  - rewrite databases_lookup, Hp. cbn. rewrite as_database_restored.
    apply restored_file_shape.
  - destruct (databases disk !! q); [apply same_file_refl | exact I].
Qed.

(** What [_restore_single_db] returns for a path is the same on two disks
    of the same shape. *)
Lemma restore_single_db_shape_result (p : string) (doc : Json) (d1 d2 : Disk) :
  same_shape d1 d2 ->
  fst (_restore_single_db env p doc d1) = fst (_restore_single_db env p doc d2).
Proof.
  intros H. specialize (H p). rewrite !restore_single_db_eq.
  rewrite !databases_lookup in H.
  destruct (files d1 !! p) as [a|], (files d2 !! p) as [b|]; cbn in H;
    try tauto; try reflexivity.
  rewrite (restorable_same_file doc _ _ H).
  destruct (restorable env doc (as_database b)); reflexivity.
Qed.

Lemma same_shape_exists (d1 d2 : Disk) (p : string) :
  same_shape d1 d2 ->
  bool_decide (is_Some (databases d1 !! p)) = bool_decide (is_Some (databases d2 !! p)).
Proof.
  intros H. specialize (H p).
  destruct (databases d1 !! p), (databases d2 !! p); try tauto; reflexivity.
Qed.

Lemma successes_app (a b : list Attempt) : successes (a ++ b) = successes a + successes b.
Proof. unfold successes. rewrite List.filter_app, List.length_app. reflexivity. Qed.

Lemma successes_cons (p : string) (ok : bool) (l : list Attempt) :
  successes ((p, ok) :: l) = (if ok then 1 else 0) + successes l.
Proof. unfold successes. simpl. destruct ok; reflexivity. Qed.

Lemma restore_loop_spec (paths : list string) (doc : Json) (disk0 disk : Disk)
    (count : nat) (attempts : list Attempt) :
  same_shape disk0 disk ->
  exists disk',
    restore_loop env paths doc disk count attempts =
      (count + successes (map (outcome_on env disk0 doc) (candidates_of env disk0 paths)),
       attempts ++ map (outcome_on env disk0 doc) (candidates_of env disk0 paths),
       disk')
    /\ same_shape disk0 disk'.
Proof.
  revert disk count attempts.
  induction paths as [|p paths IH]; intros disk count attempts Hs.
  - exists disk. simpl. unfold successes. simpl.
    rewrite Nat.add_0_r, List.app_nil_r. auto.
  - simpl.
    pose proof (restore_single_db_shape p doc disk) as Hs1.
    pose proof (restore_single_db_shape_result p doc disk0 disk Hs) as Hr1.
    destruct (_restore_single_db env p doc disk) as [ok disk1] eqn:E1.
    simpl in Hs1, Hr1.
    assert (Hs01 : same_shape disk0 disk1) by (eapply same_shape_trans; eauto).
    pose proof (same_shape_exists disk0 disk1
                  (with_suffix env p ".vscdb.backup") Hs01) as Hex.
    destruct (databases disk1 !! with_suffix env p ".vscdb.backup") as [f1|] eqn:Eb.
    + rewrite (bool_decide_eq_true_2 (is_Some (Some f1))) in Hex by eauto.
      rewrite Hex.
      pose proof (restore_single_db_shape (with_suffix env p ".vscdb.backup") doc disk1)
        as Hs2.
      pose proof (restore_single_db_shape_result
                    (with_suffix env p ".vscdb.backup") doc disk0 disk1 Hs01) as Hr2.
      destruct (_restore_single_db env (with_suffix env p ".vscdb.backup") doc disk1)
        as [ok' disk2] eqn:E2.
      simpl in Hs2, Hr2.
      assert (Hs02 : same_shape disk0 disk2) by (eapply same_shape_trans; eauto).
      destruct (IH disk2 (if ok' then S (if ok then S count else count)
                          else (if ok then S count else count))
                  ((attempts ++ [(p, ok)])
                     ++ [(with_suffix env p ".vscdb.backup", ok')]) Hs02)
        as [disk' [Heq Hs']].
      exists disk'. split; [|exact Hs'].
      assert (O1 : outcome_on env disk0 doc p = (p, ok))
        by (unfold outcome_on; congruence).
      assert (O2 : outcome_on env disk0 doc (with_suffix env p ".vscdb.backup")
                   = (with_suffix env p ".vscdb.backup", ok'))
        by (unfold outcome_on; congruence).
      rewrite Heq. cbn [app map]. rewrite O1, O2, !successes_cons.
      rewrite <- !List.app_assoc. cbn [app].
      f_equal. f_equal. destruct ok, ok'; simpl; lia.
    + rewrite (bool_decide_eq_false_2 (is_Some None)) in Hex
        by (intros [? ?]; discriminate).
      rewrite Hex.
      destruct (IH disk1 (if ok then S count else count)
                  (attempts ++ [(p, ok)]) Hs01) as [disk' [Heq Hs']].
      exists disk'. split; [|exact Hs'].
      assert (O1 : outcome_on env disk0 doc p = (p, ok))
        by (unfold outcome_on; congruence).
      rewrite Heq. cbn [app map]. rewrite O1, successes_cons.
      rewrite <- !List.app_assoc. cbn [app].
      f_equal. f_equal. destruct ok; simpl; lia.
Qed.

Lemma successes_pos (attempts : list Attempt) :
  (0 <? successes attempts) = true <-> exists p, In (p, true) attempts.
Proof.
  unfold successes. rewrite Nat.ltb_lt. split.
  - intros H. destruct (List.filter snd attempts) as [|[p ok] l] eqn:E.
    + simpl in H. lia.
    + assert (Hin : In (p, ok) (List.filter snd attempts)) by (rewrite E; left; reflexivity).
      apply List.filter_In in Hin. destruct Hin as [Hin Hok]. simpl in Hok.
      subst ok. exists p. exact Hin.
  - intros [p Hin].
    assert (Hf : In (p, true) (List.filter snd attempts))
      by (apply List.filter_In; split; [exact Hin | reflexivity]).
    destruct (List.filter snd attempts); [destruct Hf | simpl; lia].
Qed.

(** Once the document has been read, [restore_account] makes one call of
    [_restore_single_db] per candidate, in order; each call returns what it
    would return on the disk as it was at the start, and the result is
    true when one of them returned true. *)
Lemma restore_account_parsed (path : string) (doc : Json) (disk : Disk) :
  documents disk !! path = Some (Doc_json doc) ->
  exists disk',
    restore_account env path disk =
      (0 <? successes (map (outcome_on env disk doc) (candidates env disk)),
       map (outcome_on env disk doc) (candidates env disk), disk')
    /\ same_shape disk disk'.
Proof.
  intros Hdoc. unfold restore_account. rewrite Hdoc.
  destruct (db_paths env) as [|p0 paths] eqn:Hpaths.
  - exists disk. unfold candidates. rewrite Hpaths. split; [reflexivity|].
    apply same_shape_refl.
  - destruct (restore_loop_spec (p0 :: paths) doc disk disk 0 [] (same_shape_refl disk))
      as [disk' [Heq Hs]].
    exists disk'. rewrite Heq. cbn [app]. rewrite Nat.add_0_l.
    unfold candidates. rewrite Hpaths. split; [reflexivity | exact Hs].
Qed.


(** *** The disk after a restore *)

Lemma restored_file_at_snoc (doc : Json) (done : list string) (p q : string) (f : File) :
  restored_file_at env doc (done ++ [p]) q f =
    if decide (q = p)
    then (if restorable env doc (as_database f) then restored env doc f else f)
    else restored_file_at env doc done q f.
Proof.
  unfold restored_file_at. destruct (decide (q = p)) as [->|Hne].
  - rewrite bool_decide_eq_true_2; [reflexivity|].
    apply elem_of_app. right. apply list_elem_of_singleton. reflexivity.
  - assert (H : bool_decide (q ∈ done ++ [p]) = bool_decide (q ∈ done)).
    { apply bool_decide_ext. rewrite elem_of_app, list_elem_of_singleton. tauto. }
    rewrite H. reflexivity.
Qed.

Lemma restored_file_at_app_idem (doc : Json) (d1 d2 : list string) (q : string)
    (f : File) :
  restored_file_at env doc d2 q (restored_file_at env doc d1 q f)
  = restored_file_at env doc (d1 ++ d2) q f.
Proof.
  unfold restored_file_at.
  assert (Hin : bool_decide (q ∈ d1 ++ d2) = bool_decide (q ∈ d1) || bool_decide (q ∈ d2)).
  { destruct (bool_decide (q ∈ d1)) eqn:E1, (bool_decide (q ∈ d2)) eqn:E2; simpl;
      try (apply bool_decide_eq_true_2; apply elem_of_app;
           first [left; apply bool_decide_eq_true in E1; exact E1
                 | right; apply bool_decide_eq_true in E2; exact E2]).
    apply bool_decide_eq_false_2. rewrite elem_of_app.
    apply bool_decide_eq_false in E1. apply bool_decide_eq_false in E2. tauto. }
  rewrite Hin.
  destruct (restorable env doc (as_database f)) eqn:Er.
  - destruct (bool_decide (q ∈ d1)), (bool_decide (q ∈ d2)); cbn;
      rewrite ?restorable_restored, ?Er; cbn; rewrite ?restored_idem; reflexivity.
  - rewrite !andb_false_r. cbn. rewrite Er, andb_false_r. reflexivity.
Qed.

Lemma as_database_restored_file_at (doc : Json) (done : list string) (q : string)
    (f : File) :
  as_database (restored_file_at env doc done q f)
  = restored_at env doc done q (as_database f).
Proof.
  unfold restored_file_at, restored_at.
  destruct (bool_decide (q ∈ done) && restorable env doc (as_database f));
    [apply as_database_restored | reflexivity].
Qed.

Lemma as_document_restored_file_at (doc : Json) (done : list string) (q : string)
    (f : File) :
  as_document (restored_file_at env doc done q f) = as_document f.
Proof.
  unfold restored_file_at.
  destruct (bool_decide (q ∈ done) && restorable env doc (as_database f));
    [apply as_document_restored | reflexivity].
Qed.

Lemma restore_single_db_inv (p : string) (doc : Json) (disk0 disk : Disk)
    (done : list string) :
  restore_inv_files env doc disk0 done disk ->
  restore_inv_files env doc disk0 (done ++ [p]) (snd (_restore_single_db env p doc disk)).
Proof.
  intros Hinv. rewrite restore_single_db_eq. rewrite (Hinv p).
  assert (Hother : forall q, q <> p ->
            files disk !! q = restored_file_at env doc (done ++ [p]) q <$> files disk0 !! q).
  { intros q Hne. rewrite Hinv. destruct (files disk0 !! q); [|reflexivity]. cbn.
    rewrite restored_file_at_snoc, decide_False by exact Hne. reflexivity. }
  destruct (files disk0 !! p) as [f0|] eqn:H0; cbn [fmap option_fmap option_map].
  - assert (Hr : restorable env doc (as_database (restored_file_at env doc done p f0))
                 = restorable env doc (as_database f0)).
    { unfold restored_file_at.
      destruct (bool_decide (p ∈ done) && restorable env doc (as_database f0));
        [apply restorable_restored | reflexivity]. }
    assert (Hf : restored env doc (restored_file_at env doc done p f0)
                 = restored env doc f0).
    { unfold restored_file_at.
      destruct (bool_decide (p ∈ done) && restorable env doc (as_database f0));
        [apply restored_idem | reflexivity]. }
    rewrite Hr. destruct (restorable env doc (as_database f0)) eqn:Er; cbn [snd].
    + intros q. unfold write_file. cbn [files].
      destruct (decide (q = p)) as [->|Hne].
      * rewrite lookup_insert_eq, H0. cbn. rewrite restored_file_at_snoc.
        rewrite decide_True by reflexivity. rewrite Er, Hf. reflexivity.
      * rewrite lookup_insert_ne by congruence. apply Hother, Hne.
    + intros q. destruct (decide (q = p)) as [->|Hne]; [|apply Hother, Hne].
      rewrite Hinv, H0. cbn. rewrite restored_file_at_snoc, decide_True by reflexivity.
      rewrite Er. unfold restored_file_at. rewrite Er, andb_false_r. reflexivity.
  - cbn [snd]. intros q. destruct (decide (q = p)) as [->|Hne]; [|apply Hother, Hne].
    rewrite Hinv, H0. reflexivity.
Qed.

Lemma candidates_of_cons (disk : Disk) (p : string) (paths : list string) :
  candidates_of env disk (p :: paths) =
    (p :: (if bool_decide (is_Some (databases disk !! with_suffix env p ".vscdb.backup"))
           then [with_suffix env p ".vscdb.backup"] else []))
    ++ candidates_of env disk paths.
Proof. reflexivity. Qed.


Lemma restore_loop_inv (paths : list string) (doc : Json) (disk0 disk : Disk)
    (done : list string) (count : nat) (attempts : list Attempt) :
  restore_inv_files env doc disk0 done disk ->
  restore_inv_files env doc disk0 (done ++ candidates_of env disk0 paths)
    (snd (restore_loop env paths doc disk count attempts)).
Proof.
  revert disk done count attempts.
  induction paths as [|p paths IH]; intros disk done count attempts Hinv.
  - simpl. rewrite List.app_nil_r. exact Hinv.
  - cbn [restore_loop]. rewrite candidates_of_cons.
    pose proof (restore_single_db_inv p doc disk0 disk done Hinv) as H1.
    destruct (_restore_single_db env p doc disk) as [ok disk1]. cbn [snd] in H1.
    assert (Hex : is_Some (databases disk1 !! with_suffix env p ".vscdb.backup")
                  <-> is_Some (databases disk0 !! with_suffix env p ".vscdb.backup")).
    { rewrite !databases_lookup, H1, !fmap_is_Some. reflexivity. }
    destruct (databases disk1 !! with_suffix env p ".vscdb.backup") as [f1|] eqn:Eb.
    + rewrite bool_decide_eq_true_2 by (apply Hex; eauto).
      pose proof (restore_single_db_inv (with_suffix env p ".vscdb.backup") doc disk0
                    disk1 _ H1) as H2.
      destruct (_restore_single_db env (with_suffix env p ".vscdb.backup") doc disk1)
        as [ok' disk2]. cbn [snd] in H2.
      specialize (IH disk2 _ (if ok' then S (if ok then S count else count)
                              else if ok then S count else count)
                    ((attempts ++ [(p, ok)])
                       ++ [(with_suffix env p ".vscdb.backup", ok')]) H2).
      cbn [app].
      replace (done ++ p :: with_suffix env p ".vscdb.backup"
                 :: candidates_of env disk0 paths)
        with (((done ++ [p]) ++ [with_suffix env p ".vscdb.backup"])
                ++ candidates_of env disk0 paths)
        by (rewrite <- !List.app_assoc; reflexivity).
      exact IH.
    + rewrite bool_decide_eq_false_2
        by (intros H; apply Hex in H; destruct H; discriminate).
      specialize (IH disk1 _ (if ok then S count else count) (attempts ++ [(p, ok)]) H1).
      cbn [app].
      replace (done ++ p :: candidates_of env disk0 paths)
        with ((done ++ [p]) ++ candidates_of env disk0 paths)
        by (rewrite <- !List.app_assoc; reflexivity).
      exact IH.
Qed.

(** The files after [restore_account]: those of the candidates on which
    [_restore_single_db] succeeds are restored, everything else is as it
    was. *)
Lemma restore_account_files (path : string) (doc : Json) (disk : Disk) :
  documents disk !! path = Some (Doc_json doc) ->
  restore_inv_files env doc disk (candidates env disk)
    (snd (restore_account env path disk)).
Proof.
  intros Hdoc. unfold restore_account. rewrite Hdoc.
  assert (H0 : restore_inv_files env doc disk [] disk).
  { intros q. destruct (files disk !! q); reflexivity. }
  destruct (db_paths env) as [|p0 paths] eqn:Hp.
  - unfold candidates. rewrite Hp. exact H0.
  - pose proof (restore_loop_inv (p0 :: paths) doc disk disk [] 0 [] H0) as H.
    destruct (restore_loop env (p0 :: paths) doc disk 0 []) as [[c a] d].
    unfold candidates. rewrite Hp. exact H.
Qed.

Lemma restore_inv_of_files (doc : Json) (disk0 disk : Disk) (done : list string) :
  restore_inv_files env doc disk0 done disk -> restore_inv env doc disk0 done disk.
Proof.
  intros H. split.
  - unfold documents. apply map_eq. intros q. rewrite !lookup_fmap, H.
    destruct (files disk0 !! q); [|reflexivity]. cbn.
    rewrite as_document_restored_file_at. reflexivity.
  - intros q. rewrite !databases_lookup, H.
    destruct (files disk0 !! q); [|reflexivity]. cbn.
    rewrite as_database_restored_file_at. reflexivity.
Qed.

(** The same, as [sqlite3] and [json.load] see it. *)
Lemma restore_account_disk (path : string) (doc : Json) (disk : Disk) :
  documents disk !! path = Some (Doc_json doc) ->
  restore_inv env doc disk (candidates env disk) (snd (restore_account env path disk)).
Proof. intros Hdoc. apply restore_inv_of_files, restore_account_files, Hdoc. Qed.

(** The rows of a file on which [_restore_single_db] succeeded. *)
Lemma restored_file_rows (doc : Json) (file : DbFile) (k : string) :
  restorable env doc file = true ->
  rows_of (restored_file env doc file) k =
    if bool_decide (k ∈ KEYS_TO_BACKUP /\ py_in k doc = Some true)
    then value_text env <$> py_getitem doc k
    else rows_of file k.
Proof.
  unfold restorable, restored_file, rows_of. intros Hr.
  apply andb_true_iff in Hr. destruct Hr as [_ Hr].
  destruct (restore_keys env KEYS_TO_BACKUP doc file (item_table file) [])
    as [[rows rk]|] eqn:E; [|discriminate].
  cbn [item_table]. destruct (item_table file) as [r|].
  - destruct (restore_keys_rows _ _ _ _ _ _ _ E) as [r' [-> Hr']]. apply Hr'.
  - destruct (restore_keys_on_no_table _ _ _ _ _ _ E) as [-> Hno].
    rewrite bool_decide_eq_false_2; [reflexivity|].
    intros [Hk Hin]. rewrite (Hno k Hk) in Hin. discriminate.
Qed.


Lemma attempts_true (doc : Json) (disk : Disk) (q : string) :
  In (q, true) (map (outcome_on env disk doc) (candidates env disk)) <->
  q ∈ candidates env disk
  /\ exists file, databases disk !! q = Some file /\ restorable env doc file = true.
Proof.
  rewrite List.in_map_iff. unfold outcome_on. split.
  - intros [q' [H Hin]]. rewrite restore_single_db_eq in H.
    injection H as -> H. split; [apply list_elem_of_In; exact Hin|].
    rewrite databases_lookup.
    destruct (files disk !! q) as [f|]; [|discriminate].
    exists (as_database f). split; [reflexivity|].
    destruct (restorable env doc (as_database f)); [reflexivity | discriminate].
  - intros [Hin [file [Hq Hr]]]. exists q. split; [|apply list_elem_of_In; exact Hin].
    rewrite restore_single_db_eq. rewrite databases_lookup in Hq.
    destruct (files disk !! q) as [f|]; [|discriminate].
    injection Hq as <-. rewrite Hr. reflexivity.
Qed.

Lemma attempts_false (doc : Json) (disk : Disk) (q : string) :
  q ∈ candidates env disk ->
  (forall file, databases disk !! q = Some file -> restorable env doc file = false) ->
  In (q, false) (map (outcome_on env disk doc) (candidates env disk)).
Proof.
  intros Hin Hno. apply List.in_map_iff. exists q.
  split; [|apply list_elem_of_In; exact Hin].
  unfold outcome_on. rewrite restore_single_db_eq.
  specialize (Hno (match files disk !! q with Some f => as_database f
                   | None => {| opens := false; item_table := None; locked := false |} end)).
  rewrite databases_lookup in Hno.
  destruct (files disk !! q) as [f|]; [|reflexivity].
  rewrite (Hno eq_refl). reflexivity.
Qed.

(** *** What it takes for a file to be restored *)

Lemma restore_keys_accepts (keys : list string) (doc : Json) (db : DbFile)
    (rows : option (gmap string string)) (rk : list string) :
  is_Some (restore_keys env keys doc db rows rk) <->
  forall k, k ∈ keys ->
    py_in k doc = Some false
    \/ (py_in k doc = Some true /\ is_Some (py_getitem doc k)
        /\ is_Some rows /\ locked db = false).
Proof.
  revert rows rk. induction keys as [|k0 keys IH]; intros rows rk; simpl.
  - split; [|eauto]. intros _ k Hk. apply elem_of_nil in Hk. destruct Hk.
  - destruct (py_in k0 doc) as [[|]|] eqn:Hin.
    + destruct (py_getitem doc k0) as [v|] eqn:Hget.
      * unfold insert_or_replace. destruct rows as [r|].
        -- destruct (locked db) eqn:Hl.
           ++ split; [intros [? H]; discriminate|]. intros H.
              destruct (H k0) as [H1|[_ [_ [_ H1]]]];
                [apply elem_of_cons; tauto | congruence | congruence].
           ++ rewrite IH. split.
              ** intros H k Hk. apply elem_of_cons in Hk. destruct Hk as [->|Hk].
                 --- right. rewrite Hin, Hget. eauto.
                 --- destruct (H k Hk) as [H1|[H1 [H2 _]]]; [tauto|]. right. eauto.
              ** intros H k Hk.
                 destruct (H k) as [H1|[H1 [H2 _]]];
                   [apply elem_of_cons; tauto | tauto | right; eauto].
        -- split; [intros [? H]; discriminate|]. intros H.
           destruct (H k0) as [H1|[_ [_ [[? H1] _]]]];
             [apply elem_of_cons; tauto | congruence | congruence].
      * split; [intros [? H]; discriminate|]. intros H.
        destruct (H k0) as [H1|[_ [[? H1] _]]];
          [apply elem_of_cons; tauto | congruence | congruence].
    + rewrite IH. split.
      * intros H k Hk. apply elem_of_cons in Hk. destruct Hk as [->|Hk]; [tauto|].
        apply H, Hk.
      * intros H k Hk. apply H. apply elem_of_cons. tauto.
    + split; [intros [? H]; discriminate|]. intros H.
      destruct (H k0) as [H1|[H1 _]]; [apply elem_of_cons; tauto | |]; congruence.
Qed.

Lemma restorable_accepts (doc : Json) (file : DbFile) :
  restorable env doc file = true <-> accepts doc file.
Proof.
  unfold restorable, accepts. rewrite andb_true_iff.
  rewrite <- (restore_keys_accepts KEYS_TO_BACKUP doc file (item_table file) []).
  destruct (restore_keys env KEYS_TO_BACKUP doc file (item_table file) []) as [r|].
  - split; intros [H _]; (split; [exact H | eauto]).
  - split; intros [_ H]; [discriminate | destruct H; discriminate].
Qed.

Lemma restored_file_holds (doc : Json) (file : DbFile) :
  restorable env doc file = true ->
  holds_document env doc file (restored_file env doc file).
Proof.
  intros Hr. destruct (restored_file_shape doc file) as [Ho [Hl Ht]].
  unfold holds_document. split; [congruence|]. split; [congruence|].
  split; [tauto|]. intros k. apply restored_file_rows, Hr.
Qed.

(** C7.  [restore_account] returns true exactly when, for some candidate
    database, the connection opened, the loop over the canonical keys ran
    to its end, and the file on the final disk holds the canonical keys of
    the document with every other row as before.  Once the document has
    been read there is one call of [_restore_single_db] for every
    candidate, in order; a candidate that accepts the document is updated
    and reported true, and one that does not is reported false and keeps
    its file, and neither stops the loop or changes what becomes of the
    others. *)
Theorem restore_true_iff_some_candidate_updated (path : string) (disk : Disk) :
  let '(result, attempts, disk') := restore_account env path disk in
  (result = true <->
   exists doc p,
     documents disk !! path = Some (Doc_json doc)
     /\ p ∈ candidates env disk /\ updated env doc disk disk' p)
  /\ (forall doc, documents disk !! path = Some (Doc_json doc) ->
        map fst attempts = candidates env disk
        /\ forall p, p ∈ candidates env disk ->
             (In (p, true) attempts /\ updated env doc disk disk' p)
             \/ (In (p, false) attempts
                 /\ (forall before, databases disk !! p = Some before ->
                                    ~ accepts doc before)
                 /\ databases disk' !! p = databases disk !! p)).
Proof.
  destruct (documents disk !! path) as [[|doc]|] eqn:Hdoc;
    try (unfold restore_account; rewrite Hdoc;
         split; [split; [discriminate | intros [d [p [H _]]]; discriminate]
                | intros d H; discriminate]).
  destruct (restore_account_disk path doc disk Hdoc) as [_ Hdb].
  destruct (restore_account_parsed path doc disk Hdoc) as [disk' [Heq _]].
  rewrite Heq in Hdb |- *. cbn [snd] in Hdb.
  assert (Hup : forall p, In (p, true) (map (outcome_on env disk doc) (candidates env disk))
                  -> updated env doc disk disk' p).
  { intros p Hin. apply attempts_true in Hin. destruct Hin as [Hc [file [Hf Hr]]].
    exists file, (restored_file env doc file).
    split; [exact Hf|]. split.
    - rewrite Hdb, Hf. cbn. unfold restored_at.
      rewrite bool_decide_eq_true_2 by exact Hc. rewrite Hr. reflexivity.
    - split; [apply restorable_accepts, Hr | apply restored_file_holds, Hr]. }
  assert (Hback : forall p, p ∈ candidates env disk -> updated env doc disk disk' p ->
                    In (p, true) (map (outcome_on env disk doc) (candidates env disk))).
  { intros p Hc [before [after [Hb [_ [Hacc _]]]]]. apply attempts_true.
    split; [exact Hc|]. exists before. split; [exact Hb | apply restorable_accepts, Hacc]. }
  split.
  - rewrite successes_pos. split.
    + intros [p Hin]. exists doc, p. split; [reflexivity|].
      split; [apply attempts_true in Hin; tauto | apply Hup, Hin].
    + intros [d [p [Hd [Hc Hu]]]]. injection Hd as <-. exists p. apply Hback; assumption.
  - intros d Hd. injection Hd as <-. split.
    + rewrite List.map_map. unfold outcome_on. cbn [fst]. apply List.map_id.
    + intros p Hc.
      destruct (databases disk !! p) as [file|] eqn:Hf.
      * destruct (restorable env doc file) eqn:Hr.
        -- left. assert (Hin : In (p, true)
                            (map (outcome_on env disk doc) (candidates env disk)))
             by (apply attempts_true; eauto).
           split; [exact Hin | apply Hup, Hin].
        -- right. split.
           ++ apply attempts_false; [exact Hc|]. intros f Hf'. congruence.
           ++ split.
              ** intros before Hb Hacc. injection Hb as <-.
                 apply restorable_accepts in Hacc. congruence.
              ** rewrite Hdb, Hf. cbn. unfold restored_at.
                 rewrite Hr, andb_false_r. reflexivity.
      * right. split.
        -- apply attempts_false; [exact Hc|]. intros f Hf'. congruence.
        -- split; [intros before Hb; discriminate|].
           rewrite Hdb, Hf. reflexivity.
Qed.

Lemma restore_single_db_none (p : string) (doc : Json) (disk : Disk) :
  (forall k, In k KEYS_TO_BACKUP -> py_in k doc = Some false) ->
  _restore_single_db env p doc disk =
    (match databases disk !! p with
     | Some file => opens file
     | None => false
     end, disk).
Proof.
  intros H. rewrite restore_single_db_eq, databases_lookup.
  destruct (files disk !! p) as [f|] eqn:Hp; [|reflexivity].
  cbn [fmap option_fmap option_map].
  unfold restorable, restored. rewrite (restore_keys_none _ _ _ _ _ H), andb_true_r.
  destruct (opens (as_database f)); [|reflexivity].
  f_equal. apply disk_ext. intros q. unfold write_file. cbn [files].
  destruct (decide (q = p)) as [->|Hne].
  - rewrite lookup_insert_eq, Hp. f_equal. destruct f as [[o t l]|d]; reflexivity.
  - apply lookup_insert_ne. congruence.
Qed.

Lemma restore_loop_none (paths : list string) (doc : Json) (disk : Disk)
    (count : nat) (attempts : list Attempt) :
  (forall k, In k KEYS_TO_BACKUP -> py_in k doc = Some false) ->
  snd (restore_loop env paths doc disk count attempts) = disk.
Proof.
  intros H. revert count attempts.
  induction paths as [|p paths IH]; intros count attempts; simpl; [reflexivity|].
  rewrite (restore_single_db_none p) by exact H.
  destruct (databases disk !! with_suffix env p ".vscdb.backup") eqn:Hb.
  - rewrite (restore_single_db_none (with_suffix env p ".vscdb.backup")) by exact H.
    apply IH.
  - apply IH.
Qed.

(** C10.  When the document parses and contains none of the canonical keys,
    and some candidate database exists and can be opened, [restore_account]
    returns true, every candidate that exists and opens is counted as
    restored although the loop over the keys executes no statement on it,
    and the disk is left exactly as it was. *)
Theorem restore_without_canonical_keys (path : string) (doc : Json) (disk : Disk) :
  documents disk !! path = Some (Doc_json doc) ->
  (forall k, In k KEYS_TO_BACKUP -> py_in k doc = Some false) ->
  (exists p file,
      In p (candidates env disk) /\ databases disk !! p = Some file
      /\ opens file = true) ->
  exists attempts,
    restore_account env path disk = (true, attempts, disk)
    /\ (forall p, In (p, true) attempts <->
                  In p (candidates env disk)
                  /\ exists file, databases disk !! p = Some file /\ opens file = true)
    /\ (forall file rows,
          restore_keys env KEYS_TO_BACKUP doc file rows [] = Some (rows, [])).
Proof.
  intros Hdoc Hnone [p [file [Hcand [Hp Ho]]]].
  pose proof (restore_loop_none (db_paths env) doc disk 0 [] Hnone) as Hdisk.
  destruct (restore_account_parsed path doc disk Hdoc) as [disk' [Heq _]].
  assert (Hatt : forall q,
             In (q, true) (map (outcome_on env disk doc) (candidates env disk)) <->
             In q (candidates env disk)
             /\ exists f, databases disk !! q = Some f /\ opens f = true).
  { intros q. rewrite List.in_map_iff. unfold outcome_on. split.
    - intros [q' [Hq Hin]]. rewrite restore_single_db_none in Hq by exact Hnone.
      simpl in Hq. injection Hq as -> Hok. split; [exact Hin|].
      destruct (databases disk !! q) as [f|]; [|discriminate]. eauto.
    - intros [Hin [f [Hq Hf]]]. exists q. split; [|exact Hin].
      rewrite restore_single_db_none by exact Hnone. simpl. rewrite Hq, Hf.
      reflexivity. }
  assert (Hsame : disk' = disk).
  { unfold restore_account in Heq. rewrite Hdoc in Heq.
    destruct (db_paths env) as [|p0 paths] eqn:Hpaths.
    - congruence.
    - destruct (restore_loop env (p0 :: paths) doc disk 0 []) as [[count attempts] d].
      simpl in Hdisk. congruence. }
  subst disk'.
  exists (map (outcome_on env disk doc) (candidates env disk)).
  split; [|split; [exact Hatt | intros; apply restore_keys_none; exact Hnone]].
  rewrite Heq. f_equal. f_equal. apply successes_pos. exists p. apply Hatt. eauto.
Qed.

(** [backup_account] succeeds whenever the first database exists, opens
    and has its table, and the destination can be written. *)
Lemma backup_account_succeeds (email dest db_path : string) (rest : list string)
    (file : DbFile) (rows : gmap string string) (disk : Disk) :
  db_paths env = db_path :: rest ->
  databases disk !! db_path = Some file -> opens file = true ->
  item_table file = Some rows -> writable env dest = true ->
  fst (backup_account env email dest disk) = true.
Proof.
  intros Hpaths Hfile Hopens Hrows Hw. unfold backup_account.
  rewrite Hpaths, Hfile. unfold get_db_connection. rewrite Hopens.
  unfold KEYS_TO_BACKUP, collect_keys, select_value. rewrite Hrows.
  destruct (rows !! "antigravityAuthStatus"),
           (rows !! "jetskiStateSync.agentManagerInitState");
    rewrite Hw; reflexivity.
Qed.

(** C8.  The document that a successful [backup_account] writes is an object
    whose keys are the canonical keys that have a row in the database, in
    the order of [KEYS_TO_BACKUP], followed by [account_email] and
    [backup_time], each once; a canonical key carries the string of its row
    and the two metadata keys carry the account and the time stamp. *)
Theorem backup_document_keys (email dest : string) (disk disk' : Disk) :
  backup_account env email dest disk = (true, disk') ->
  exists db_path rest file rows members,
    db_paths env = db_path :: rest
    /\ databases disk !! db_path = Some file
    /\ item_table file = Some rows
    /\ documents disk' !! dest = Some (Doc_json (J_object members))
    /\ dict_keys members = present_keys rows ++ metadata_keys
    /\ (forall k v, In (k, v) members ->
          (In k KEYS_TO_BACKUP /\ exists s, rows !! k = Some s /\ v = J_string s)
          \/ (k = "account_email" /\ v = J_string email)
          \/ (k = "backup_time" /\ v = J_string (timestamp env))).
Proof.
  unfold backup_account. intros H.
  destruct (db_paths env) as [|db_path rest] eqn:Hpaths; [discriminate|].
  destruct (databases disk !! db_path) as [file|] eqn:Hfile; [|discriminate].
  unfold get_db_connection in H. destruct (opens file); [|discriminate].
  unfold KEYS_TO_BACKUP, collect_keys, select_value in H.
  destruct (item_table file) as [rows|] eqn:Hrows; [|discriminate].
  exists db_path, rest, file, rows.
  unfold present_keys, metadata_keys, KEYS_TO_BACKUP. cbn [List.filter].
  destruct (rows !! "antigravityAuthStatus") as [s1|] eqn:H1,
           (rows !! "jetskiStateSync.agentManagerInitState") as [s2|] eqn:H2;
    destruct (writable env dest);
    try (destruct (creatable env dest); discriminate);
    injection H as <-; cbn [dict_set String.eqb Ascii.eqb Bool.eqb];
    eexists; (split; [reflexivity|]); (split; [exact Hfile|]);
    (split; [exact Hrows|]);
    (split; [rewrite documents_write_file, decide_True by reflexivity; reflexivity|]);
    (split; [reflexivity|]);
    intros k v Hin; cbn in Hin;
    repeat (destruct Hin as [Hin|Hin]; [injection Hin as <- <-|]);
    try (destruct Hin);
    first [ left; split; [simpl; tauto | eexists; split; [eassumption | reflexivity]]
          | right; left; split; reflexivity
          | right; right; split; reflexivity ].
Qed.

End WithEnv.

(** A run of C8 on the example disk: one of the two canonical keys has a
    row, and the document holds that key and the two metadata keys. *)
Lemma backup_document_keys_witness :
  exists db_path rest file rows members,
    db_paths DbSim.env = db_path :: rest
    /\ databases DbSim.disk !! db_path = Some file
    /\ item_table file = Some rows
    /\ documents (snd (backup_account DbSim.env "a@b.com" "/tmp/out.json" DbSim.disk))
         !! "/tmp/out.json" = Some (Doc_json (J_object members))
    /\ dict_keys members = present_keys rows ++ metadata_keys
    /\ (forall k v, In (k, v) members ->
          (In k KEYS_TO_BACKUP /\ exists s, rows !! k = Some s /\ v = J_string s)
          \/ (k = "account_email" /\ v = J_string "a@b.com")
          \/ (k = "backup_time" /\ v = J_string (timestamp DbSim.env))).
Proof.
  apply (backup_document_keys DbSim.env "a@b.com" "/tmp/out.json" DbSim.disk).
  reflexivity.
Defined.

Example backup_example :
  documents (snd (backup_account DbSim.env "a@b.com" "/tmp/out.json" DbSim.disk))
    !! "/tmp/out.json"
  = Some (Doc_json (J_object [("antigravityAuthStatus", J_string "token-123");
                              ("account_email", J_string "a@b.com");
                              ("backup_time", J_string "2025-01-01T00:00:00")])).
Proof. reflexivity. Qed.

(** A failing candidate does not stop the loop: the primary database cannot
    be opened, its sibling is restored, and the result is true. *)
Example restore_half_broken_example :
  let '(result, attempts, disk') :=
    restore_account DbSim.env "/tmp/own.json" DbSim.half_broken_disk in
  result = true
  /\ attempts = [(DbSim.state_db, false); (DbSim.state_db +:+ ".backup", true)]
  /\ match databases disk' !! (DbSim.state_db +:+ ".backup") with
     | Some file =>
         match item_table file with
         | Some rows => rows !! "antigravityAuthStatus"
         | None => None
         end
     | None => None
     end = Some "token-456"
  /\ databases disk' !! DbSim.state_db = Some DbSim.broken.
Proof. vm_compute. repeat split. Qed.

(** A run of C10 on the example disk: the foreign document restores
    "successfully" into the state database and changes nothing. *)
Lemma restore_without_canonical_keys_witness :
  exists attempts,
    restore_account DbSim.env "/tmp/foreign.json" DbSim.disk
      = (true, attempts, DbSim.disk)
    /\ (forall p, In (p, true) attempts <->
                  In p (candidates DbSim.env DbSim.disk)
                  /\ exists file,
                       databases DbSim.disk !! p = Some file /\ opens file = true)
    /\ (forall file rows,
          restore_keys DbSim.env KEYS_TO_BACKUP DbSim.foreign_doc file rows []
            = Some (rows, [])).
Proof.
  apply (restore_without_canonical_keys DbSim.env "/tmp/foreign.json"
           DbSim.foreign_doc DbSim.disk).
  - reflexivity.
  - intros k [<-|[<-|[]]]; reflexivity.
  - exists DbSim.state_db, DbSim.logged_in.
    split; [left; reflexivity | split; reflexivity].
Defined.

End DbFacts.

(** ** More facts about the locator *)

Module LocatorMore.
Import PyStr PyStrFacts Locator LocatorFacts.

(** Whatever [close_antigravity] would target, [is_process_running] detects:
    on every platform the predicate of the scan implies the predicate of
    the running check. *)
Lemma close_match_running_match (system : Platform) (n e : string) :
  close_match system n e = true -> running_match system n e = true.
Proof.
  destruct system; simpl; try tauto.
  rewrite !orb_true_iff, andb_true_iff. tauto.
Qed.

(** X1.  When [is_process_running] answers false on a process list, the scan
    of [close_antigravity] on the same list finds nothing to terminate,
    whoever the caller is. *)
Theorem not_running_no_targets (system : Platform) (caller : Caller) (procs : list Proc) :
  is_process_running system procs = false ->
  scan_targets system caller procs = [].
Proof.
  intros Hrun. destruct (scan_targets system caller procs) as [|p l] eqn:E; [reflexivity|].
  assert (Hin : In p (scan_targets system caller procs)) by (rewrite E; left; reflexivity).
  apply scan_targets_In in Hin. destruct Hin as [Hin Ht].
  apply is_target_inv in Ht. destruct Ht as [_ [_ Hm]].
  apply close_match_running_match in Hm.
  assert (Htrue : is_process_running system procs = true)
    by (apply is_process_running_spec; exists p; split; assumption).
  congruence.
Qed.

Lemma not_running_no_targets_witness :
  scan_targets Linux Sim.manager [Sim.shell; decoy] = [].
Proof.
  apply (not_running_no_targets Linux Sim.manager [Sim.shell; decoy]). reflexivity.
Defined.

(** X2.  On Windows no process whose lower-cased name contains "manager" is
    ever put into the termination set, wherever its executable lies. *)
Theorem windows_never_targets_manager (caller : Caller) (procs : list Proc) :
  Forall (fun p => contains "manager" (lower_or_empty (name p)) = false)
    (scan_targets Windows caller procs).
Proof.
  apply List.Forall_forall. intros p Hin.
  apply scan_targets_In in Hin. destruct Hin as [_ Ht].
  apply is_target_inv in Ht. destruct Ht as [_ [_ Hm]].
  simpl in Hm. rewrite !orb_true_iff, andb_true_iff, negb_true_iff in Hm.
  destruct Hm as [[Hn|Hn]|[_ Hm]]; [| |exact Hm];
    apply String.eqb_eq in Hn; rewrite Hn; reflexivity.
Qed.

(** X3.  A process whose name and executable path are both unavailable
    ([None] or empty) is matched on no platform, neither by the running
    check nor by the scan; and on macOS a process whose executable path is
    unavailable is not matched whatever its name. *)
Theorem unreadable_process_never_matched (caller : Caller) (p : Proc) :
  lower_or_empty (exe p) = "" ->
  (is_antigravity_running Darwin p = false /\ is_target Darwin caller p = false)
  /\ (lower_or_empty (name p) = "" ->
      forall system,
        is_antigravity_running system p = false /\ is_target system caller p = false).
Proof.
  intros He. unfold is_antigravity_running, is_target. rewrite He. split.
  - split; [reflexivity|].
    destruct (pid p =? own_pid caller)%Z; [reflexivity|].
    destruct (in_current_dir caller _); reflexivity.
  - intros Hn system. rewrite Hn. split.
    + destruct system; reflexivity.
    + destruct (pid p =? own_pid caller)%Z; [reflexivity|].
      destruct (in_current_dir caller _); [reflexivity|].
      destruct system; reflexivity.
Qed.

Lemma unreadable_process_never_matched_witness :
  (is_antigravity_running Darwin {| pid := 9; name := Some "Antigravity"; exe := None |}
     = false
   /\ is_target Darwin Sim.manager {| pid := 9; name := Some "Antigravity"; exe := None |}
      = false)
  /\ (lower_or_empty (Some "Antigravity") = "" ->
      forall system,
        is_antigravity_running system
          {| pid := 9; name := Some "Antigravity"; exe := None |} = false
        /\ is_target system Sim.manager
             {| pid := 9; name := Some "Antigravity"; exe := None |} = false).
Proof.
  apply (unreadable_process_never_matched Sim.manager
           {| pid := 9; name := Some "Antigravity"; exe := None |}).
  reflexivity.
Defined.

(** X5.  On Windows the running check accepts a process when its
    lower-cased name is "antigravity.exe" or "antigravity" or its
    lower-cased path contains "antigravity"; the scan accepts it when the
    name is one of the two, or the path contains "antigravity" and the name
    does not contain "manager".  So the two differ exactly on processes
    that match by path only and have "manager" in their name. *)
Theorem windows_locator_rule (n e : string) :
  let is_target_name := n = "antigravity.exe" \/ n = "antigravity" in
  let is_in_path := exists before after, e = before +:+ "antigravity" +:+ after in
  let is_manager := exists before after, n = before +:+ "manager" +:+ after in
  (running_match Windows n e = true <-> is_target_name \/ is_in_path)
  /\ (close_match Windows n e = true <-> is_target_name \/ (is_in_path /\ ~ is_manager))
  /\ (running_match Windows n e = true /\ close_match Windows n e = false <->
      ~ is_target_name /\ is_in_path /\ is_manager).
Proof.
  intros is_target_name is_in_path is_manager.
  assert (Hname : (String.eqb n "antigravity.exe" || String.eqb n "antigravity") = true
                  <-> is_target_name).
  { unfold is_target_name. rewrite orb_true_iff, !String.eqb_eq. tauto. }
  assert (Hpath : contains "antigravity" e = true <-> is_in_path)
    by apply contains_spec.
  assert (Hmgr : contains "manager" n = true <-> is_manager)
    by apply contains_spec.
  assert (Hrun : running_match Windows n e = true <-> is_target_name \/ is_in_path).
  { simpl. rewrite orb_true_iff. tauto. }
  assert (Hclose : close_match Windows n e = true
                   <-> is_target_name \/ (is_in_path /\ ~ is_manager)).
  { simpl. rewrite orb_true_iff, andb_true_iff, negb_true_iff.
    rewrite <- Hmgr. destruct (contains "manager" n); intuition congruence. }
  split; [exact Hrun|]. split; [exact Hclose|].
  rewrite Hrun. split.
  - intros [H1 H2]. destruct (contains "manager" n) eqn:Em.
    + assert (Hm : is_manager) by (apply Hmgr; reflexivity).
      assert (Hn : ~ is_target_name).
      { intros H. destruct Hclose as [_ Hc]. rewrite Hc in H2; [discriminate | left; exact H]. }
      tauto.
    + exfalso. assert (Hm : ~ is_manager) by (rewrite <- Hmgr; congruence).
      destruct Hclose as [_ Hc]. rewrite Hc in H2; [discriminate|]. tauto.
  - intros [H1 [H2 H3]]. split; [tauto|].
    apply not_true_is_false. intros E. apply Hclose in E. tauto.
Qed.

End LocatorMore.

(** ** More facts about the terminator *)

Module CloserMore.
Import Locator LocatorFacts Closer CloserFacts CloserVocab Journal JournalFacts.

Section WithOS.

Context {W : Type}.
Variable os : OS W.
Variable system : Platform.
Variable caller : Caller.

Local Abbreviation State := (@St W).

Lemma terminated_app (a b : list Event) : terminated (a ++ b) = terminated a ++ terminated b.
Proof. apply List.flat_map_app. Qed.

Lemma do_terminate_journal (p : Proc) (st : State) :
  journal (snd (do_terminate os p st))
  = journal st ++ [Ev_terminate p (fst (do_terminate os p st))].
Proof. unfold do_terminate. destruct (terminate os p (world st)). reflexivity. Qed.

(** X8.  Stage 2 checks every process of the termination set once, in
    order, and sends the termination signal to exactly those it saw
    running; nothing that [is_running] or [terminate] raises stops it. *)
Theorem send_terminate_spec (procs : list Proc) (st : State) :
  exists evs,
    journal (send_terminate os procs st) = journal st ++ evs
    /\ Forall stage2_event evs
    /\ polled evs = procs
    /\ terminated evs = polled_alive evs.
Proof.
  revert st. induction procs as [|p procs IH]; intros st; simpl.
  - exists []. rewrite List.app_nil_r. repeat split; constructor.
  - assert (Hgo : forall (pre : list Event) (st2 : State),
               journal st2 = journal st ++ pre -> Forall stage2_event pre ->
               terminated pre = polled_alive pre -> polled pre = [p] ->
               exists evs,
                 journal (send_terminate os procs st2) = journal st ++ evs
                 /\ Forall stage2_event evs
                 /\ polled evs = p :: procs
                 /\ terminated evs = polled_alive evs).
    { intros pre st2 Hj Hf Hk Hp. destruct (IH st2) as [evs [H1 [H2 [H3 H4]]]].
      exists (pre ++ evs). split; [|split; [|split]].
      - rewrite H1, Hj, <- List.app_assoc. reflexivity.
      - apply Forall_app. split; assumption.
      - rewrite polled_app, Hp, H3. reflexivity.
      - rewrite terminated_app, polled_alive_app, Hk, H4. reflexivity. }
    pose proof (do_is_running_journal os p st) as Hj.
    destruct (do_is_running os p st) as [r st1]. simpl in Hj.
    destruct r as [[|]|e].
    + pose proof (do_terminate_journal p st1) as Hk.
      destruct (do_terminate os p st1) as [r2 st2]. simpl in Hk |- *.
      apply (Hgo [Ev_is_running p (Ok true); Ev_terminate p r2] st2);
        [| repeat constructor | reflexivity | reflexivity].
      rewrite Hk, Hj, <- List.app_assoc. reflexivity.
    + apply (Hgo _ st1 Hj); [repeat constructor | reflexivity | reflexivity].
    + apply (Hgo _ st1 Hj); [repeat constructor | reflexivity | reflexivity].
Qed.

Lemma signals_within_incl (a b : list Proc) (e : Event) :
  incl a b -> signals_within a e -> signals_within b e.
Proof. intros Hi. destruct e; simpl; auto. Qed.

Lemma within_of_polls (procs : list Proc) (a b : State) :
  adds poll_or_sleep a b -> adds (signals_within procs) a b.
Proof. apply adds_weaken. intros []; simpl; tauto. Qed.

Lemma send_terminate_within (procs : list Proc) (st : State) :
  adds (signals_within procs) st (send_terminate os procs st).
Proof.
  revert st. induction procs as [|p procs IH]; intros st; simpl.
  - apply adds_refl.
  - assert (Hrest : forall st', adds (signals_within (p :: procs)) st'
                                  (send_terminate os procs st')).
    { intros st'. eapply adds_weaken; [|apply IH].
      intros e. apply signals_within_incl, incl_tl, incl_refl. }
    pose proof (do_is_running_adds os (signals_within (p :: procs)) p st (fun _ => I)) as H.
    destruct (do_is_running os p st) as [[[|]|e] st1]; simpl in H;
      try (eapply adds_trans; [exact H | apply Hrest]).
    eapply adds_trans; [exact H|].
    eapply adds_trans; [|apply Hrest].
    apply do_terminate_adds. intros r. left. reflexivity.
Qed.

Lemma send_kill_within (procs : list Proc) (st : State) :
  adds (signals_within procs) st (snd (send_kill os procs st)).
Proof.
  revert st. induction procs as [|p procs IH]; intros st; simpl.
  - apply adds_refl.
  - assert (Hrest : forall st', adds (signals_within (p :: procs)) st'
                                  (snd (send_kill os procs st'))).
    { intros st'. eapply adds_weaken; [|apply IH].
      intros e. apply signals_within_incl, incl_tl, incl_refl. }
    pose proof (do_is_running_adds os (signals_within (p :: procs)) p st (fun _ => I)) as H.
    destruct (do_is_running os p st) as [[[|]|e] st1]; simpl in H.
    + pose proof (do_kill_adds os (signals_within (p :: procs)) p st1
                    (fun _ => or_introl eq_refl)) as Hk.
      destruct (do_kill os p st1) as [[u|e] st2]; simpl in Hk.
      * eapply adds_trans; [exact H|]. eapply adds_trans; [exact Hk | apply Hrest].
      * destruct (caught_by_process_handler e).
        -- eapply adds_trans; [exact H|]. eapply adds_trans; [exact Hk | apply Hrest].
        -- eapply adds_trans; [exact H | exact Hk].
    + eapply adds_trans; [exact H | apply Hrest].
    + destruct (caught_by_process_handler e).
      * eapply adds_trans; [exact H | apply Hrest].
      * exact H.
Qed.

Lemma poll_running_adds (procs : list Proc) (st : State) :
  adds poll_or_sleep st (snd (poll_running os procs st)).
Proof.
  destruct (poll_running_spec os procs st) as [evs [H1 [H2 _]]].
  exists evs. split; [exact H1|].
  eapply List.Forall_impl; [|exact H2]. intros []; simpl; tauto.
Qed.

Lemma after_wait_within (force_kill : bool) (s : option (list Proc)) (procs : list Proc)
    (st : State) :
  (forall alive, s = Some alive -> incl alive procs) ->
  adds (signals_within procs) st (snd (after_wait os force_kill s st)).
Proof.
  intros Hs. unfold after_wait. destruct s as [[|p alive]|]; try apply adds_refl.
  specialize (Hs _ eq_refl).
  destruct force_kill; [|apply adds_record; exact I].
  pose proof (send_kill_within (p :: alive) st) as Hk.
  eapply adds_weaken in Hk; [|intros e; apply signals_within_incl, Hs].
  destruct (send_kill os (p :: alive) st) as [[u|e] st1]; simpl in Hk; [|exact Hk].
  eapply adds_trans; [exact Hk|].
  pose proof (poll_running_adds (p :: alive) (do_sleep os 1 st1)) as Hp.
  apply (within_of_polls procs) in Hp.
  assert (Hsl : adds (signals_within procs) st1 (do_sleep os 1 st1))
    by (apply do_sleep_adds; exact I).
  destruct (poll_running os (p :: alive) (do_sleep os 1 st1)) as [[[|q final]|e] st2];
    simpl in Hp |- *; try (eapply adds_trans; [exact Hsl | exact Hp]).
  eapply adds_trans; [exact Hsl|]. eapply adds_trans; [exact Hp|].
  apply adds_record. exact I.
Qed.

(** Every signal of a run goes to a process of the termination set. *)
Lemma close_signals_within (fuel : nat) (timeout : Q) (force_kill : bool) (w : W)
    (b : bool) (st : State) :
  close_antigravity os system caller fuel timeout force_kill w = Some (b, st) ->
  Forall (signals_within (termination_set os system caller w)) (journal st).
Proof.
  intros Hr. apply extends_from_nil.
  change (adds (signals_within (termination_set os system caller w))
            {| world := w; journal := [] |} st).
  unfold close_antigravity, close_body, termination_set in *.
  pose proof (scan_adds os system caller {| world := w; journal := [] |}) as Hscan.
  destruct (scan os system caller _) as [targets st2]. cbn [fst snd] in *.
  assert (H2 : adds (signals_within targets) {| world := w; journal := [] |} st2).
  { eapply adds_weaken; [|exact Hscan]. intros []; simpl; tauto. }
  destruct targets as [|p targets].
  - injection Hr as <- <-. exact H2.
  - set (st3 := send_terminate os (p :: targets) st2) in *.
    assert (H3 : adds (signals_within (p :: targets)) st2 st3)
      by apply send_terminate_within.
    destruct (wait_loop os fuel (clock os (world st3)) timeout (p :: targets) None st3)
      as [[r st4]|] eqn:Hloop; [|discriminate].
    assert (H4 : adds (signals_within (p :: targets)) st3 st4).
    { apply within_of_polls. eapply wait_loop_adds. exact Hloop. }
    assert (H04 : adds (signals_within (p :: targets)) {| world := w; journal := [] |} st4).
    { eapply adds_trans; [exact H2|]. eapply adds_trans; [exact H3 | exact H4]. }
    destruct r as [[b'|s]|e].
    + injection Hr as <- <-. exact H04.
    + assert (H5 : adds (signals_within (p :: targets)) st4
                     (snd (after_wait os force_kill s st4))).
      { apply after_wait_within. intros alive ->.
        destruct (wait_loop_fell_through os _ _ _ _ _ _ _ _ Hloop)
          as [_ [H|[a [H [_ Hi]]]]]; [discriminate|].
        injection H as ->. exact Hi. }
      destruct (after_wait os force_kill s st4) as [[b'|e] st5]; simpl in H5;
        injection Hr as <- <-.
      * eapply adds_trans; [exact H04 | exact H5].
      * eapply adds_trans; [exact H04|]. eapply adds_trans; [exact H5|].
        apply adds_record. exact I.
    + injection Hr as <- <-. eapply adds_trans; [exact H04|].
      apply adds_record. exact I.
Qed.

(** X6.  Whatever happens in a run of [close_antigravity], a termination
    signal or a kill only ever goes to a process of the termination set;
    in particular never to a process with the caller's own pid. *)
Theorem close_signals_only_targets (fuel : nat) (timeout : Q) (force_kill : bool)
    (w : W) (b : bool) (st : State) :
  close_antigravity os system caller fuel timeout force_kill w = Some (b, st) ->
  forall p r,
    In (Ev_terminate p r) (journal st) \/ In (Ev_kill p r) (journal st) ->
    In p (termination_set os system caller w) /\ pid p <> own_pid caller.
Proof.
  intros Hr p r Hin.
  pose proof (close_signals_within _ _ _ _ _ _ Hr) as Hall.
  rewrite List.Forall_forall in Hall.
  assert (Hp : In p (termination_set os system caller w)).
  { destruct Hin as [Hin|Hin]; exact (Hall _ Hin). }
  split; [exact Hp|].
  unfold termination_set, scan in Hp.
  destruct (process_iter os _) as [procs w']. simpl in Hp.
  apply scan_targets_In in Hp. destruct Hp as [_ Ht].
  apply (is_target_inv system caller p Ht).
Qed.

(** X7.  With [force_kill] off no kill is ever sent, however the run ends. *)
Theorem close_without_force_never_kills (fuel : nat) (timeout : Q) (w : W)
    (b : bool) (st : State) :
  close_antigravity os system caller fuel timeout false w = Some (b, st) ->
  Forall not_kill (journal st).
Proof.
  intros Hr. apply extends_from_nil.
  change (adds not_kill {| world := w; journal := [] |} st).
  assert (Hnk : forall e, stage1_event e \/ stage2_event e \/ poll_or_sleep e
                          \/ (exists m, e = Ev_error m) -> not_kill e).
  { intros e. destruct e; unfold not_kill; simpl; intros H; try reflexivity.
    destruct H as [[]|[[]|[[]|[m Hm]]]]. discriminate. }
  unfold close_antigravity, close_body in *.
  pose proof (before_wait_adds os system caller w) as Hbw. unfold before_wait in Hbw.
  pose proof (scan_adds os system caller {| world := w; journal := [] |}) as Hscan.
  destruct (scan os system caller _) as [targets st2]. cbn [fst snd] in *.
  destruct targets as [|p targets].
  - injection Hr as <- <-. eapply adds_weaken; [|exact Hscan]. intros e He. apply Hnk. tauto.
  - set (st3 := send_terminate os (p :: targets) st2) in *.
    assert (H03 : adds not_kill {| world := w; journal := [] |} st3).
    { exists (journal st3). split; [reflexivity|].
      eapply List.Forall_impl; [|exact Hbw]. intros e [He|He]; apply Hnk; tauto. }
    destruct (wait_loop os fuel (clock os (world st3)) timeout (p :: targets) None st3)
      as [[r st4]|] eqn:Hloop; [|discriminate].
    assert (H04 : adds not_kill {| world := w; journal := [] |} st4).
    { eapply adds_trans; [exact H03|].
      eapply adds_weaken; [|eapply wait_loop_adds; exact Hloop].
      intros e He. apply Hnk. tauto. }
    destruct r as [[b'|s]|e].
    + injection Hr as <- <-. exact H04.
    + unfold after_wait in Hr. destruct s as [[|q alive]|]; injection Hr as <- <-.
      * exact H04.
      * eapply adds_trans; [exact H04|]. apply adds_record. reflexivity.
      * eapply adds_trans; [exact H04|]. apply adds_record. reflexivity.
    + injection Hr as <- <-. eapply adds_trans; [exact H04|]. apply adds_record. reflexivity.
Qed.

(** *** What the result says *)

Lemma wait_loop_returned_spec (fuel : nat) (start timeout : Q) (targets : list Proc)
    (still : option (list Proc)) (st : State) (b : bool) (st' : State) :
  wait_loop os fuel start timeout targets still st = Some (Ok (Returned b), st') ->
  exists pre polls,
    journal st' = pre ++ polls /\ Forall poll_event polls
    /\ polled polls = targets /\ polled_alive polls = [].
Proof.
  revert still st. induction fuel as [|fuel IH]; intros still st H; [discriminate|].
  cbn [wait_loop] in H. destruct (Qlt_le_dec _ _); [|discriminate].
  destruct (poll_running_spec os targets st) as [evs [H1 [H2 H3]]].
  destruct (poll_running os targets st) as [[[|p alive]|e] st1];
    cbn [fst snd] in *; try discriminate.
  - injection H as <- <-. destruct H3 as [H3 H4].
    exists (journal st), evs. repeat split; auto.
  - eapply IH, H.
Qed.

(** X11.  When [close_antigravity] returns true, either there was nothing to
    terminate, or the journal ends with a pass of liveness checks, over
    processes of the termination set, in which no process was seen running
    (a check that raises NoSuchProcess or AccessDenied counts as not
    running). *)
Theorem close_true_means_seen_gone (fuel : nat) (timeout : Q) (force_kill : bool)
    (w : W) (st : State) :
  close_antigravity os system caller fuel timeout force_kill w = Some (true, st) ->
  termination_set os system caller w = []
  \/ exists pre polls,
       journal st = pre ++ polls /\ Forall poll_event polls
       /\ polled polls <> [] /\ incl (polled polls) (termination_set os system caller w)
       /\ polled_alive polls = [].
Proof.
  intros Hr. unfold close_antigravity, close_body, termination_set in *.
  destruct (scan os system caller _) as [targets st2]. cbn [fst snd] in *.
  destruct targets as [|p targets]; [left; reflexivity|]. right.
  set (st3 := send_terminate os (p :: targets) st2) in *.
  destruct (wait_loop os fuel (clock os (world st3)) timeout (p :: targets) None st3)
    as [[r st4]|] eqn:Hloop; [|discriminate].
  destruct r as [[b'|s]|e]; [| |discriminate].
  - injection Hr as -> <-.
    destruct (wait_loop_returned_spec _ _ _ _ _ _ _ _ Hloop) as [pre [polls [H1 [H2 [H3 H4]]]]].
    exists pre, polls. rewrite H3. repeat split; auto using incl_refl; discriminate.
  - destruct (wait_loop_fell_through os _ _ _ _ _ _ _ _ Hloop)
      as [_ [->|[alive [-> [Hne Hincl]]]]]; [discriminate|].
    destruct force_kill.
    + pose proof (after_wait_force_kill os alive st4 Hne) as Haw.
      destruct (after_wait os true (Some alive) st4) as [[b'|e] st5]; [|discriminate].
      injection Hr as -> <-.
      destruct Haw as [kills [polls [H1 [_ [_ [_ [H5 [H6 H7]]]]]]]].
      exists (journal st4 ++ kills ++ [Ev_sleep 1]), polls.
      rewrite H1, H6, List.app_nil_r, <- !List.app_assoc.
      repeat split; auto. apply H7. reflexivity.
    + unfold after_wait in Hr. destruct alive; [congruence | discriminate].
Qed.

(** X14.  Every false result is explained by an [error(...)] message, which
    is the last thing the run does; a run that returns true reports no
    error. *)
Theorem close_false_iff_error_reported (fuel : nat) (timeout : Q) (force_kill : bool)
    (w : W) (b : bool) (st : State) :
  close_antigravity os system caller fuel timeout force_kill w = Some (b, st) ->
  (b = false -> exists pre m, journal st = pre ++ [Ev_error m])
  /\ (b = true -> Forall not_error (journal st)).
Proof.
  intros Hr.
  assert (Hne : forall e, stage1_event e \/ stage2_event e \/ poll_or_sleep e
                          \/ poll_or_kill e -> not_error e).
  { intros e. destruct e; simpl; tauto. }
  unfold close_antigravity, close_body in *.
  pose proof (before_wait_adds os system caller w) as Hbw. unfold before_wait in Hbw.
  pose proof (scan_adds os system caller {| world := w; journal := [] |}) as Hscan.
  destruct (scan os system caller _) as [targets st2]. cbn [fst snd] in *.
  destruct targets as [|p targets].
  - injection Hr as <- <-. split; [discriminate|]. intros _.
    apply extends_from_nil in Hscan.
    eapply List.Forall_impl; [|exact Hscan]. intros e He. apply Hne. tauto.
  - set (st3 := send_terminate os (p :: targets) st2) in *.
    assert (H3 : Forall not_error (journal st3)).
    { eapply List.Forall_impl; [|exact Hbw]. intros e [He|He]; apply Hne; tauto. }
    destruct (wait_loop os fuel (clock os (world st3)) timeout (p :: targets) None st3)
      as [[r st4]|] eqn:Hloop; [|discriminate].
    assert (H4 : Forall not_error (journal st4)).
    { destruct (wait_loop_adds os _ _ _ _ _ _ _ _ Hloop) as [evs [-> Hevs]].
      apply Forall_app. split; [exact H3|].
      eapply List.Forall_impl; [|exact Hevs]. intros e He. apply Hne. tauto. }
    destruct r as [[b'|s]|e].
    + injection Hr as <- <-. rewrite (wait_loop_returned os _ _ _ _ _ _ _ _ Hloop).
      split; [discriminate | intros _; exact H4].
    + unfold after_wait in Hr. destruct s as [[|q alive]|].
      * injection Hr as <- <-. split; [discriminate | intros _; exact H4].
      * destruct force_kill.
        -- destruct (send_kill_spec os (q :: alive) st4) as [kills [K1 [K2 _]]].
           destruct (send_kill os (q :: alive) st4) as [[u|e] st5]; cbn [fst snd] in *.
           ++ destruct (poll_running_spec os (q :: alive) (do_sleep os 1 st5))
                as [polls [P1 [P2 _]]].
              destruct (poll_running os (q :: alive) (do_sleep os 1 st5))
                as [[[|q' final]|e] st6]; cbn [fst snd] in *; injection Hr as <- <-.
              ** split; [discriminate|]. intros _. rewrite P1. unfold do_sleep, record.
                 cbn [journal]. rewrite K1.
                 repeat (apply Forall_app; split); try exact H4.
                 --- eapply List.Forall_impl; [|exact K2]. intros e He. apply Hne. tauto.
                 --- repeat constructor.
                 --- eapply List.Forall_impl; [|exact P2]. intros []; simpl; tauto.
              ** split; [|discriminate]. intros _. eexists _, _. reflexivity.
              ** split; [|discriminate]. intros _. eexists _, _. reflexivity.
           ++ injection Hr as <- <-. split; [|discriminate]. intros _.
              eexists _, _. reflexivity.
        -- injection Hr as <- <-. split; [|discriminate]. intros _.
           eexists _, _. reflexivity.
      * injection Hr as <- <-. split; [|discriminate]. intros _.
        eexists _, _. reflexivity.
    + injection Hr as <- <-. split; [|discriminate]. intros _.
      eexists _, _. reflexivity.
Qed.

(** *** How long a run sleeps, and that it ends *)

Lemma slept_app (a b : list Event) : (slept (a ++ b) == slept a + slept b)%Q.
Proof.
  induction a as [|e a IH]; simpl; [lra|].
  destruct e; try exact IH. rewrite IH. lra.
Qed.

Lemma slept_not_sleep (evs : list Event) : Forall not_sleep evs -> slept evs = 0%Q.
Proof.
  induction 1 as [|e evs He _ IH]; [reflexivity|].
  destruct e; simpl in *; try exact IH. destruct He.
Qed.

Lemma sleeps_refl (st : State) : sleeps_at_most 0 st st.
Proof. exists []. rewrite List.app_nil_r. simpl. repeat split; lra. Qed.

Lemma sleeps_trans (q1 q2 q : Q) (a b c : State) :
  sleeps_at_most q1 a b -> sleeps_at_most q2 b c -> (q1 + q2 <= q)%Q ->
  sleeps_at_most q a c.
Proof.
  intros [e1 [H1 [L1 U1]]] [e2 [H2 [L2 U2]]] Hq. exists (e1 ++ e2).
  split; [rewrite H2, H1, List.app_assoc; reflexivity|].
  rewrite slept_app. split; lra.
Qed.

Lemma sleeps_of_adds (P : Event -> Prop) (a b : State) :
  (forall e, P e -> not_sleep e) -> adds P a b -> sleeps_at_most 0 a b.
Proof.
  intros HP [evs [H F]]. exists evs. split; [exact H|].
  rewrite (slept_not_sleep evs); [split; lra|].
  eapply List.Forall_impl; [exact HP | exact F].
Qed.

Lemma sleeps_do_sleep (d : Q) (st : State) :
  (0 <= d)%Q -> sleeps_at_most d st (do_sleep os d st).
Proof. intros Hd. exists [Ev_sleep d]. simpl. repeat split; lra. Qed.

Lemma sleeps_weaken (q q' : Q) (a b : State) :
  (q <= q')%Q -> sleeps_at_most q a b -> sleeps_at_most q' a b.
Proof. intros Hq [evs [H [L U]]]. exists evs. repeat split; [exact H | lra | lra]. Qed.

Lemma sleeps_record (e : Event) (w : W) (st : State) :
  not_sleep e -> sleeps_at_most 0 st (record e w st).
Proof.
  intros He. exists [e]. split; [reflexivity|].
  destruct e; simpl in *; try contradiction; split; lra.
Qed.

Lemma sleeps_poll_running (procs : list Proc) (st : State) :
  sleeps_at_most 0 st (snd (poll_running os procs st)).
Proof.
  destruct (poll_running_spec os procs st) as [evs [H1 [H2 _]]].
  apply (sleeps_of_adds poll_event); [intros []; simpl; tauto|].
  exists evs. split; assumption.
Qed.

Lemma sleeps_graceful_request (st : State) :
  sleeps_at_most 2 st (graceful_request os system st).
Proof.
  assert (Hreq : forall (s : Platform) (r : RunResult) (w : W),
             sleeps_at_most 2 st
               (let st1 := record (Ev_quit_request s) w st in
                match r with
                | Run_returned 0 => do_sleep os 2 st1
                | _ => st1
                end)).
  { intros s r w.
    assert (H1 : sleeps_at_most 0 st (record (Ev_quit_request s) w st))
      by (apply sleeps_record; exact I).
    destruct r as [[| |]|]; cbn zeta;
      try (eapply sleeps_weaken; [|exact H1]; lra).
    eapply sleeps_trans; [exact H1 | apply (sleeps_do_sleep 2); lra | lra]. }
  unfold graceful_request.
  destruct system; try (eapply sleeps_weaken; [|apply sleeps_refl]; lra);
    destruct (quit_request os _ (world st)) as [r w]; apply Hreq.
Qed.

Lemma sleeps_after_wait (force_kill : bool) (s : option (list Proc)) (st : State) :
  sleeps_at_most 1 st (snd (after_wait os force_kill s st)).
Proof.
  unfold after_wait.
  destruct s as [[|p alive]|]; try (eapply sleeps_weaken; [|apply sleeps_refl]; lra).
  destruct force_kill;
    [|eapply sleeps_weaken; [|apply sleeps_record; exact I]; lra].
  assert (Hk : sleeps_at_most 0 st (snd (send_kill os (p :: alive) st))).
  { destruct (send_kill_spec os (p :: alive) st) as [evs [K1 [K2 _]]].
    apply (sleeps_of_adds poll_or_kill); [intros []; simpl; tauto|].
    exists evs. split; assumption. }
  destruct (send_kill os (p :: alive) st) as [[u|e] st1]; simpl in Hk;
    [|eapply sleeps_weaken; [|exact Hk]; lra].
  pose proof (sleeps_poll_running (p :: alive) (do_sleep os 1 st1)) as Hp.
  assert (Hs : sleeps_at_most 1 st (snd (poll_running os (p :: alive) (do_sleep os 1 st1)))).
  { eapply sleeps_trans; [exact Hk| |].
    - eapply sleeps_trans; [apply (sleeps_do_sleep 1); lra | exact Hp | apply Qle_refl].
    - lra. }
  destruct (poll_running os (p :: alive) (do_sleep os 1 st1)) as [[[|q final]|e] st2];
    simpl in Hs |- *; try exact Hs.
  eapply sleeps_trans; [exact Hs | apply sleeps_record; exact I | lra].
Qed.

Section Clock.

Hypothesis laws : ClockLaws os.

(** The loop asks for no sleep once the timeout has passed, and otherwise
    for at most the time that is left plus one interval. *)
Lemma sleeps_wait_loop (fuel : nat) (start timeout : Q) (targets : list Proc)
    (still : option (list Proc)) (st : State) (r : Exc LoopExit) (st' : State) :
  wait_loop os fuel start timeout targets still st = Some (r, st') ->
  ((timeout - (clock os (world st) - start) <= 0)%Q -> sleeps_at_most 0 st st')
  /\ ((0 < timeout - (clock os (world st) - start))%Q ->
      sleeps_at_most (timeout - (clock os (world st) - start) + (1 # 2)) st st').
Proof.
  revert still st. induction fuel as [|fuel IH]; intros still st H; [discriminate|].
  cbn [wait_loop] in H. destruct (Qlt_le_dec _ _) as [Hlt|Hle].
  - split; [intros Hrem; exfalso; lra|]. intros Hrem.
    pose proof (sleeps_poll_running targets st) as Hp.
    pose proof (poll_running_clock os laws targets st) as Hc.
    destruct (poll_running os targets st) as [[[|p alive]|e] st1]; simpl in Hp, Hc.
    + injection H as <- <-. eapply sleeps_weaken; [|exact Hp]. lra.
    + pose proof (do_sleep_clock os laws (1 # 2) st1) as Hs.
      apply IH in H. destruct H as [H0 H1].
      destruct (Qlt_le_dec 0 (timeout - (clock os (world (do_sleep os (1 # 2) st1)) - start)))
        as [Hpos|Hneg].
      * eapply sleeps_trans; [exact Hp| |].
        -- eapply sleeps_trans; [apply (sleeps_do_sleep (1 # 2)); lra | exact (H1 Hpos) |
                                  apply Qle_refl].
        -- lra.
      * eapply sleeps_trans; [exact Hp| |].
        -- eapply sleeps_trans; [apply (sleeps_do_sleep (1 # 2)); lra | exact (H0 Hneg) |
                                  apply Qle_refl].
        -- lra.
    + injection H as <- <-. eapply sleeps_weaken; [|exact Hp]. lra.
  - injection H as <- <-. split; intros Hrem.
    + apply sleeps_refl.
    + exfalso. lra.
Qed.

(** X9.  A run of [close_antigravity] asks [time.sleep] for at most
    [timeout + 3.5] time units in all when the timeout is positive (2 after
    the exit request, the timeout and one interval in the loop, 1 before
    the final check), and for at most 2 when it is not. *)
Theorem close_sleep_bound (fuel : nat) (timeout : Q) (force_kill : bool) (w : W)
    (b : bool) (st : State) :
  close_antigravity os system caller fuel timeout force_kill w = Some (b, st) ->
  ((0 < timeout)%Q -> (slept (journal st) <= timeout + (7 # 2))%Q)
  /\ ((timeout <= 0)%Q -> (slept (journal st) <= 2)%Q).
Proof.
  intros Hr.
  assert (Hgoal : ((0 < timeout)%Q ->
                   sleeps_at_most (timeout + (7 # 2)) {| world := w; journal := [] |} st)
                  /\ ((timeout <= 0)%Q ->
                      sleeps_at_most 2 {| world := w; journal := [] |} st)).
  { unfold close_antigravity, close_body in Hr.
    assert (H2 : sleeps_at_most 2 {| world := w; journal := [] |}
                   (snd (scan os system caller {| world := w; journal := [] |}))).
    { unfold scan.
      pose proof (sleeps_graceful_request {| world := w; journal := [] |}) as Hg.
      destruct (process_iter os _) as [procs w']. exact Hg. }
    destruct (scan os system caller _) as [targets st2]. cbn [fst snd] in *.
    destruct targets as [|p targets].
    - injection Hr as <- <-. split; intros Ht; [|exact H2].
      eapply sleeps_weaken; [|exact H2]. lra.
    - set (st3 := send_terminate os (p :: targets) st2) in *.
      assert (H3 : sleeps_at_most 2 {| world := w; journal := [] |} st3).
      { eapply sleeps_trans; [exact H2| |].
        - apply (sleeps_of_adds stage2_event); [intros []; simpl; tauto|].
          apply send_terminate_adds.
        - lra. }
      destruct (wait_loop os fuel (clock os (world st3)) timeout (p :: targets) None st3)
        as [[r st4]|] eqn:Hloop; [|discriminate].
      destruct (sleeps_wait_loop _ _ _ _ _ _ _ _ Hloop) as [Hw0 Hw1].
      assert (H4 : ((0 < timeout)%Q ->
                    sleeps_at_most (timeout + (5 # 2)) {| world := w; journal := [] |} st4)
                   /\ ((timeout <= 0)%Q ->
                       sleeps_at_most 2 {| world := w; journal := [] |} st4)).
      { split; intros Ht.
        - eapply sleeps_trans; [exact H3 | apply Hw1; lra | lra].
        - eapply sleeps_trans; [exact H3 | apply Hw0; lra | lra]. }
      destruct H4 as [H4p H4n].
      destruct r as [[b'|s]|e].
      + injection Hr as <- <-. split; intros Ht; [|exact (H4n Ht)].
        eapply sleeps_weaken; [|exact (H4p Ht)]. lra.
      + pose proof (sleeps_after_wait force_kill s st4) as H5.
        assert (Hs : (timeout <= 0)%Q -> s = None).
        { intros Ht. destruct fuel as [|fuel']; [discriminate|].
          cbn [wait_loop] in Hloop.
          destruct (Qlt_le_dec _ _) as [Hlt|Hle]; [exfalso; lra|].
          congruence. }
        destruct (after_wait os force_kill s st4) as [[b'|e] st5] eqn:Ea;
          simpl in H5; injection Hr as <- <-.
        * split; intros Ht.
          -- eapply sleeps_trans; [exact (H4p Ht) | exact H5 | lra].
          -- rewrite (Hs Ht) in Ea. discriminate.
        * split; intros Ht.
          -- eapply sleeps_trans; [exact (H4p Ht)| |].
             ++ eapply sleeps_trans; [exact H5 | apply sleeps_record; exact I | apply Qle_refl].
             ++ lra.
          -- rewrite (Hs Ht) in Ea. unfold after_wait in Ea. injection Ea as <- <-.
             eapply sleeps_trans; [exact (H4n Ht) | apply sleeps_record; exact I | lra].
      + injection Hr as <- <-. split; intros Ht.
        * eapply sleeps_trans; [exact (H4p Ht) | apply sleeps_record; exact I | lra].
        * eapply sleeps_trans; [exact (H4n Ht) | apply sleeps_record; exact I | lra]. }
  destruct Hgoal as [Hp Hn]. split; intros Ht.
  - destruct (Hp Ht) as [evs [E [_ U]]]. simpl in E. subst. exact U.
  - destruct (Hn Ht) as [evs [E [_ U]]]. simpl in E. subst. exact U.
Qed.

Lemma close_fuel_mono (fuel fuel' : nat) (timeout : Q) (force_kill : bool) (w : W)
    (r : bool * State) :
  fuel <= fuel' ->
  close_antigravity os system caller fuel timeout force_kill w = Some r ->
  close_antigravity os system caller fuel' timeout force_kill w = Some r.
Proof.
  intros Hle. unfold close_antigravity, close_body.
  destruct (scan os system caller _) as [[|p targets] st2]; [tauto|].
  destruct (wait_loop os fuel _ timeout (p :: targets) None _) as [x|] eqn:E;
    [|discriminate].
  rewrite (wait_loop_fuel_mono os _ fuel' _ _ _ _ _ x Hle E). tauto.
Qed.

(** X10.  [close_antigravity] ends, and the loop condition is evaluated at
    most [ceil(2 * timeout) + 1] times: with that much fuel or more the run
    returns, and always the same result. *)
Theorem close_ends_within_fuel (timeout : Q) (force_kill : bool) (w : W) :
  exists r,
    forall fuel, enough_fuel timeout <= fuel ->
      close_antigravity os system caller fuel timeout force_kill w = Some r.
Proof.
  destruct (close_terminates os system caller laws timeout force_kill w
              (enough_fuel timeout) (Nat.le_refl _)) as [r Hr].
  exists r. intros fuel Hfuel. eapply close_fuel_mono; eassumption.
Qed.

End Clock.

End WithOS.

Lemma close_sleep_bound_witness :
  ((0 < 1)%Q -> (slept (journal SimRuns.stubborn_final) <= 1 + (7 # 2))%Q)
  /\ ((1 <= 0)%Q -> (slept (journal SimRuns.stubborn_final) <= 2)%Q).
Proof.
  apply (close_sleep_bound (Sim.os Sim.stubborn) Linux Sim.manager
           (sim_clock_laws Sim.stubborn) 3 1 true Sim.boot true SimRuns.stubborn_final).
  reflexivity.
Defined.

Lemma close_ends_within_fuel_witness :
  exists r,
    forall fuel, enough_fuel 1 <= fuel ->
      close_antigravity (Sim.os Sim.stubborn) Linux Sim.manager fuel 1 true Sim.boot
        = Some r.
Proof.
  apply (close_ends_within_fuel (Sim.os Sim.stubborn) Linux Sim.manager
           (sim_clock_laws Sim.stubborn) 1 true Sim.boot).
Defined.

Lemma close_true_means_seen_gone_witness :
  termination_set (Sim.os Sim.stubborn) Linux Sim.manager Sim.boot = []
  \/ exists pre polls,
       journal SimRuns.stubborn_final = pre ++ polls /\ Forall poll_event polls
       /\ polled polls <> []
       /\ incl (polled polls)
            (termination_set (Sim.os Sim.stubborn) Linux Sim.manager Sim.boot)
       /\ polled_alive polls = [].
Proof.
  apply (close_true_means_seen_gone (Sim.os Sim.stubborn) Linux Sim.manager
           3 1 true Sim.boot SimRuns.stubborn_final).
  reflexivity.
Defined.

Lemma close_false_iff_error_reported_witness :
  (false = false ->
   exists pre m, journal SimRuns.stubborn_unforced_final = pre ++ [Ev_error m])
  /\ (false = true -> Forall not_error (journal SimRuns.stubborn_unforced_final)).
Proof.
  apply (close_false_iff_error_reported (Sim.os Sim.stubborn) Linux Sim.manager
           3 1 false Sim.boot false SimRuns.stubborn_unforced_final).
  reflexivity.
Defined.

(** A run of the escalation lemma of [CloserFacts]. *)
Lemma close_escalates_positive_timeout_witness :
  (true = true
   /\ adds poll_or_sleep (before_wait (Sim.os Sim.stubborn) Linux Sim.manager Sim.boot)
        SimRuns.stubborn_final)
  \/ (exists (st4 : @St Sim.World) alive kills polls,
        adds poll_or_sleep (before_wait (Sim.os Sim.stubborn) Linux Sim.manager Sim.boot)
          st4
        /\ alive <> []
        /\ incl alive (termination_set (Sim.os Sim.stubborn) Linux Sim.manager Sim.boot)
        /\ journal SimRuns.stubborn_final =
             journal st4 ++ kills ++ [Ev_sleep 1] ++ polls
               ++ (if true then []
                   else [Ev_error (Cannot_terminate (names_of (polled_alive polls)))])
        /\ polled kills = alive /\ killed kills = polled_alive kills
        /\ Forall poll_or_kill kills
        /\ polled polls = alive /\ Forall poll_event polls
        /\ (true = true <-> polled_alive polls = []))
  \/ (exists (e : Exn) (st5 : @St Sim.World),
        caught_by_process_handler e = false /\ true = false
        /\ journal SimRuns.stubborn_final = journal st5 ++ [Ev_error (Close_exception e)]).
Proof.
  apply (close_escalates_positive_timeout (Sim.os Sim.stubborn) Linux Sim.manager
           3 1 Sim.boot true SimRuns.stubborn_final).
  - reflexivity.
  - discriminate.
  - reflexivity.
Defined.

Lemma close_signals_only_targets_witness :
  close_antigravity (Sim.os Sim.stubborn) Linux Sim.manager 3 1 true Sim.boot
    = Some (true, SimRuns.stubborn_final)
  /\ forall p r,
       In (Ev_terminate p r) (journal SimRuns.stubborn_final)
       \/ In (Ev_kill p r) (journal SimRuns.stubborn_final) ->
       In p (termination_set (Sim.os Sim.stubborn) Linux Sim.manager Sim.boot)
       /\ pid p <> own_pid Sim.manager.
Proof.
  split; [reflexivity|].
  apply (close_signals_only_targets (Sim.os Sim.stubborn) Linux Sim.manager
           3 1 true Sim.boot true SimRuns.stubborn_final).
  reflexivity.
Defined.

Lemma close_without_force_never_kills_witness :
  Forall not_kill (journal SimRuns.stubborn_unforced_final).
Proof.
  apply (close_without_force_never_kills (Sim.os Sim.stubborn) Linux Sim.manager
           3 1 Sim.boot false SimRuns.stubborn_unforced_final).
  reflexivity.
Defined.

End CloserMore.

(** ** More facts about the launcher *)

Module LauncherMore.
Import Locator Launcher LauncherFacts LauncherVocab Journal JournalFacts.

Section WithOS.

Context {W : Type}.
Variable os : OS W.

Local Abbreviation State := (@St W).

Lemma ends_on_record (a : Attempt) (e : Event) (w : W) (st : State) :
  is_dispatch e = attempt_ok a -> ends_on a st (record e w st).
Proof. intros H. exists [], e. split; [reflexivity | exact H]. Qed.

Lemma ends_on_after (a : Attempt) (e : Event) (w : W) (st st' : State) :
  ends_on a (record e w st) st' -> ends_on a st st'.
Proof.
  intros [evs [e' [H1 H2]]]. exists (e :: evs), e'. split; [|exact H2].
  rewrite H1. unfold record. cbn [journal]. rewrite <- List.app_assoc. reflexivity.
Qed.

Lemma launch_ends (argv : list string) (st : State) :
  ends_on (fst (launch os argv st)) st (snd (launch os argv st)).
Proof.
  unfold launch, do_popen. destruct (popen os argv (world st)) as [[| |] w];
    apply ends_on_record; reflexivity.
Qed.

Lemma fallback_ends (system : Platform) (st : State) :
  is_known system = true ->
  ends_on (fst (executable_path_fallback os system st)) st
    (snd (executable_path_fallback os system st)).
Proof.
  intros Hk. unfold executable_path_fallback.
  destruct system; [| | |discriminate].
  - apply launch_ends.
  - unfold do_lookup. destruct (get_antigravity_executable_path os (world st))
      as [[|path [|]|] w]; cbn [fst snd];
      try (apply ends_on_record; reflexivity).
    eapply ends_on_after.
    pose proof (launch_ends [path] (record (Ev_lookup (Lookup_path path true)) w st)) as H.
    destruct (launch os [path] _) as [a st2]. exact H.
  - unfold do_lookup. destruct (get_antigravity_executable_path os (world st))
      as [[|path [|]|] w]; cbn [fst snd];
      try (apply ends_on_record; reflexivity).
    + eapply ends_on_after. unfold do_popen.
      destruct (popen os ["antigravity"] _) as [[| |] w2]; cbn [fst snd];
        apply ends_on_record; reflexivity.
    + eapply ends_on_after.
      pose proof (launch_ends [path] (record (Ev_lookup (Lookup_path path true)) w st)) as H.
      destruct (launch os [path] _) as [a st2]. exact H.
    + eapply ends_on_after. unfold do_popen.
      destruct (popen os ["antigravity"] _) as [[| |] w2]; cbn [fst snd];
        apply ends_on_record; reflexivity.
Qed.

Lemma start_body_ends (system : Platform) (use_uri : bool) (st : State) :
  is_known system = true ->
  ends_on (fst (start_body os system use_uri st)) st
    (snd (start_body os system use_uri st)).
Proof.
  intros Hk. unfold start_body. destruct use_uri; [|apply fallback_ends, Hk].
  unfold do_open_uri. destruct (open_uri os _ (world st)) as [[[|]|] w]; cbn [fst snd];
    try (apply ends_on_record; reflexivity).
  eapply ends_on_after.
  pose proof (fallback_ends system
                (record (Ev_open_uri "antigravity://oauth-success" (Uri_returned false)) w st)
                Hk) as H.
  destruct (executable_path_fallback os system _) as [a st2]. exact H.
Qed.

Lemma ends_on_last (a : Attempt) (st st' : State) (d : Event) :
  ends_on a st st' -> is_dispatch (List.last (journal st') d) = attempt_ok a.
Proof. intros [evs [e [-> H]]]. rewrite List.app_assoc, List.last_last. exact H. Qed.

(** X15.  On macOS, Windows and Linux [start_antigravity] returns true
    exactly when the last call it made dispatched a launch: [open_uri]
    returned true or [Popen] started a process.  It reports a dispatch, not
    that the application came up. *)
Theorem start_true_iff_dispatched (system : Platform) (depth : nat) (use_uri : bool)
    (w : W) (b : bool) (st : State) :
  is_known system = true ->
  start_antigravity os system (S (S depth)) use_uri w = Some (b, st) ->
  b = is_dispatch (List.last (journal st) (Ev_enter use_uri)).
Proof.
  intros Hk. unfold start_antigravity. cbn [start_rec].
  set (st0 := record (Ev_enter use_uri) _ _).
  pose proof (start_body_ends system use_uri st0 Hk) as H1.
  destruct (start_body os system use_uri st0) as [[b1|] st1]; cbn [fst snd] in H1;
    cbv beta iota.
  - intros H. injection H as <- <-.
    rewrite (ends_on_last _ _ _ _ H1). destruct b1; reflexivity.
  - destruct use_uri.
    + set (st1' := record (Ev_enter false) (world st1) st1).
      pose proof (start_body_ends system false st1' Hk) as H2.
      destruct (start_body os system false st1') as [[b2|] st2]; cbn [fst snd] in H2;
        cbv beta iota; intros H; injection H as <- <-; rewrite (ends_on_last _ _ _ _ H2);
        [destruct b2|]; reflexivity.
    + intros H. injection H as <- <-. rewrite (ends_on_last _ _ _ _ H1). reflexivity.
Qed.

(** X16.  On any other platform [start_antigravity] returns true whatever
    happens, and it never looks up the executable nor starts a process:
    with [use_uri] off it reports success without having done anything. *)
Theorem start_unknown_platform (name : string) (depth : nat) (use_uri : bool) (w : W) :
  exists st,
    start_antigravity os (OtherSystem name) (S (S depth)) use_uri w = Some (true, st)
    /\ Forall not_launch (journal st)
    /\ (use_uri = false -> journal st = [Ev_enter false]).
Proof.
  unfold start_antigravity. cbn [start_rec]. unfold start_body, executable_path_fallback.
  destruct use_uri.
  - unfold do_open_uri, record. cbn [world journal app].
    destruct (open_uri os _ w) as [[[|]|] w1]; cbn [world journal app];
      eexists; (split; [reflexivity|]); (split; [repeat constructor | discriminate]).
  - eexists. split; [reflexivity|]. split; [repeat constructor | reflexivity].
Qed.

Lemma uri_calls_app (a b : list Event) : uri_calls (a ++ b) = uri_calls a + uri_calls b.
Proof. unfold uri_calls. rewrite List.filter_app, List.length_app. reflexivity. Qed.

Lemma uri_calls_none (evs : list Event) : Forall not_enter_nor_uri evs -> uri_calls evs = 0.
Proof.
  induction 1 as [|e evs He _ IH]; [reflexivity|].
  unfold uri_calls in *. simpl. destruct e; simpl in *; tauto.
Qed.

Lemma fallback_uri_calls (system : Platform) (st : State) :
  uri_calls (journal (snd (executable_path_fallback os system st)))
  = uri_calls (journal st).
Proof.
  destruct (fallback_adds os system st) as [evs [H F]].
  rewrite H, uri_calls_app, (uri_calls_none evs F). lia.
Qed.

(** X17.  [open_uri] is called exactly once in a run with [use_uri] on,
    retry included, and never in a run with [use_uri] off.  When it returns
    true it is the only call of the run. *)
Theorem start_calls_uri_once (system : Platform) (depth : nat) (use_uri : bool) (w : W) :
  exists b st,
    start_antigravity os system (S (S depth)) use_uri w = Some (b, st)
    /\ uri_calls (journal st) = (if use_uri then 1 else 0)
    /\ (use_uri = true ->
        fst (open_uri os "antigravity://oauth-success" w) = Uri_returned true ->
        b = true
        /\ journal st = [Ev_enter true;
                         Ev_open_uri "antigravity://oauth-success" (Uri_returned true)]).
Proof.
  unfold start_antigravity. cbn [start_rec]. unfold record. cbn [world journal app].
  destruct use_uri.
  - unfold start_body at 1. unfold do_open_uri, record. cbn [world journal app].
    destruct (open_uri os _ w) as [[[|]|] w1]; cbn [fst].
    + eexists _, _. split; [reflexivity|]. split; [reflexivity|].
      intros _ _. split; reflexivity.
    + pose proof (fallback_uri_calls system
                    {| world := w1;
                       journal := [Ev_enter true;
                                   Ev_open_uri "antigravity://oauth-success"
                                     (Uri_returned false)] |}) as Hf.
      destruct (executable_path_fallback os system _) as [[b1|] st1]; cbn [snd] in Hf.
      * eexists _, _. split; [reflexivity|]. split; [exact Hf | discriminate].
      * pose proof (fallback_uri_calls system
                      {| world := world st1; journal := journal st1 ++ [Ev_enter false] |})
          as Hf2.
        cbn [journal] in Hf2. rewrite uri_calls_app, Hf in Hf2.
        unfold start_body.
        destruct (executable_path_fallback os system _) as [[b2|] st2]; cbn [snd] in Hf2;
          eexists _, _; (split; [reflexivity|]); (split; [exact Hf2 | discriminate]).
    + pose proof (fallback_uri_calls system
                    {| world := w1;
                       journal := [Ev_enter true;
                                   Ev_open_uri "antigravity://oauth-success" Uri_raised]
                                    ++ [Ev_enter false] |}) as Hf2.
      unfold start_body. cbn [journal world app] in *.
      destruct (executable_path_fallback os system _) as [[b2|] st2]; cbn [snd] in Hf2;
        eexists _, _; (split; [reflexivity|]); (split; [exact Hf2 | discriminate]).
  - unfold start_body.
    pose proof (fallback_uri_calls system {| world := w; journal := [Ev_enter false] |})
      as Hf.
    destruct (executable_path_fallback os system _) as [[b1|] st1]; cbn [snd] in Hf;
      eexists _, _; (split; [reflexivity|]); (split; [exact Hf | discriminate]).
Qed.

End WithOS.

Lemma start_true_iff_dispatched_witness :
  true = is_dispatch
           (List.last
              [Ev_enter true; Ev_open_uri "antigravity://oauth-success" Uri_raised;
               Ev_enter false; Ev_lookup Lookup_none; Ev_popen ["antigravity"] Spawned]
              (Ev_enter true)).
Proof.
  apply (start_true_iff_dispatched (scripted Uri_raised Lookup_none Spawned) Linux 0 true tt
           true
           {| world := tt;
              journal := [Ev_enter true;
                          Ev_open_uri "antigravity://oauth-success" Uri_raised;
                          Ev_enter false; Ev_lookup Lookup_none;
                          Ev_popen ["antigravity"] Spawned] |}).
  - reflexivity.
  - reflexivity.
Defined.

End LauncherMore.

(** ** More facts about backup and restore *)

Module DbMore.
Import PyStr Db DbVocab DbFacts.

Section WithEnv.

Variable env : Env.

(** *** Backup *)

Lemma backup_account_cases (email dest : string) (disk : Disk) :
  (exists db_path rest file rows,
      db_paths env = db_path :: rest /\ databases disk !! db_path = Some file
      /\ opens file = true /\ item_table file = Some rows /\ writable env dest = true
      /\ backup_account env email dest disk =
           (true,
            write_file dest
              (F_document (Doc_json (J_object (backup_members env rows email)))) disk))
  \/ ((backup_account env email dest disk = (false, disk)
       \/ (creatable env dest = true
           /\ backup_account env email dest disk =
                (false, write_file dest (F_document Doc_unparseable) disk)))
      /\ ~ exists db_path rest file rows,
            db_paths env = db_path :: rest /\ databases disk !! db_path = Some file
            /\ opens file = true /\ item_table file = Some rows
            /\ writable env dest = true).
Proof.
  unfold backup_account.
  destruct (db_paths env) as [|db_path rest] eqn:Hp.
  { right. split; [left; reflexivity|]. intros [? [? [? [? [H _]]]]]. discriminate. }
  destruct (databases disk !! db_path) as [file|] eqn:Hf.
  2:{ right. split; [left; reflexivity|]. intros [? [? [? [? [H [H' _]]]]]].
      injection H as <- <-. congruence. }
  unfold get_db_connection. destruct (opens file) eqn:Ho.
  2:{ right. split; [left; reflexivity|]. intros [? [? [? [? [H [H' [H'' _]]]]]]].
      injection H as <- <-. congruence. }
  unfold KEYS_TO_BACKUP, collect_keys, select_value.
  destruct (item_table file) as [rows|] eqn:Hr.
  2:{ right. split; [left; reflexivity|]. intros [? [? [? [? [H [H' [_ [H'' _]]]]]]]].
      injection H as <- <-. congruence. }
  destruct (writable env dest) eqn:Hw.
  - left. exists db_path, rest, file, rows. repeat split; try assumption.
    unfold backup_members, KEYS_TO_BACKUP. cbn [flat_map].
    destruct (rows !! "antigravityAuthStatus"),
             (rows !! "jetskiStateSync.agentManagerInitState"); reflexivity.
  - right. split.
    + destruct (creatable env dest) eqn:Hc;
        [right; split; [reflexivity|] | left];
        destruct (rows !! "antigravityAuthStatus"),
                 (rows !! "jetskiStateSync.agentManagerInitState"); reflexivity.
    + intros [? [? [? [? [_ [_ [_ [_ H]]]]]]]]. congruence.
Qed.

(** X18.  [backup_account] changes no file but the destination.  When it
    returns true the destination holds the document, and so no database
    row: a destination that names a database replaces that database.  When
    it returns false either nothing has changed, or [open] succeeded and
    the destination is left with a text that does not parse. *)
Theorem backup_only_writes_destination (email dest : string) (disk : Disk) :
  let '(ok, disk') := backup_account env email dest disk in
  (forall q, q <> dest -> files disk' !! q = files disk !! q)
  /\ (ok = true ->
      (exists members,
          files disk' !! dest = Some (F_document (Doc_json (J_object members))))
      /\ forall k, row_at disk' dest k = None)
  /\ (ok = false ->
      disk' = disk
      \/ (creatable env dest = true
          /\ files disk' !! dest = Some (F_document Doc_unparseable))).
Proof.
  destruct (backup_account_cases email dest disk)
    as [[p [rest [file [rows [_ [_ [_ [_ [_ ->]]]]]]]]]|[[->|[Hc ->]] _]].
  - split; [intros q Hq; apply lookup_insert_ne; congruence|].
    split; [|discriminate]. intros _. split.
    + eexists. apply lookup_insert_eq.
    + intros k. unfold row_at.
      rewrite databases_write_file, decide_True by reflexivity. reflexivity.
  - split; [reflexivity|]. split; [discriminate|]. intros _. left. reflexivity.
  - split; [intros q Hq; apply lookup_insert_ne; congruence|].
    split; [discriminate|]. intros _. right. split; [exact Hc|].
    apply lookup_insert_eq.
Qed.

(** X19.  [backup_account] returns true exactly when the first path of
    [get_antigravity_db_paths()] names a database that exists, opens and
    has its table, and the destination can be written; the other paths
    play no part. *)
Theorem backup_succeeds_iff (email dest : string) (disk : Disk) :
  fst (backup_account env email dest disk) = true <->
  exists db_path rest file rows,
    db_paths env = db_path :: rest /\ databases disk !! db_path = Some file
    /\ opens file = true /\ item_table file = Some rows /\ writable env dest = true.
Proof.
  destruct (backup_account_cases email dest disk)
    as [[p [rest [file [rows [H1 [H2 [H3 [H4 [H5 ->]]]]]]]]]|[[->|[_ ->]] Hno]].
  - split; [|reflexivity]. intros _. exists p, rest, file, rows. auto.
  - split; [discriminate | intros H; exfalso; exact (Hno H)].
  - split; [discriminate | intros H; exfalso; exact (Hno H)].
Qed.

(** *** Restore *)

Lemma row_at_rows_of (disk : Disk) (q k : string) :
  row_at disk q k = match databases disk !! q with
                    | Some file => rows_of file k
                    | None => None
                    end.
Proof. reflexivity. Qed.

(** The rows after [restore_account] has read the document. *)
Lemma restored_rows (path : string) (doc : Json) (disk : Disk) (q : string) :
  documents disk !! path = Some (Doc_json doc) ->
  let attempts := snd (fst (restore_account env path disk)) in
  let disk' := snd (restore_account env path disk) in
  (In (q, true) attempts ->
   forall k,
     row_at disk' q k =
       if bool_decide (k ∈ KEYS_TO_BACKUP /\ py_in k doc = Some true)
       then value_text env <$> py_getitem doc k
       else row_at disk q k)
  /\ (~ In (q, true) attempts -> databases disk' !! q = databases disk !! q).
Proof.
  intros Hdoc.
  pose proof (restore_account_disk env path doc disk Hdoc) as [_ Hdb].
  destruct (restore_account_parsed env path doc disk Hdoc) as [disk' [Heq _]].
  rewrite Heq in Hdb |- *. cbn [fst snd] in Hdb |- *. cbn zeta.
  rewrite (attempts_true env). split.
  - intros [Hin [file [Hq Hr]]] k. rewrite !row_at_rows_of, Hdb, Hq. cbn.
    unfold restored_at. rewrite bool_decide_eq_true_2 by exact Hin. rewrite Hr. cbn.
    apply (restored_file_rows env), Hr.
  - intros Hno. rewrite Hdb. destruct (databases disk !! q) as [file|] eqn:Hq; [|reflexivity].
    cbn. unfold restored_at.
    destruct (bool_decide (q ∈ candidates env disk)) eqn:Hc; [|reflexivity].
    destruct (restorable env doc file) eqn:Hr; [|reflexivity].
    exfalso. apply Hno. split; [apply bool_decide_eq_true in Hc; exact Hc | eauto].
Qed.

(** X20.  After [restore_account] has read the document, every database it
    reports as restored holds, for each canonical key that the document
    contains, the document's value (as text), and holds all its other rows
    as before; every other database is exactly as it was, also the ones on
    which the restore failed. *)
Theorem restore_account_rows (path : string) (doc : Json) (disk : Disk) :
  documents disk !! path = Some (Doc_json doc) ->
  let '(_, attempts, disk') := restore_account env path disk in
  forall q,
    (In (q, true) attempts ->
     forall k,
       row_at disk' q k =
         if bool_decide (k ∈ KEYS_TO_BACKUP /\ py_in k doc = Some true)
         then value_text env <$> py_getitem doc k
         else row_at disk q k)
    /\ (~ In (q, true) attempts -> databases disk' !! q = databases disk !! q).
Proof.
  intros Hdoc. pose proof (fun q => restored_rows path doc disk q Hdoc) as H.
  destruct (restore_account env path disk) as [[ok attempts] disk'].
  cbn [fst snd] in H. exact H.
Qed.

(** X21.  Whatever the backup file and the disk, [restore_account] never
    changes a document, never creates or removes a database file, and never
    changes a row whose key is not in [KEYS_TO_BACKUP]. *)
Theorem restore_touches_only_canonical_keys (path : string) (disk : Disk) :
  let disk' := snd (restore_account env path disk) in
  documents disk' = documents disk
  /\ (forall q, is_Some (databases disk' !! q) <-> is_Some (databases disk !! q))
  /\ (forall q k, k ∉ KEYS_TO_BACKUP -> row_at disk' q k = row_at disk q k).
Proof.
  destruct (documents disk !! path) as [[|doc]|] eqn:Hdoc;
    try (unfold restore_account; rewrite Hdoc; cbn; tauto).
  destruct (restore_account_disk env path doc disk Hdoc) as [Hd Hdb]. cbn zeta.
  split; [exact Hd|]. split.
  - intros q. rewrite Hdb. apply fmap_is_Some.
  - intros q k Hk. rewrite !row_at_rows_of, Hdb.
    destruct (databases disk !! q) as [file|]; [|reflexivity]. cbn.
    unfold restored_at.
    destruct (bool_decide (q ∈ candidates env disk) && restorable env doc file) eqn:E;
      [|reflexivity].
    apply andb_true_iff in E. destruct E as [_ Hr].
    rewrite (restored_file_rows env doc file k Hr).
    rewrite bool_decide_eq_false_2; [reflexivity | tauto].
Qed.

Lemma candidates_same_shape (d1 d2 : Disk) :
  same_shape d1 d2 -> candidates env d1 = candidates env d2.
Proof.
  intros Hs. unfold candidates, candidates_of.
  apply List.flat_map_ext. intros p.
  rewrite (same_shape_exists d1 d2 _ Hs). reflexivity.
Qed.

(** X23.  Restoring the same document a second time changes nothing: the
    second run makes the same calls with the same results and leaves the
    disk as the first run left it. *)
Theorem restore_account_idempotent (path : string) (doc : Json) (disk : Disk) :
  documents disk !! path = Some (Doc_json doc) ->
  restore_account env path (snd (restore_account env path disk))
  = restore_account env path disk.
Proof.
  intros Hdoc.
  destruct (restore_account_disk env path doc disk Hdoc) as [Hd1 _].
  pose proof (restore_account_files env path doc disk Hdoc) as Hf1.
  destruct (restore_account_parsed env path doc disk Hdoc) as [disk1 [Heq1 Hs1]].
  rewrite Heq1 in Hd1, Hf1 |- *. cbn [snd] in *.
  assert (Hdoc1 : documents disk1 !! path = Some (Doc_json doc)) by (rewrite Hd1; exact Hdoc).
  pose proof (restore_account_files env path doc disk1 Hdoc1) as Hf2.
  destruct (restore_account_parsed env path doc disk1 Hdoc1) as [disk2 [Heq2 _]].
  rewrite Heq2 in Hf2 |- *. cbn [snd] in *.
  rewrite <- (candidates_same_shape disk disk1 Hs1) in *.
  assert (Hatt : map (outcome_on env disk1 doc) (candidates env disk)
                 = map (outcome_on env disk doc) (candidates env disk)).
  { apply List.map_ext. intros p. unfold outcome_on. f_equal.
    symmetry. apply restore_single_db_shape_result, Hs1. }
  rewrite Hatt. f_equal.
  apply disk_ext. intros q. rewrite Hf2, Hf1.
  destruct (files disk !! q) as [f|]; [|reflexivity]. cbn. f_equal.
  rewrite restored_file_at_app_idem. unfold restored_file_at.
  assert (Hb : bool_decide (q ∈ candidates env disk ++ candidates env disk)
               = bool_decide (q ∈ candidates env disk)).
  { apply bool_decide_ext. rewrite elem_of_app. tauto. }
  rewrite Hb. reflexivity.
Qed.

(** *** Backup, then restore *)

Lemma dict_get_backup_members (rows : gmap string string) (email k : string) :
  k ∈ KEYS_TO_BACKUP ->
  dict_get k (backup_members env rows email) = J_string <$> rows !! k.
Proof.
  unfold backup_members, KEYS_TO_BACKUP. intros Hk. cbn [flat_map].
  apply elem_of_cons in Hk. destruct Hk as [->|Hk];
    [|apply list_elem_of_singleton in Hk; subst k];
    destruct (rows !! "antigravityAuthStatus"),
             (rows !! "jetskiStateSync.agentManagerInitState"); reflexivity.
Qed.

Lemma candidates_in_candidate_paths (disk : Disk) (q : string) :
  q ∈ candidates env disk -> q ∈ candidate_paths env.
Proof.
  unfold candidates, candidates_of, candidate_paths.
  rewrite !list_elem_of_In, !List.in_flat_map.
  intros [p [Hp Hq]]. exists p. split; [exact Hp|].
  destruct (bool_decide _); cbn in Hq |- *; tauto.
Qed.

(** The disk between the backup and the restore, seen from a path that is
    not the destination. *)
Lemma databases_after_backup (email dest : string) (disk : Disk) (q : string) :
  q <> dest ->
  databases (snd (backup_account env email dest disk)) !! q = databases disk !! q.
Proof.
  intros Hq.
  destruct (backup_account_cases email dest disk)
    as [[p [rest [file [rows [_ [_ [_ [_ [_ ->]]]]]]]]]|[[->|[Hc ->]] _]]; cbn [snd];
    rewrite ?databases_write_file, ?decide_False by exact Hq; reflexivity.
Qed.

(** X22.  When the destination of the backup is none of the paths that
    [restore_account] opens as databases, and [restore_account] is given
    the document that [backup_account] has just written, every database it
    reports as restored has, under each canonical key, the value of the
    first database when that one has the key, and its own earlier value
    when that one has not: a key missing at the time of the backup is not
    removed by the restore. *)
Theorem backup_then_restore (email dest : string) (disk : Disk) :
  dest ∉ candidate_paths env ->
  fst (backup_account env email dest disk) = true ->
  let '(_, attempts, disk2) :=
    restore_account env dest (snd (backup_account env email dest disk)) in
  forall p rest q k,
    db_paths env = p :: rest ->
    In (q, true) attempts ->
    k ∈ KEYS_TO_BACKUP ->
    row_at disk2 q k = match row_at disk p k with
                       | Some value => Some value
                       | None => row_at disk q k
                       end.
Proof.
  intros Hdest.
  pose proof (fun q => databases_after_backup email dest disk q) as Hsame.
  destruct (backup_account_cases email dest disk)
    as [[p0 [rest0 [file [rows [Hp [Hf [Ho [Hr [Hw Heq]]]]]]]]]|[[Heq|[_ Heq]] _]];
    rewrite Heq in Hsame |- *; [intros _ | discriminate | discriminate].
  cbn [snd] in *.
  set (doc := J_object (backup_members env rows email)) in *.
  set (disk1 := write_file dest (F_document (Doc_json doc)) disk) in *.
  assert (Hdoc : documents disk1 !! dest = Some (Doc_json doc)).
  { unfold disk1. rewrite documents_write_file, decide_True by reflexivity. reflexivity. }
  pose proof (fun q => restored_rows dest doc disk1 q Hdoc) as H.
  destruct (restore_account_parsed env dest doc disk1 Hdoc) as [disk2 [Heq2 _]].
  rewrite Heq2 in H |- *. cbn [fst snd] in H.
  intros p rest q k Hp' Hin Hk.
  rewrite Hp in Hp'. injection Hp' as <- <-.
  destruct (H q) as [Hrows _]. rewrite (Hrows Hin k).
  assert (Hq : q <> dest).
  { apply (attempts_true env) in Hin. destruct Hin as [Hin _].
    apply candidates_in_candidate_paths in Hin. congruence. }
  assert (Hrow1 : row_at disk1 q k = row_at disk q k).
  { unfold row_at. rewrite (Hsame q Hq). reflexivity. }
  rewrite Hrow1.
  assert (Hprim : row_at disk p0 k = rows !! k).
  { unfold row_at. rewrite Hf, Hr. reflexivity. }
  rewrite Hprim. unfold doc, py_in, py_getitem.
  rewrite (dict_get_backup_members rows email k Hk).
  destruct (rows !! k) as [value|]; cbn.
  - rewrite bool_decide_eq_true_2; [reflexivity | tauto].
  - rewrite bool_decide_eq_false_2; [reflexivity|].
    intros [_ Hc]. discriminate.
Qed.

End WithEnv.

Lemma restore_account_rows_witness :
  let '(_, attempts, disk') :=
    restore_account DbSim.env "/tmp/own.json" DbSim.half_broken_disk in
  forall q,
    (In (q, true) attempts ->
     forall k,
       row_at disk' q k =
         if bool_decide (k ∈ KEYS_TO_BACKUP /\ py_in k DbSim.own_doc = Some true)
         then value_text DbSim.env <$> py_getitem DbSim.own_doc k
         else row_at DbSim.half_broken_disk q k)
    /\ (~ In (q, true) attempts ->
        databases disk' !! q = databases DbSim.half_broken_disk !! q).
Proof.
  apply (restore_account_rows DbSim.env "/tmp/own.json" DbSim.own_doc
           DbSim.half_broken_disk).
  reflexivity.
Defined.

Lemma restore_account_idempotent_witness :
  restore_account DbSim.env "/tmp/own.json"
    (snd (restore_account DbSim.env "/tmp/own.json" DbSim.half_broken_disk))
  = restore_account DbSim.env "/tmp/own.json" DbSim.half_broken_disk.
Proof.
  apply (restore_account_idempotent DbSim.env "/tmp/own.json" DbSim.own_doc).
  reflexivity.
Defined.

Lemma backup_then_restore_witness :
  let '(_, attempts, disk2) :=
    restore_account DbSim.env "/tmp/out.json"
      (snd (backup_account DbSim.env "a@b.com" "/tmp/out.json" DbSim.disk)) in
  forall p rest q k,
    db_paths DbSim.env = p :: rest ->
    In (q, true) attempts ->
    k ∈ KEYS_TO_BACKUP ->
    row_at disk2 q k = match row_at DbSim.disk p k with
                       | Some value => Some value
                       | None => row_at DbSim.disk q k
                       end.
Proof.
  apply (backup_then_restore DbSim.env "a@b.com" "/tmp/out.json" DbSim.disk).
  - intros H. apply list_elem_of_In in H. vm_compute in H.
    destruct H as [H|[H|[]]]; discriminate.
  - reflexivity.
Defined.

End DbMore.

(** ** Facts about [get_current_account_info] *)

Module AccountFacts.
Import PyStr Db DbFacts DbVocab DbMore AccountInfo.

Lemma dict_items_spec (members : list (string * Json)) (k : string) (v : Json) :
  In (k, v) (dict_items members) <-> dict_get k members = Some v.
Proof.
  induction members as [|[k0 v0] rest IH]; simpl.
  - split; [tauto | discriminate].
  - destruct (String.eqb k0 k) eqn:E.
    + apply String.eqb_eq in E. subst k0. split.
      * intros [H|H]; [congruence|].
        apply list_elem_of_In, list_elem_of_filter in H. destruct H as [H _].
        simpl in H. rewrite String.eqb_refl in H. destruct H.
      * intros H. left. congruence.
    + split.
      * intros [H|H].
        -- injection H as -> _. rewrite String.eqb_refl in E. discriminate.
        -- apply list_elem_of_In, list_elem_of_filter in H. destruct H as [_ H].
           apply IH, list_elem_of_In, H.
      * intros H. right. apply list_elem_of_In, list_elem_of_filter. split.
        -- simpl. rewrite String.eqb_sym, E. exact I.
        -- apply list_elem_of_In, IH, H.
Qed.

Lemma find_email_some (items : list (string * Json)) (v : Json) :
  find_email items = Some v ->
  exists k s, In (k, v) items /\ lower k = "email" /\ v = J_string s.
Proof.
  induction items as [|[k0 v0] rest IH]; simpl; [discriminate|].
  destruct (String.eqb (lower k0) "email" && is_str v0) eqn:E.
  - intros H. injection H as ->. apply andb_true_iff in E. destruct E as [Ek Es].
    apply String.eqb_eq in Ek. destruct v; try discriminate. eauto 6.
  - intros H. destruct (IH H) as [k [s [Hin Hr]]]. eauto 6.
Qed.

Lemma find_email_found (items : list (string * Json)) (k s : string) :
  In (k, J_string s) items -> lower k = "email" -> is_Some (find_email items).
Proof.
  induction items as [|[k0 v0] rest IH]; simpl; [tauto|].
  intros [H|H] Hk.
  - injection H as -> ->. rewrite Hk. simpl. eauto.
  - destruct (String.eqb (lower k0) "email" && is_str v0); eauto.
Qed.

Section WithEnv.

Variable env : Env.
Variable loads : string -> option Json.

Local Abbreviation account_info := (get_current_account_info env loads).

(** The function reads the rows of the first database and nothing else. *)
Lemma account_info_rows (disk : Disk) :
  account_info disk =
    match first_rows env disk with
    | None => None
    | Some rows =>
        match on_row (rows !! "antigravityAuthStatus") (auth_status_email loads) with
        | Some email => Some email
        | None =>
            match on_row (rows !! "google.antigravity") (settings_email loads) with
            | Some email => Some email
            | None =>
                on_row (rows !! "antigravityUserSettings.allUserSettings")
                  (settings_email loads)
            end
        end
    end.
Proof.
  unfold get_current_account_info, first_rows.
  destruct (db_paths env) as [|p rest]; [reflexivity|].
  destruct (databases disk !! p) as [file|]; [|reflexivity]. cbn.
  unfold get_db_connection. destruct (opens file); [|reflexivity].
  unfold select_value. destruct (item_table file); reflexivity.
Qed.

Lemma auth_status_email_from (rows : gmap string string) (v : Json) :
  on_row (rows !! "antigravityAuthStatus") (auth_status_email loads) = Some v ->
  email_from loads rows "antigravityAuthStatus" v.
Proof.
  unfold on_row, auth_status_email, email_from, parses_to.
  destruct (rows !! "antigravityAuthStatus") as [raw|]; [|discriminate].
  destruct (loads raw) as [[| | | | |members]|] eqn:Hl; try discriminate.
  intros H. exists members. split; [exists raw; split; [reflexivity | exact Hl]|].
  destruct (dict_get "email" members) as [e|] eqn:He.
  - left. exact H.
  - right. split; [reflexivity|]. split; [reflexivity|].
    destruct (find_email_some _ _ H) as [k [s [Hin [Hk Hs]]]].
    exists k, s. split; [exact Hk|]. split; [exact Hs|].
    apply dict_items_spec, Hin.
Qed.

Lemma settings_email_from (rows : gmap string string) (key : string) (v : Json) :
  on_row (rows !! key) (settings_email loads) = Some v ->
  email_from loads rows key v.
Proof.
  unfold on_row, settings_email, email_from, parses_to.
  destruct (rows !! key) as [raw|]; [|discriminate].
  destruct (loads raw) as [[| | | | |members]|] eqn:Hl; try discriminate.
  intros H. exists members. split; [exists raw; split; [reflexivity | exact Hl]|]. left. exact H.
Qed.

Lemma email_from_settings (rows : gmap string string) (key : string) (v : Json) :
  key <> "antigravityAuthStatus" ->
  email_from loads rows key v ->
  on_row (rows !! key) (settings_email loads) = Some v.
Proof.
  intros Hk [members [[raw [Hr Hl]] [H|[H _]]]]; [|contradiction].
  unfold on_row, settings_email. rewrite Hr, Hl. exact H.
Qed.

Lemma email_from_auth_status (rows : gmap string string) (v : Json) :
  email_from loads rows "antigravityAuthStatus" v ->
  is_Some (on_row (rows !! "antigravityAuthStatus") (auth_status_email loads)).
Proof.
  intros [members [[raw [Hr Hl]] H]].
  unfold on_row, auth_status_email. rewrite Hr, Hl.
  destruct H as [H|[_ [H [k [s [Hk [-> Hd]]]]]]].
  - rewrite H. eauto.
  - rewrite H. apply (find_email_found _ k s); [|exact Hk].
    apply dict_items_spec, Hd.
Qed.

Lemma account_keys_cases (key : string) :
  key ∈ account_keys ->
  key = "antigravityAuthStatus" \/ key = "google.antigravity"
  \/ key = "antigravityUserSettings.allUserSettings".
Proof.
  unfold account_keys. rewrite !elem_of_cons, elem_of_nil. tauto.
Qed.

(** An answer comes from one of the three blocks. *)
Lemma answer_cases (disk : Disk) (v : Json) :
  account_info disk = Some v ->
  exists rows,
    first_rows env disk = Some rows
    /\ (on_row (rows !! "antigravityAuthStatus") (auth_status_email loads) = Some v
        \/ on_row (rows !! "google.antigravity") (settings_email loads) = Some v
        \/ on_row (rows !! "antigravityUserSettings.allUserSettings")
             (settings_email loads) = Some v).
Proof.
  rewrite account_info_rows.
  destruct (first_rows env disk) as [rows|]; [|discriminate].
  intros H. exists rows. split; [reflexivity|].
  destruct (on_row (rows !! "antigravityAuthStatus") (auth_status_email loads));
    [left; exact H|].
  destruct (on_row (rows !! "google.antigravity") (settings_email loads));
    [right; left; exact H|].
  right. right. exact H.
Qed.

(** X24.  An answer of [get_current_account_info] is read off the first
    database: it is the member [email] of the object that one of the three
    queried rows parses to, or, for [antigravityAuthStatus] without such a
    member, a string held under a key that is [email] up to case. *)
Theorem account_info_sound (disk : Disk) (v : Json) :
  account_info disk = Some v ->
  exists rows key,
    first_rows env disk = Some rows /\ key ∈ account_keys /\ email_from loads rows key v.
Proof.
  intros H. destruct (answer_cases disk v H) as [rows [Hr Hc]]. exists rows.
  destruct Hc as [Hc | [Hc | Hc]].
  - exists "antigravityAuthStatus". split; [exact Hr|].
    split; [|apply auth_status_email_from, Hc].
    unfold account_keys. rewrite !elem_of_cons. tauto.
  - exists "google.antigravity". split; [exact Hr|].
    split; [|apply settings_email_from, Hc].
    unfold account_keys. rewrite !elem_of_cons. tauto.
  - exists "antigravityUserSettings.allUserSettings". split; [exact Hr|].
    split; [|apply settings_email_from, Hc].
    unfold account_keys. rewrite !elem_of_cons. tauto.
Qed.

(** X25.  [get_current_account_info] answers exactly when the first
    database can be read and one of the three rows contributes an address;
    in every other case, among them no path, no file, a failed connection
    and a missing table, it returns [None]. *)
Theorem account_info_found_iff (disk : Disk) :
  is_Some (account_info disk) <->
  exists rows key v,
    first_rows env disk = Some rows /\ key ∈ account_keys /\ email_from loads rows key v.
Proof.
  split.
  - intros [v H]. destruct (answer_cases disk v H) as [rows [Hr Hc]].
    exists rows. unfold account_keys.
    destruct Hc as [Hc | [Hc | Hc]];
      [ exists "antigravityAuthStatus", v; apply auth_status_email_from in Hc
      | exists "google.antigravity", v; apply settings_email_from in Hc
      | exists "antigravityUserSettings.allUserSettings", v;
        apply settings_email_from in Hc ];
      (split; [exact Hr|]); (split; [|exact Hc]); rewrite !elem_of_cons; tauto.
  - intros [rows [key [v [Hr [Hk He]]]]]. rewrite account_info_rows, Hr.
    destruct (on_row (rows !! "antigravityAuthStatus") (auth_status_email loads))
      as [e1|] eqn:E1; [eauto|].
    destruct (on_row (rows !! "google.antigravity") (settings_email loads))
      as [e2|] eqn:E2; [eauto|].
    destruct (account_keys_cases key Hk) as [-> | [-> | ->]].
    + apply email_from_auth_status in He. rewrite E1 in He.
      destruct He as [? He]. discriminate.
    + apply email_from_settings in He; [|discriminate]. congruence.
    + apply email_from_settings in He; [|discriminate]. rewrite He. eauto.
Qed.

(** X26.  The three rows are tried in their order: when a row parses to an
    object with a member [email] and no earlier row contributes anything,
    the answer is that member, whatever its type and whatever the later
    rows hold. *)
Theorem account_info_priority (disk : Disk) (rows : gmap string string)
    (pre post : list string) (key : string) (members : list (string * Json))
    (v : Json) :
  first_rows env disk = Some rows ->
  account_keys = pre ++ key :: post ->
  (forall key' v', key' ∈ pre -> ~ email_from loads rows key' v') ->
  parses_to loads rows key members ->
  dict_get "email" members = Some v ->
  account_info disk = Some v.
Proof.
  intros Hr Hkeys Hpre [raw [Hraw Hl]] Hv.
  rewrite account_info_rows, Hr.
  assert (Hset : on_row (rows !! key) (settings_email loads) = Some v).
  { unfold on_row, settings_email. rewrite Hraw, Hl. exact Hv. }
  assert (Hauth : key = "antigravityAuthStatus" ->
            on_row (rows !! "antigravityAuthStatus") (auth_status_email loads) = Some v).
  { intros ->. unfold on_row, auth_status_email. rewrite Hraw, Hl, Hv. reflexivity. }
  assert (Hskip1 : "antigravityAuthStatus" ∈ pre ->
            on_row (rows !! "antigravityAuthStatus") (auth_status_email loads) = None).
  { intros Hin.
    destruct (on_row (rows !! "antigravityAuthStatus") (auth_status_email loads))
      as [e|] eqn:E; [|reflexivity].
    exfalso. exact (Hpre _ e Hin (auth_status_email_from rows e E)). }
  assert (Hskip2 : "google.antigravity" ∈ pre ->
            on_row (rows !! "google.antigravity") (settings_email loads) = None).
  { intros Hin.
    destruct (on_row (rows !! "google.antigravity") (settings_email loads))
      as [e|] eqn:E; [|reflexivity].
    exfalso. exact (Hpre _ e Hin (settings_email_from rows _ e E)). }
  unfold account_keys in Hkeys.
  destruct pre as [|k1 [|k2 [|k3 pre]]]; cbn in Hkeys.
  - injection Hkeys as <- _. rewrite Hauth; reflexivity.
  - injection Hkeys as <- <- _.
    rewrite Hskip1 by (apply elem_of_cons; tauto). rewrite Hset. reflexivity.
  - injection Hkeys as <- <- <- _.
    rewrite Hskip1 by (rewrite !elem_of_cons; tauto).
    rewrite Hskip2 by (rewrite !elem_of_cons; tauto). exact Hset.
  - injection Hkeys as _ _ _ Hkeys. destruct pre; discriminate.
Qed.

(** *** Backup and restore, seen by [get_current_account_info] *)

Lemma first_rows_ext (d1 d2 : Disk) :
  (forall p rest, db_paths env = p :: rest -> databases d1 !! p = databases d2 !! p) ->
  first_rows env d1 = first_rows env d2.
Proof.
  unfold first_rows. destruct (db_paths env) as [|p rest]; [reflexivity|].
  intros H. rewrite (H p rest eq_refl). reflexivity.
Qed.

(** X27.  When the destination of the backup is not the first database
    itself, a backup followed by a restore of the document just written
    leaves the first database as it was, and with it the answer of
    [get_current_account_info]. *)
Theorem backup_then_restore_keeps_account (email dest : string) (disk : Disk)
    (p : string) (rest : list string) :
  db_paths env = p :: rest ->
  dest <> p ->
  fst (backup_account env email dest disk) = true ->
  let disk2 := snd (restore_account env dest (snd (backup_account env email dest disk))) in
  databases disk2 !! p = databases disk !! p
  /\ account_info disk2 = account_info disk.
Proof.
  intros Hp Hne Hok. cbn zeta.
  match goal with |- ?A /\ _ => assert (Hdb : A) end.
  2:{ split; [exact Hdb|]. rewrite !account_info_rows.
      rewrite (first_rows_ext _ disk); [reflexivity|].
      intros p' rest' Hp'. rewrite Hp in Hp'. injection Hp' as <- <-. exact Hdb. }
  pose proof (databases_after_backup env email dest disk p (not_eq_sym Hne)) as Hsame.
  destruct (backup_account_cases env email dest disk)
    as [[p0 [rest0 [file [rows [Hp0 [Hf [Ho [Hr [Hw Heq]]]]]]]]]|[[Heq|[_ Heq]] _]];
    [|rewrite Heq in Hok; discriminate|rewrite Heq in Hok; discriminate].
  rewrite Hp in Hp0. injection Hp0 as <- <-.
  rewrite Heq in Hsame |- *. cbn [snd] in *.
  set (doc := J_object (backup_members env rows email)) in *.
  set (disk1 := write_file dest (F_document (Doc_json doc)) disk) in *.
  assert (Hdoc : documents disk1 !! dest = Some (Doc_json doc)).
  { unfold disk1. rewrite documents_write_file, decide_True by reflexivity. reflexivity. }
  destruct (restore_account_disk env dest doc disk1 Hdoc) as [_ Hdisk].
  rewrite Hdisk, Hsame, Hf. cbn.
  f_equal. unfold restored_at.
  destruct (bool_decide (p ∈ candidates env disk1) && restorable env doc file) eqn:E;
    [|reflexivity].
  apply andb_true_iff in E. destruct E as [_ Hres].
  pose proof (restored_file_rows env doc file) as Hrows.
  pose proof (restored_file_shape env doc file) as [Hso [Hsl Hst]].
  destruct (restored_file env doc file) as [o' t' l'] eqn:Ef.
  destruct file as [o t l]. cbn [opens item_table locked] in Hso, Hsl, Hst, Hr.
  subst o' l' t.
  assert (Ht : is_Some t') by (apply Hst; eauto).
  destruct Ht as [rows' ->].
  f_equal. f_equal. apply map_eq. intros k.
  specialize (Hrows k Hres). unfold rows_of in Hrows.
  cbn [opens item_table locked] in Hrows. rewrite Hrows.
  case_bool_decide as Hc; [|reflexivity].
  destruct Hc as [Hk _]. unfold doc, py_getitem.
  rewrite (dict_get_backup_members env rows email k Hk).
  destruct (rows !! k); reflexivity.
Qed.

(** X28.  When the document holds, under [antigravityAuthStatus], a text
    that parses to an object with a member [email], and [restore_account]
    reports the first database as restored, then
    [get_current_account_info] answers with that member afterwards. *)
Theorem restore_then_account_info (path : string) (doc : Json) (disk : Disk)
    (p : string) (rest : list string) (raw : string)
    (members : list (string * Json)) (v : Json) :
  documents disk !! path = Some (Doc_json doc) ->
  py_getitem doc "antigravityAuthStatus" = Some (J_string raw) ->
  loads raw = Some (J_object members) ->
  dict_get "email" members = Some v ->
  db_paths env = p :: rest ->
  In (p, true) (snd (fst (restore_account env path disk))) ->
  account_info (snd (restore_account env path disk)) = Some v.
Proof.
  intros Hdoc Hget Hl Hv Hp Hin.
  pose proof (fun q => restored_rows env path doc disk q Hdoc) as Hrows.
  destruct (restore_account_disk env path doc disk Hdoc) as [_ Hdisk].
  destruct (restore_account_parsed env path doc disk Hdoc) as [disk' [Heq _]].
  rewrite Heq in Hrows, Hdisk, Hin |- *. cbn [fst snd] in *.
  destruct (Hrows p) as [Hrow _]. specialize (Hrow Hin "antigravityAuthStatus").
  apply attempts_true in Hin. destruct Hin as [Hc [file [Hf Hres]]].
  rewrite bool_decide_eq_true_2 in Hrow.
  2:{ split; [unfold KEYS_TO_BACKUP; apply elem_of_cons; tauto|].
      destruct doc; try discriminate. cbn in Hget |- *. rewrite Hget.
      reflexivity. }
  rewrite Hget in Hrow. cbn in Hrow.
  rewrite account_info_rows. unfold first_rows. rewrite Hp.
  unfold row_at in Hrow. specialize (Hdisk p). rewrite Hf in Hdisk. cbn in Hdisk.
  rewrite Hdisk in Hrow |- *. cbn.
  unfold restored_at in *. rewrite bool_decide_eq_true_2 in * by exact Hc.
  rewrite Hres in *. cbn [andb] in *.
  pose proof (restored_file_shape env doc file) as [Hso _].
  rewrite <- Hso. unfold restorable in Hres. apply andb_true_iff in Hres.
  destruct Hres as [-> _].
  destruct (item_table (restored_file env doc file)) as [rows'|]; [|discriminate].
  rewrite Hrow. unfold on_row, auth_status_email. rewrite Hl, Hv. reflexivity.
Qed.

End WithEnv.

Lemma account_info_sound_witness :
  exists rows key,
    first_rows DbSim.env capital_disk = Some rows /\ key ∈ account_keys
    /\ email_from sample_loads rows key (J_string "c@d.com").
Proof.
  apply (account_info_sound DbSim.env sample_loads capital_disk). reflexivity.
Defined.

Lemma account_info_priority_witness :
  get_current_account_info DbSim.env sample_loads settings_disk = Some J_null.
Proof.
  apply (account_info_priority DbSim.env sample_loads settings_disk
           (<["google.antigravity" := null_text]> ∅)
           ["antigravityAuthStatus"] ["antigravityUserSettings.allUserSettings"]
           "google.antigravity" [("email", J_null)] J_null).
  - reflexivity.
  - reflexivity.
  - intros key' v' Hk [members [[raw [Hraw _]] _]].
    apply list_elem_of_singleton in Hk. subst key'. vm_compute in Hraw. discriminate.
  - exists null_text. split; reflexivity.
  - reflexivity.
Defined.

Lemma backup_then_restore_keeps_account_witness :
  let disk2 :=
    snd (restore_account DbSim.env "/tmp/out.json"
           (snd (backup_account DbSim.env "a@b.com" "/tmp/out.json" DbSim.disk))) in
  databases disk2 !! DbSim.state_db = databases DbSim.disk !! DbSim.state_db
  /\ get_current_account_info DbSim.env sample_loads disk2
     = get_current_account_info DbSim.env sample_loads DbSim.disk.
Proof.
  apply (backup_then_restore_keeps_account DbSim.env sample_loads
           "a@b.com" "/tmp/out.json" DbSim.disk DbSim.state_db []).
  - reflexivity.
  - discriminate.
  - reflexivity.
Defined.

Lemma restore_then_account_info_witness :
  get_current_account_info DbSim.env sample_loads
    (snd (restore_account DbSim.env "/tmp/plain.json" settings_disk))
  = Some (J_string "e@f.com").
Proof.
  apply (restore_then_account_info DbSim.env sample_loads "/tmp/plain.json"
           (J_object [("antigravityAuthStatus", J_string plain_text)]) settings_disk
           DbSim.state_db [] plain_text [("email", J_string "e@f.com")]
           (J_string "e@f.com")).
  - reflexivity.
  - reflexivity.
  - reflexivity.
  - reflexivity.
  - reflexivity.
  - vm_compute. left. reflexivity.
Defined.

End AccountFacts.
